(** * Sprint planning MILP: model construction and result extraction

    Shallow embedding of [solver/solve_sprint.py].  The script is a flat
    sequence of module-level statements; every global of the script becomes a
    definition of the same name inside [Section SolveSprint], whose variables
    are the four inputs the script loads ([people_rows], [story_rows],
    [role_rows], [CFG]).

    Conventions.
    - CSV cells and YAML scalars are taken as already converted by
      [float(...)] / [int(...)]: reading and validating raw records is outside
      the modelled part.
    - Python [int] is [Z]; Python [float] is idealised as an exact rational
      [Q].  Nothing below depends on rounding of floating-point operations.
    - Python dictionaries are stdpp [gmap]s; a comprehension or [update]
      inserts its pairs from left to right, so a later pair wins.  A
      subscript [d[k]] whose key was put there by the script itself for
      every [k] it is used with is a total lookup [d !!! k]; the one
      subscript that can miss, [role_cap_eff[r]], is [subscript] and may
      raise [KeyError].
    - A Python [str] is the string of its UTF-8 bytes, which is how the
      files are stored; two identifiers are equal exactly when their bytes
      are.
    - The PuLP objects are modelled by what the script uses of them: a
      variable is denoted by the dictionary it lives in and its key, an affine
      expression is a list of (coefficient, variable) terms plus a constant,
      a constraint is two expressions and a sense, and [pl.value] reads a
      variable's [varValue], which is [None] when the solver assigned none.
      A product by 0 has no terms, a constraint is kept under its translated
      name and a second constraint of the same name is refused, as PuLP
      does. *)

From Stdlib Require Import ZArith QArith Qround Qminmax Qabs Lqa String Ascii List.
From stdpp Require Import base option gmap strings list.

(** ** Python helpers *)

(** The exceptions the modelled statements can raise; [PulpError] is PuLP's
    own. *)
Inductive exn := KeyError | TypeError | ZeroDivisionError | PulpError.

Inductive result (A : Type) : Type :=
| Ok (a : A)
| Raise (e : exn).
Arguments Ok {A} a.
Arguments Raise {A} e.

Definition rbind {A B} (r : result A) (k : A -> result B) : result B :=
  match r with
  | Ok a => k a
  | Raise e => Raise e
  end.

Notation "'let*' x ':=' c1 'in' c2" := (rbind c1 (fun x => c2))
  (at level 10, x name, c1 at level 100, c2 at level 200).

#[global] Instance Q_inhabited : Inhabited Q := populate 0%Q.

(** [a < b] on floats. *)
Definition Qltb (a b : Q) : bool := negb (Qle_bool b a).

(** [min(a, b)]: the first argument is kept unless the second is strictly
    smaller. *)
Definition py_min (a b : Q) : Q := if Qltb b a then b else a.

(** [sum(...)]: starts from [0] and adds from the left. *)
Definition py_sum (l : list Q) : Q := foldl Qplus 0%Q l.

(** [{k: v for ...}] and [d.update({...})]. *)
Definition dict_update `{Countable K} {V} (d : gmap K V) (kvs : list (K * V)) : gmap K V :=
  foldl (fun m kv => <[kv.1 := kv.2]> m) d kvs.

Definition dict_of `{Countable K} {V} (kvs : list (K * V)) : gmap K V :=
  dict_update ∅ kvs.

(** [d.get(k, dflt)]. *)
Definition dict_get `{Countable K} {V} (d : gmap K V) (k : K) (dflt : V) : V :=
  default dflt (d !! k).

(** [d[k]] where the key may be missing. *)
Definition subscript `{Countable K} {V} (d : gmap K V) (k : K) : result V :=
  match d !! k with
  | Some v => Ok v
  | None => Raise KeyError
  end.

(** [k in d]. *)
Definition dict_mem `{Countable K} {V} (d : gmap K V) (k : K) : bool :=
  bool_decide (is_Some (d !! k)).

(** [d[k]] on a [defaultdict(list)]: a missing key is inserted with [[]]. *)
Definition defaultdict_getitem (d : gmap string (list string)) (k : string)
  : list string * gmap string (list string) :=
  match d !! k with
  | Some l => (l, d)
  | None => ([], <[k := []]> d)
  end.

(** [str.strip()] removes from both ends the characters for which
    [str.isspace()] holds: U+0009 to U+000D, U+001C to U+0020, U+0085,
    U+00A0, U+1680, U+2000 to U+200A, U+2028, U+2029, U+202F, U+205F and
    U+3000.  On the UTF-8 bytes these are the one-byte, two-byte and
    three-byte sequences below. *)
Definition byte_in (a : ascii) (lo hi : nat) : bool :=
  (lo <=? nat_of_ascii a)%nat && (nat_of_ascii a <=? hi)%nat.

Definition byte_is (a : ascii) (n : nat) : bool := (nat_of_ascii a =? n)%nat.

Definition space1 (a : ascii) : bool := byte_in a 9 13 || byte_in a 28 32.

Definition space2 (a b : ascii) : bool :=
  byte_is a 194 && (byte_is b 133 || byte_is b 160).

Definition space3 (a b c : ascii) : bool :=
  (byte_is a 225 && byte_is b 154 && byte_is c 128)
  || (byte_is a 226 && byte_is b 128
      && (byte_in c 128 138 || byte_is c 168 || byte_is c 169 || byte_is c 175))
  || (byte_is a 226 && byte_is b 129 && byte_is c 159)
  || (byte_is a 227 && byte_is b 128 && byte_is c 128).

Fixpoint lstrip_bytes (l : list ascii) : list ascii :=
  match l with
  | [] => []
  | a :: l1 =>
      if space1 a then lstrip_bytes l1
      else match l1 with
           | b :: l2 =>
               if space2 a b then lstrip_bytes l2
               else match l2 with
                    | c :: l3 => if space3 a b c then lstrip_bytes l3 else l
                    | [] => l
                    end
           | [] => l
           end
  end.

(** The same from the right end, on the reversed bytes. *)
Fixpoint rstrip_rev (l : list ascii) : list ascii :=
  match l with
  | [] => []
  | c :: l1 =>
      if space1 c then rstrip_rev l1
      else match l1 with
           | b :: l2 =>
               if space2 b c then rstrip_rev l2
               else match l2 with
                    | a :: l3 => if space3 a b c then rstrip_rev l3 else l
                    | [] => l
                    end
           | [] => l
           end
  end.

Definition lstrip (s : string) : string :=
  string_of_list_ascii (lstrip_bytes (list_ascii_of_string s)).

Definition rstrip (s : string) : string :=
  string_of_list_ascii (rev (rstrip_rev (rev (list_ascii_of_string s)))).

Definition strip (s : string) : string := rstrip (lstrip s).

(** [str(name).translate(trans)], which PuLP applies to the name of a
    constraint: each of the characters [-+[] ->/] becomes [_]. *)
Definition illegal_char (a : ascii) : bool :=
  bool_decide (a ∈ list_ascii_of_string "-+[] ->/").

Fixpoint translate (s : string) : string :=
  match s with
  | EmptyString => EmptyString
  | String a s' => String (if illegal_char a then "_"%char else a) (translate s')
  end.

(** [round(q, n)]: nearest multiple of [10^-n], ties to even. *)
Definition round_half_even (q : Q) : Z :=
  let f := Qfloor q in
  let r := (q - inject_Z f)%Q in
  match Qcompare r (1 # 2) with
  | Lt => f
  | Gt => (f + 1)%Z
  | Eq => if Z.even f then f else (f + 1)%Z
  end.

Definition py_round (q : Q) (ndigits : nat) : Q :=
  let p := (10 ^ Z.of_nat ndigits)%Z in
  Qred (inject_Z (round_half_even (q * inject_Z p)) / inject_Z p)%Q.

(** ** Input records *)

(** A row of [people.csv]. *)
Record person_row := {
  p_person : string;
  p_role : string;
  p_capacity_hours : Q
}.

(** A row of [stories.csv]; [s_depends_on] is what [s.get("depends_on")]
    returns. *)
Record story_row := {
  s_story_id : string;
  s_points : Z;
  s_value : Q;
  s_depends_on : option string
}.

(** A row of [roles.csv]. *)
Record role_row := {
  r_role : string;
  r_share_of_hours : Q;
  r_meeting_load_per_story_hours : Q;
  r_bug_hours_per_bug : Q
}.

(** [config.yaml]. *)
Record config := {
  cfg_hours_per_point : Q;
  cfg_bugs_per_sprint : Z;
  cfg_max_points_per_dev : Z;
  cfg_lambda_people_penalty : Q;
  cfg_require_release_for_roles : list string;
  cfg_min_hours_to_count_release : Q;
  cfg_qa_coverage_factor : Q;
  cfg_wip_factor_QA_capacity : Q;
  cfg_forbid_points : list Z
}.

(** ** PuLP objects *)

(** A decision variable: the dictionary it was created in and its key. *)
Inductive LpVariable :=
| var_x (i s : string)
| var_z (s : string)
| var_y (i : string)
| var_owner (i s : string)
| var_rel (i : string).

#[global] Instance LpVariable_eq_dec : EqDecision LpVariable.
Proof. solve_decision. Defined.

Inductive LpCategory := LpContinuous | LpBinary.

(** What [LpVariable.dicts] records for each created variable. *)
Record LpVarDecl := {
  d_var : LpVariable;
  d_lowBound : option Q;
  d_upBound : option Q;
  d_cat : LpCategory
}.

Record LpAffineExpression := {
  e_terms : list (Q * LpVariable);
  e_constant : Q
}.

Definition expr_var (v : LpVariable) : LpAffineExpression :=
  {| e_terms := [(1%Q, v)]; e_constant := 0 |}.

Definition expr_const (c : Q) : LpAffineExpression :=
  {| e_terms := []; e_constant := c |}.

(** [c * e] for a number [c]: PuLP starts from an empty expression and
    fills it only [if other != 0], so a product by 0 has no terms. *)
Definition expr_scale (c : Q) (e : LpAffineExpression) : LpAffineExpression :=
  if Qeq_bool c 0 then expr_const 0
  else {| e_terms := map (fun t => ((c * t.1)%Q, t.2)) (e_terms e);
          e_constant := (c * e_constant e)%Q |}.

(** [e.isNumericalConstant()]: the expression has no terms. *)
Definition isNumericalConstant (e : LpAffineExpression) : bool :=
  match e_terms e with
  | [] => true
  | _ :: _ => false
  end.

(** [e1 + e2] and [e1 - e2]. *)
Definition expr_add (e1 e2 : LpAffineExpression) : LpAffineExpression :=
  {| e_terms := e_terms e1 ++ e_terms e2;
     e_constant := (e_constant e1 + e_constant e2)%Q |}.

Definition expr_sub (e1 e2 : LpAffineExpression) : LpAffineExpression :=
  expr_add e1 (expr_scale (-1) e2).

(** [pl.lpSum(...)]. *)
Definition lpSum (es : list LpAffineExpression) : LpAffineExpression :=
  foldl expr_add (expr_const 0) es.

Inductive LpSense := LpLE | LpGE | LpEQ.

Record LpConstraint := {
  c_lhs : LpAffineExpression;
  c_sense : LpSense;
  c_rhs : LpAffineExpression
}.

(** The problem [m]: the objective and the constraints under their names,
    in the order they were added. *)
Record LpProblem := {
  objective : LpAffineExpression;
  constraints : list (string * LpConstraint)
}.

(** *** Meaning of a model *)

Definition assignment := LpVariable -> Q.

Definition eval_terms (a : assignment) (ts : list (Q * LpVariable)) : Q :=
  fold_right (fun t acc => (t.1 * a t.2 + acc)%Q) 0%Q ts.

Definition eval (a : assignment) (e : LpAffineExpression) : Q :=
  (eval_terms a (e_terms e) + e_constant e)%Q.

Definition holds (a : assignment) (c : LpConstraint) : Prop :=
  match c_sense c with
  | LpLE => (eval a (c_lhs c) <= eval a (c_rhs c))%Q
  | LpGE => (eval a (c_rhs c) <= eval a (c_lhs c))%Q
  | LpEQ => (eval a (c_lhs c) == eval a (c_rhs c))%Q
  end.

Definition respects (a : assignment) (d : LpVarDecl) : Prop :=
  (forall lo, d_lowBound d = Some lo -> (lo <= a (d_var d))%Q) /\
  (forall up, d_upBound d = Some up -> (a (d_var d) <= up)%Q) /\
  (d_cat d = LpBinary -> exists k : Z, (a (d_var d) == inject_Z k)%Q).

(** An assignment is feasible when every declared variable stays in its
    domain and every constraint of the problem holds. *)
Definition feasible (decls : list LpVarDecl) (m : LpProblem) (a : assignment) : Prop :=
  (forall d, d ∈ decls -> respects a d) /\
  (forall nc, nc ∈ constraints m -> holds a nc.2).

(** The same as boolean checks, to decide feasibility of a given assignment. *)
Definition holds_b (a : assignment) (c : LpConstraint) : bool :=
  match c_sense c with
  | LpLE => Qle_bool (eval a (c_lhs c)) (eval a (c_rhs c))
  | LpGE => Qle_bool (eval a (c_rhs c)) (eval a (c_lhs c))
  | LpEQ => Qeq_bool (eval a (c_lhs c)) (eval a (c_rhs c))
  end.

Definition respects_b (a : assignment) (d : LpVarDecl) : bool :=
  match d_lowBound d with
  | Some lo => Qle_bool lo (a (d_var d))
  | None => true
  end
  && match d_upBound d with
     | Some up => Qle_bool (a (d_var d)) up
     | None => true
     end
  && match d_cat d with
     | LpBinary => Qeq_bool (a (d_var d)) (inject_Z (Qfloor (a (d_var d))))
     | LpContinuous => true
     end.

Definition feasible_b (decls : list LpVarDecl) (m : LpProblem) (a : assignment) : bool :=
  forallb (respects_b a) decls && forallb (fun nc => holds_b a nc.2) (constraints m).

(** [sum(g(k) for k in l)] as a rational. *)
Definition sum_over {A} (g : A -> Q) (l : list A) : Q :=
  fold_right (fun k acc => (g k + acc)%Q) 0%Q l.

(** Variables an expression or a constraint mentions. *)
Definition expr_vars (e : LpAffineExpression) : list LpVariable :=
  map snd (e_terms e).

Definition constraint_vars (c : LpConstraint) : list LpVariable :=
  expr_vars (c_lhs c) ++ expr_vars (c_rhs c).

Definition problem_vars (m : LpProblem) : list LpVariable :=
  expr_vars (objective m) ++ flat_map (fun nc => constraint_vars nc.2) (constraints m).

(** The story a variable is indexed by, if any. *)
Definition var_story (v : LpVariable) : option string :=
  match v with
  | var_x _ s | var_owner _ s => Some s
  | var_z s => Some s
  | var_y _ | var_rel _ => None
  end.

(** *** The solver's answer *)

(** [m.status] after [m.solve(...)]. *)
Inductive LpStatusCode :=
| LpStatusNotSolved
| LpStatusOptimal
| LpStatusInfeasible
| LpStatusUnbounded
| LpStatusUndefined.

(** The table [pl.LpStatus]. *)
Definition LpStatus (c : LpStatusCode) : string :=
  match c with
  | LpStatusNotSolved => "Not Solved"
  | LpStatusOptimal => "Optimal"
  | LpStatusInfeasible => "Infeasible"
  | LpStatusUnbounded => "Unbounded"
  | LpStatusUndefined => "Undefined"
  end.

(** What the script can observe once [m.solve(solver)] has returned: the
    status code and, per variable, its [varValue] ([None] when the solver
    left it unassigned). *)
Record solution := {
  sol_status : LpStatusCode;
  varValue : LpVariable -> option Q
}.

(** [pl.value(e)] for an affine expression: [None] as soon as one of its
    variables has no value. *)
Definition expr_value (vv : LpVariable -> option Q) (e : LpAffineExpression) : option Q :=
  foldl (fun acc t =>
           match acc, vv t.2 with
           | Some s, Some v => Some (s + v * t.1)%Q
           | _, _ => None
           end) (Some (e_constant e)) (e_terms e).

(** [v > c] where [v] is a [pl.value(...)]: comparing [None] with a float
    raises. *)
Definition value_gt (v : option Q) (c : Q) : result bool :=
  match v with
  | Some q => Ok (Qltb c q)
  | None => Raise TypeError
  end.

(** [v.roundedValue()] for an integer variable: a value within [1e-5] of
    an integer is reported as that integer. *)
Definition roundedValue (v : option Q) : option Q :=
  match v with
  | Some q =>
      let r := inject_Z (round_half_even q) in
      if Qle_bool (Qabs (q - r)) (1 # 100000) then Some r else Some q
  | None => None
  end.

(** [bool(v)] for a variable [v] is [bool(v.roundedValue())]: false for
    [None] and for 0. *)
Definition var_bool (v : option Q) : bool :=
  match roundedValue v with
  | Some q => negb (Qeq_bool q 0)
  | None => false
  end.

(** [pl.value(v or 0.0)] for a variable [v]: the float [0.0] is its own
    value. *)
Definition value_or_zero (v : option Q) : option Q :=
  if var_bool v then v else Some 0%Q.

(** [int(b)]. *)
Definition int_of_bool (b : bool) : Z := if b then 1%Z else 0%Z.

(** [u or 0.0] for a number [u]. *)
Definition or_zero (u : Q) : Q := if Qeq_bool u 0 then 0%Q else u.

(** [a / b] on floats. *)
Definition truediv (a b : Q) : result Q :=
  if Qeq_bool b 0 then Raise ZeroDivisionError else Ok (a / b)%Q.

(** *** Output files *)

(** Rows of [selected_stories.csv], [assignments.csv] and
    [person_utilization.csv] (the header rows are left implicit). *)
Record sel_row := {
  sel_story_id : string;
  sel_points : Z;
  sel_value : Q;
  sel_owner : option string
}.

Record assign_row := {
  as_person : string;
  as_role : string;
  as_story_id : string;
  as_hours : Q
}.

Record util_row := {
  u_person : string;
  u_role : string;
  u_hours_used : Q;
  u_capacity : Q;
  u_utilization : Q;
  u_active : Z;
  u_release : Z
}.

(** Lines of [summary.txt]; numbers are kept as numbers, not as their
    formatted text. *)
Inductive summary_line :=
| SumStatus (status : string)
| SumObjective (obj : Q)
| SumDeliveredValue (val_total : Q)
| SumActivePeople (n : nat)
| SumStoriesSelected (k n : nat)
| SumDependencies (n : nat)
| SumParametersHeader
| SumParamQ (name : string) (v : Q)
| SumParamZ (name : string) (v : Z).

(** The [results] directory: [None] for a file that was never opened. *)
Record files := {
  selected_stories_csv : option (list sel_row);
  assignments_csv : option (list assign_row);
  person_utilization_csv : option (list util_row);
  summary_txt : option (list summary_line)
}.

Definition no_files : files :=
  {| selected_stories_csv := None; assignments_csv := None;
     person_utilization_csv := None; summary_txt := None |}.

(** Statements that write files and may raise: the files written so far
    survive an exception. *)
Definition prog (A : Type) : Type := files -> files * result A.

Definition pret {A} (a : A) : prog A := fun fs => (fs, Ok a).

Definition pbind {A B} (c : prog A) (k : A -> prog B) : prog B :=
  fun fs =>
    match c fs with
    | (fs', Ok a) => k a fs'
    | (fs', Raise e) => (fs', Raise e)
    end.

Definition lift {A} (r : result A) : prog A := fun fs => (fs, r).

Notation "'do' x '<-' c1 ';' c2" := (pbind c1 (fun x => c2))
  (at level 10, x name, c1 at level 100, c2 at level 200).
Notation "c1 '>>' c2" := (pbind c1 (fun _ => c2))
  (at level 60, right associativity).

Definition write_selected (rows : list sel_row) : prog unit :=
  fun fs => ({| selected_stories_csv := Some rows;
                assignments_csv := assignments_csv fs;
                person_utilization_csv := person_utilization_csv fs;
                summary_txt := summary_txt fs |}, Ok tt).

Definition write_assignments (rows : list assign_row) : prog unit :=
  fun fs => ({| selected_stories_csv := selected_stories_csv fs;
                assignments_csv := Some rows;
                person_utilization_csv := person_utilization_csv fs;
                summary_txt := summary_txt fs |}, Ok tt).

Definition write_utilization (rows : list util_row) : prog unit :=
  fun fs => ({| selected_stories_csv := selected_stories_csv fs;
                assignments_csv := assignments_csv fs;
                person_utilization_csv := Some rows;
                summary_txt := summary_txt fs |}, Ok tt).

(** [open(summary.txt, "w")] and [f.write(line)]. *)
Definition open_summary : prog unit :=
  fun fs => ({| selected_stories_csv := selected_stories_csv fs;
                assignments_csv := assignments_csv fs;
                person_utilization_csv := person_utilization_csv fs;
                summary_txt := Some [] |}, Ok tt).

Definition f_write (line : summary_line) : prog unit :=
  fun fs => ({| selected_stories_csv := selected_stories_csv fs;
                assignments_csv := assignments_csv fs;
                person_utilization_csv := person_utilization_csv fs;
                summary_txt := Some (default [] (summary_txt fs) ++ [line]) |}, Ok tt).

(** ** Sample data *)

(** Two people, two role records, and four stories of which [s2] has a
    forbidden number of points; [s3] depends on [s1] and [s4] on [s2]. *)
Definition ex_people : list person_row :=
  [ {| p_person := "ana"; p_role := "BE"; p_capacity_hours := 40 |};
    {| p_person := "bob"; p_role := "QA"; p_capacity_hours := 30 |} ].

Definition ex_s1 : story_row :=
  {| s_story_id := "s1"; s_points := 3; s_value := 10; s_depends_on := None |}.
Definition ex_s2 : story_row :=
  {| s_story_id := "s2"; s_points := 13; s_value := 20; s_depends_on := Some "s1" |}.
Definition ex_s3 : story_row :=
  {| s_story_id := "s3"; s_points := 5; s_value := 7; s_depends_on := Some " s1 " |}.
Definition ex_s4 : story_row :=
  {| s_story_id := "s4"; s_points := 2; s_value := 4; s_depends_on := Some "s2" |}.

Definition ex_stories : list story_row := [ex_s1; ex_s2; ex_s3; ex_s4].

Definition ex_role_BE : role_row :=
  {| r_role := "BE"; r_share_of_hours := 1 # 2;
     r_meeting_load_per_story_hours := 0; r_bug_hours_per_bug := 2 |}.

Definition ex_role_QA : role_row :=
  {| r_role := "QA"; r_share_of_hours := 1 # 4;
     r_meeting_load_per_story_hours := 1; r_bug_hours_per_bug := 1 |}.

Definition ex_roles : list role_row := [ex_role_BE; ex_role_QA].

Definition ex_cfg : config :=
  {| cfg_hours_per_point := 4;
     cfg_bugs_per_sprint := 3;
     cfg_max_points_per_dev := 13;
     cfg_lambda_people_penalty := 1 # 10;
     cfg_require_release_for_roles := ["BE"; "FE"];
     cfg_min_hours_to_count_release := 1;
     cfg_qa_coverage_factor := 11 # 10;
     cfg_wip_factor_QA_capacity := 8 # 10;
     cfg_forbid_points := [13%Z] |}.

(** A plan for the sample data: the three eligible stories are selected,
    [ana] owns them, and each role spends exactly the required hours. *)
Definition ex_plan : assignment := fun v =>
  match v with
  | var_z s => if bool_decide (s ∈ ["s1"; "s3"; "s4"]) then 1%Q else 0%Q
  | var_y i => if bool_decide (i ∈ ["ana"; "bob"]) then 1%Q else 0%Q
  | var_rel i => if bool_decide (i = "ana") then 1%Q else 0%Q
  | var_owner i s =>
      if bool_decide (i = "ana" /\ s ∈ ["s1"; "s3"; "s4"]) then 1%Q else 0%Q
  | var_x i s =>
      if bool_decide (i = "ana") then
        if bool_decide (s = "s1") then 6%Q
        else if bool_decide (s = "s3") then 10%Q
        else if bool_decide (s = "s4") then 4%Q
        else 0%Q
      else if bool_decide (i = "bob") then
        if bool_decide (s = "s1") then (43 # 10)%Q
        else if bool_decide (s = "s3") then (65 # 10)%Q
        else if bool_decide (s = "s4") then (32 # 10)%Q
        else 0%Q
      else 0%Q
  end.

(** The roster with the capacity of its only QA person set to 0. *)
Definition ex_people_QA0 : list person_row :=
  [ {| p_person := "ana"; p_role := "BE"; p_capacity_hours := 40 |};
    {| p_person := "bob"; p_role := "QA"; p_capacity_hours := 0 |} ].

(** The same roster with one more BE person, of capacity 0. *)
Definition ex_people_zero : list person_row :=
  ex_people ++ [ {| p_person := "cam"; p_role := "BE"; p_capacity_hours := 0 |} ].

(** Solver answers.  [answer st vals] is what the solver leaves for the
    problem it was given: status [st], the value [vals v] for every
    variable [v] of the problem, and no value for any other variable.
    [sol_of_plan a] gives every variable a value, also those the problem
    does not mention. *)
Definition answer (st : LpStatusCode) (vals : assignment) (pm : LpProblem) : solution :=
  {| sol_status := st;
     varValue := fun v => if bool_decide (v ∈ problem_vars pm) then Some (vals v) else None |}.

Definition sol_of_plan (a : assignment) : solution :=
  {| sol_status := LpStatusOptimal; varValue := fun v => Some (a v) |}.

Definition sol_of_plan_on (a : assignment) (pm : LpProblem) : solution :=
  answer LpStatusOptimal a pm.

(** [CFG] with another [require_release_for_roles]. *)
Definition with_require_release (c : config) (roles : list string) : config :=
  {| cfg_hours_per_point := cfg_hours_per_point c;
     cfg_bugs_per_sprint := cfg_bugs_per_sprint c;
     cfg_max_points_per_dev := cfg_max_points_per_dev c;
     cfg_lambda_people_penalty := cfg_lambda_people_penalty c;
     cfg_require_release_for_roles := roles;
     cfg_min_hours_to_count_release := cfg_min_hours_to_count_release c;
     cfg_qa_coverage_factor := cfg_qa_coverage_factor c;
     cfg_wip_factor_QA_capacity := cfg_wip_factor_QA_capacity c;
     cfg_forbid_points := cfg_forbid_points c |}.

(** Further sample inputs: a TL record while nobody is TL, a bug count
    that exceeds the BE capacity, and two stories that depend on each
    other. *)
Definition ex_role_TL : role_row :=
  {| r_role := "TL"; r_share_of_hours := 1 # 10;
     r_meeting_load_per_story_hours := 0; r_bug_hours_per_bug := 0 |}.

Definition ex_roles_TL : list role_row := ex_roles ++ [ex_role_TL].

Definition ex_cfg_bugs : config :=
  {| cfg_hours_per_point := 4;
     cfg_bugs_per_sprint := 30;
     cfg_max_points_per_dev := 13;
     cfg_lambda_people_penalty := 1 # 10;
     cfg_require_release_for_roles := ["BE"; "FE"];
     cfg_min_hours_to_count_release := 1;
     cfg_qa_coverage_factor := 11 # 10;
     cfg_wip_factor_QA_capacity := 8 # 10;
     cfg_forbid_points := [13%Z] |}.

Definition ex_stories_cycle : list story_row :=
  [ {| s_story_id := "s1"; s_points := 3; s_value := 10; s_depends_on := Some "s3" |};
    {| s_story_id := "s3"; s_points := 5; s_value := 7; s_depends_on := Some "s1" |} ].

(** Stories without value and a configuration without people penalty: the
    objective has no term. *)
Definition ex_stories_free : list story_row :=
  [ {| s_story_id := "s1"; s_points := 3; s_value := 0; s_depends_on := None |} ].

Definition ex_cfg_free : config :=
  {| cfg_hours_per_point := 4;
     cfg_bugs_per_sprint := 3;
     cfg_max_points_per_dev := 13;
     cfg_lambda_people_penalty := 0;
     cfg_require_release_for_roles := ["BE"; "FE"];
     cfg_min_hours_to_count_release := 1;
     cfg_qa_coverage_factor := 11 # 10;
     cfg_wip_factor_QA_capacity := 8 # 10;
     cfg_forbid_points := [13%Z] |}.

(** Distinct identifiers that give two constraints the same name:
    [OwnerHours_ana_x_1] is both that of [ana] on [x_1] and that of
    [ana_x] on [1]. *)
Definition ex_people_overlap : list person_row :=
  [ {| p_person := "ana"; p_role := "BE"; p_capacity_hours := 40 |};
    {| p_person := "ana_x"; p_role := "BE"; p_capacity_hours := 40 |} ].

Definition ex_stories_overlap : list story_row :=
  [ {| s_story_id := "x_1"; s_points := 1; s_value := 1; s_depends_on := None |};
    {| s_story_id := "1"; s_points := 1; s_value := 1; s_depends_on := None |} ].

(** A [depends_on] cell with a no-break space (U+00A0) before and an
    ideographic space (U+3000) after the identifier. *)
Definition ex_cell_unicode : string :=
  String (ascii_of_nat 194) (String (ascii_of_nat 160)
    ("s1" +:+ String (ascii_of_nat 227) (String (ascii_of_nat 128)
                (String (ascii_of_nat 128) EmptyString)))).

(** ** The script *)

Section SolveSprint.

Variable people_rows : list person_row.
Variable story_rows : list story_row.
Variable role_rows : list role_row.
Variable CFG : config.

(** *** Configuration scalars (lines 38-46) *)

Definition hours_per_point : Q := cfg_hours_per_point CFG.
Definition bugs_per_sprint : Z := cfg_bugs_per_sprint CFG.
Definition max_points_per_dev : Z := cfg_max_points_per_dev CFG.
Definition lambda_people : Q := cfg_lambda_people_penalty CFG.
Definition require_release_roles : gset string :=
  list_to_set (cfg_require_release_for_roles CFG).
Definition theta_release_hours : Q := cfg_min_hours_to_count_release CFG.
Definition qa_cov_factor : Q := cfg_qa_coverage_factor CFG.
Definition wip_factor_QA : Q := cfg_wip_factor_QA_capacity CFG.
Definition forbid_points : gset Z := list_to_set (cfg_forbid_points CFG).

(** *** People (lines 48-53) *)

(** [I] and [S] of the script are written [I_] and [S_]: the plain names are
    the constructors of [True] and [nat]. *)
Definition I_ : list string := map p_person people_rows.

Definition role_of : gmap string string :=
  dict_of (map (fun p => (p_person p, p_role p)) people_rows).

Definition cap_i : gmap string Q :=
  dict_of (map (fun p => (p_person p, p_capacity_hours p)) people_rows).

(** [I_by_role[role_of[i]].append(i)] for each [i] of [I_]; this is the
    dictionary as it stands after line 53. *)
Definition I_by_role_append (d : gmap string (list string)) (i : string)
  : gmap string (list string) :=
  let r := role_of !!! i in
  let '(l, d') := defaultdict_getitem d r in
  <[r := l ++ [i]]> d'.

Definition I_by_role_53 : gmap string (list string) :=
  foldl I_by_role_append ∅ I_.

(** *** Stories (lines 55-67) *)

Definition eligible (s : story_row) : bool :=
  negb (bool_decide (s_points s ∈ forbid_points)).

Definition S_all : list string := map s_story_id story_rows.

Definition S_ : list string := map s_story_id (filter (fun s => eligible s = true) story_rows).

Definition points : gmap string Z :=
  dict_of (map (fun s => (s_story_id s, s_points s))
               (filter (fun s => eligible s = true) story_rows)).

Definition value : gmap string Q :=
  dict_of (map (fun s => (s_story_id s, s_value s))
               (filter (fun s => eligible s = true) story_rows)).

(** One iteration of the loop of lines 61-67. *)
Definition deps_step (deps : list (string * string)) (s : story_row)
  : list (string * string) :=
  let sid := s_story_id s in
  if bool_decide (s_points s ∈ forbid_points) then deps
  else
    let dep := strip (default "" (s_depends_on s)) in
    if bool_decide (dep = "") then deps else deps ++ [(sid, dep)].

Definition deps : list (string * string) := foldl deps_step [] story_rows.

(** *** Roles (lines 69-72) *)

Definition R : list string := map r_role role_rows.

Definition role_share : gmap string Q :=
  dict_of (map (fun r => (r_role r, r_share_of_hours r)) role_rows).

Definition mtg_per_story : gmap string Q :=
  dict_of (map (fun r => (r_role r, r_meeting_load_per_story_hours r)) role_rows).

Definition bug_hours_per_bug : gmap string Q :=
  dict_of (map (fun r => (r_role r, r_bug_hours_per_bug r)) role_rows).

(** *** Required hours per story and role (lines 74-87) *)

Definition hrs_tot : gmap string Q :=
  dict_of (map (fun s => (s, (inject_Z (points !!! s) * hours_per_point)%Q)) S_).

(** The dictionary after the five statements of lines 76-80. *)
Definition req_80 : gmap (string * string) Q :=
  let req := dict_of
    (map (fun s => ((s, "BE"), (dict_get role_share "BE" 0 * (hrs_tot !!! s))%Q)) S_) in
  let req := dict_update req
    (map (fun s => ((s, "FE"), (dict_get role_share "FE" 0 * (hrs_tot !!! s))%Q)) S_) in
  let req := dict_update req
    (map (fun s => ((s, "QA"),
       (dict_get role_share "QA" 0 * (hrs_tot !!! s) * qa_cov_factor)%Q)) S_) in
  let req := dict_update req
    (map (fun s => ((s, "TL"), (dict_get role_share "TL" 0 * (hrs_tot !!! s))%Q)) S_) in
  dict_update req
    (map (fun s => ((s, "ARQ"), (dict_get role_share "ARQ" 0 * (hrs_tot !!! s))%Q)) S_).

(** Body of the inner loop of lines 84-87. *)
Definition add_meeting_load (s : string) (req : gmap (string * string) Q) (r : string)
  : gmap (string * string) Q :=
  let extra := dict_get mtg_per_story r 0%Q in
  if Qltb 0 extra then <[(s, r) := ((req !!! (s, r)) + extra)%Q]> req else req.

Definition req : gmap (string * string) Q :=
  foldl (fun req s => foldl (add_meeting_load s) req ["QA"; "TL"]) req_80 S_.

(** *** Role capacities (lines 89-94) *)

(** One item of the comprehension of line 90.  [I_by_role[r]] is a
    subscript on a [defaultdict], so it also adds [r] to [I_by_role]. *)
Definition role_cap_step (st : gmap string Q * gmap string (list string)) (r : string)
  : gmap string Q * gmap string (list string) :=
  let '(l, d') := defaultdict_getitem st.2 r in
  (<[r := py_sum (map (fun i => cap_i !!! i) l)]> st.1, d').

Definition role_cap : gmap string Q :=
  (foldl role_cap_step (∅, I_by_role_53) R).1.

(** [I_by_role] as every later statement sees it. *)
Definition I_by_role : gmap string (list string) :=
  (foldl role_cap_step (∅, I_by_role_53) R).2.

Definition role_bug_reserve : gmap string Q :=
  dict_of (map (fun r =>
    (r, (inject_Z bugs_per_sprint * dict_get bug_hours_per_bug r 0)%Q)) R).

Definition role_cap_eff_92 : gmap string Q :=
  dict_of (map (fun r =>
    (r, (dict_get role_cap r 0 - dict_get role_bug_reserve r 0)%Q)) R).

Definition role_cap_eff : gmap string Q :=
  <["QA" := py_min (dict_get role_cap_eff_92 "QA" 0%Q)
                   (dict_get role_cap "QA" 0 * wip_factor_QA)%Q]> role_cap_eff_92.


(** *** Decision variables (lines 100-104) *)

Definition LpVariable_dicts (mk : LpVariable) (lo up : option Q) (cat : LpCategory)
  : LpVarDecl :=
  {| d_var := mk; d_lowBound := lo; d_upBound := up; d_cat := cat |}.

(** [[(i,s) for i in I for s in S]]. *)
Definition pairs_I_S : list (string * string) :=
  flat_map (fun i => map (fun s => (i, s)) S_) I_.

Definition x : list LpVarDecl :=
  map (fun k => LpVariable_dicts (var_x k.1 k.2) (Some 0%Q) None LpContinuous) pairs_I_S.
Definition z : list LpVarDecl :=
  map (fun s => LpVariable_dicts (var_z s) (Some 0%Q) (Some 1%Q) LpBinary) S_.
Definition y : list LpVarDecl :=
  map (fun i => LpVariable_dicts (var_y i) (Some 0%Q) (Some 1%Q) LpBinary) I_.
Definition owner : list LpVarDecl :=
  map (fun k => LpVariable_dicts (var_owner k.1 k.2) (Some 0%Q) (Some 1%Q) LpBinary) pairs_I_S.
Definition rel : list LpVarDecl :=
  map (fun i => LpVariable_dicts (var_rel i) (Some 0%Q) (Some 1%Q) LpBinary) I_.

(** Every variable the script creates. *)
Definition variables : list LpVarDecl := x ++ z ++ y ++ owner ++ rel.

(** *** Objective (line 107) *)

Definition objective_expr : LpAffineExpression :=
  expr_sub
    (lpSum (map (fun s => expr_scale (value !!! s) (expr_var (var_z s))) S_))
    (expr_scale lambda_people (lpSum (map (fun i => expr_var (var_y i)) I_))).

(** *** Constraints (lines 109-145) *)

(** The pair [lhs <sense> rhs, name] of a statement [m += ..., name]; the
    constraint takes the name as PuLP translates it. *)
Definition named (name : string) (lhs : LpAffineExpression) (sense : LpSense)
    (rhs : LpAffineExpression) : string * LpConstraint :=
  (translate name, {| c_lhs := lhs; c_sense := sense; c_rhs := rhs |}).

Fixpoint foldM {A B} (f : B -> A -> result B) (acc : B) (l : list A) : result B :=
  match l with
  | [] => Ok acc
  | a :: l' => let* acc' := f acc a in foldM f acc' l'
  end.

(** [m += c, name]: PuLP raises [PulpError] when [m.constraints] already
    has a constraint of that name. *)
Definition add_constraint (pm : LpProblem) (nc : string * LpConstraint)
  : result LpProblem :=
  if bool_decide (nc.1 ∈ map fst (constraints pm)) then Raise PulpError
  else Ok {| objective := objective pm; constraints := constraints pm ++ [nc] |}.

(** The literal tuple [("BE","FE","QA","TL","ARQ")]. *)
Definition ROLES : list string := ["BE"; "FE"; "QA"; "TL"; "ARQ"].

Definition Cap_constraints : list (string * LpConstraint) :=
  map (fun i =>
    named ("Cap_" +:+ i)
      (lpSum (map (fun s => expr_var (var_x i s)) S_))
      LpLE
      (expr_scale (cap_i !!! i) (expr_var (var_y i)))) I_.

Definition Req_constraints : list (string * LpConstraint) :=
  flat_map (fun s =>
    flat_map (fun r =>
      if dict_mem I_by_role r then
        [named ("Req_" +:+ r +:+ "_" +:+ s)
           (lpSum (map (fun i => expr_var (var_x i s)) (I_by_role !!! r)))
           LpGE
           (expr_scale (req !!! (s, r)) (expr_var (var_z s)))]
      else []) ROLES) S_.

(** Lines 120-122.  [role_cap_eff[r]] is a plain subscript: it raises for a
    role that has an entry in [I_by_role] but none in [role_cap_eff]. *)
Definition add_RoleCap (pm : LpProblem) (r : string) : result LpProblem :=
  if dict_mem I_by_role r then
    let lhs := lpSum (flat_map (fun s =>
                 map (fun i => expr_var (var_x i s)) (I_by_role !!! r)) S_) in
    let* c := subscript role_cap_eff r in
    add_constraint pm (named ("RoleCap_" +:+ r) lhs LpLE (expr_const c))
  else Ok pm.

Definition devs : list string :=
  filter (fun i => (role_of !!! i) ∈ ["BE"; "FE"]) I_.

Definition Owner_constraints : list (string * LpConstraint) :=
  flat_map (fun s =>
    named ("OwnerOne_" +:+ s)
      (lpSum (map (fun i => expr_var (var_owner i s)) devs))
      LpEQ
      (expr_var (var_z s))
    :: map (fun i =>
         named ("OwnerHours_" +:+ i +:+ "_" +:+ s)
           (lpSum [expr_var (var_x i s)])
           LpGE
           (expr_scale theta_release_hours (expr_var (var_owner i s)))) devs) S_.

Definition PointsCap_constraints : list (string * LpConstraint) :=
  map (fun i =>
    named ("PointsCap_" +:+ i)
      (lpSum (map (fun s =>
         expr_scale (inject_Z (points !!! s)) (expr_var (var_owner i s))) S_))
      LpLE
      (expr_const (inject_Z max_points_per_dev))) devs.

Definition Rel_constraints : list (string * LpConstraint) :=
  flat_map (fun i =>
    [named ("RelLink_" +:+ i)
       (expr_var (var_rel i))
       LpLE
       (lpSum (map (fun s => expr_var (var_owner i s)) S_));
     named ("RelActive_" +:+ i)
       (expr_var (var_rel i))
       LpGE
       (expr_var (var_y i))]) devs.

Definition Dep_constraints : list (string * LpConstraint) :=
  flat_map (fun sp : string * string =>
    if bool_decide (sp.2 ∈ S_) then
      [named ("Dep_" +:+ sp.1 +:+ "_on_" +:+ sp.2)
         (expr_var (var_z sp.1)) LpLE (expr_var (var_z sp.2))]
    else []) deps.

(** The problem handed to the solver, or the exception that stops the script
    before line 147: the statements [m += ...] in the order of lines
    107-145. *)
Definition m : result LpProblem :=
  let pm := {| objective := objective_expr; constraints := [] |} in
  let* pm := foldM add_constraint pm Cap_constraints in
  let* pm := foldM add_constraint pm Req_constraints in
  let* pm := foldM add_RoleCap pm ROLES in
  let* pm := foldM add_constraint pm Owner_constraints in
  let* pm := foldM add_constraint pm PointsCap_constraints in
  let* pm := foldM add_constraint pm Rel_constraints in
  foldM add_constraint pm Dep_constraints.


(** *** Result extraction (lines 151-212) *)

Section Extraction.

Variable sol : solution.

Definition status : string := LpStatus (sol_status sol).

(** Line 152.  For an objective without terms, [solve] adds the variable
    [__dummy] to it while the problem is written out and subtracts it
    afterwards, which leaves the term [0 * __dummy]; that variable never
    gets a value, so [pl.value(m.objective)] is [None]. *)
Definition obj : option Q :=
  if isNumericalConstant objective_expr then None
  else expr_value (varValue sol) objective_expr.

(** Lines 160-164: the first developer whose owner variable exceeds 0.5. *)
Fixpoint find_owner (s : string) (ds : list string) : result (option string) :=
  match ds with
  | [] => Ok None
  | i :: ds' =>
      let* b := value_gt (varValue sol (var_owner i s)) (1 # 2) in
      if b then Ok (Some i) else find_owner s ds'
  end.

Definition sel_step (acc : list sel_row) (s : string) : result (list sel_row) :=
  let* b := value_gt (varValue sol (var_z s)) (1 # 2) in
  if b then
    let* owner_i := find_owner s devs in
    Ok (acc ++ [{| sel_story_id := s; sel_points := points !!! s;
                   sel_value := value !!! s; sel_owner := owner_i |}])
  else Ok acc.

Definition sel : result (list sel_row) := foldM sel_step [] S_.

(** Lines 173-178; [hrs and hrs > 1e-4] is false for [None] and for zero. *)
Definition assign_rows : list assign_row :=
  flat_map (fun i =>
    flat_map (fun s =>
      match varValue sol (var_x i s) with
      | Some hrs =>
          if negb (Qeq_bool hrs 0) && Qltb (1 # 10000) hrs then
            [{| as_person := i; as_role := role_of !!! i; as_story_id := s;
                as_hours := py_round hrs 2 |}]
          else []
      | None => []
      end) S_) I_.

(** Line 187: [sum(pl.value(x[(i,s)]) for s in S)]; adding [None] raises. *)
Definition used_of (i : string) : result Q :=
  foldM (fun acc s =>
           match varValue sol (var_x i s) with
           | Some v => Ok (acc + v)%Q
           | None => Raise TypeError
           end) 0%Q S_.

(** Line 188, column by column.  In the last column [rel[i] or 0.0] is the
    variable when its value is neither [None] nor 0, and [0.0] otherwise. *)
Definition util_step (acc : list util_row) (i : string) : result (list util_row) :=
  let* used := used_of i in
  let hours_used := py_round (or_zero used) 2 in
  let capacity := cap_i !!! i in
  let* ratio := truediv (or_zero used) (cap_i !!! i) in
  let utilization := py_round ratio 3 in
  let* active := value_gt (varValue sol (var_y i)) (1 # 2) in
  let* release := value_gt (value_or_zero (varValue sol (var_rel i))) (1 # 2) in
  Ok (acc ++ [{| u_person := i; u_role := role_of !!! i;
                 u_hours_used := hours_used; u_capacity := capacity;
                 u_utilization := utilization;
                 u_active := int_of_bool active;
                 u_release := int_of_bool release |}]).

Definition util : result (list util_row) := foldM util_step [] I_.

(** [f"{obj:.3f}"] and [round(obj,3)]: neither accepts [None]. *)
Definition format_obj : result Q :=
  match obj with
  | Some q => Ok q
  | None => Raise TypeError
  end.

(** Line 198. *)
Definition val_total : result Q :=
  foldM (fun acc s =>
           let* b := value_gt (varValue sol (var_z s)) (1 # 2) in
           Ok (if b then (acc + (value !!! s))%Q else acc)) 0%Q S_.

(** Line 199. *)
Definition active_people : result nat :=
  foldM (fun acc i =>
           let* b := value_gt (varValue sol (var_y i)) (1 # 2) in
           Ok (if b then (acc + 1)%nat else acc)) 0%nat I_.

(** Lines 195-210. *)
Definition write_summary (n_sel : nat) : prog unit :=
  open_summary >>
  f_write (SumStatus status) >>
  do o <- lift format_obj;
  f_write (SumObjective o) >>
  do vt <- lift val_total;
  do ap <- lift active_people;
  f_write (SumDeliveredValue vt) >>
  f_write (SumActivePeople ap) >>
  f_write (SumStoriesSelected n_sel (length S_)) >>
  f_write (SumDependencies (length deps)) >>
  f_write SumParametersHeader >>
  f_write (SumParamQ "hours_per_point" hours_per_point) >>
  f_write (SumParamQ "lambda_people_penalty" lambda_people) >>
  f_write (SumParamZ "bugs_per_sprint" bugs_per_sprint) >>
  f_write (SumParamZ "max_points_per_dev" max_points_per_dev) >>
  f_write (SumParamQ "qa_coverage_factor" qa_cov_factor) >>
  f_write (SumParamQ "wip_factor_QA_capacity" wip_factor_QA).

(** Everything after the solve: the three views, the summary and the final
    [print]. *)
Definition outputs : prog unit :=
  do rows <- lift sel;
  write_selected rows >>
  write_assignments assign_rows >>
  do urows <- lift util;
  write_utilization urows >>
  write_summary (length rows) >>
  do _o <- lift format_obj;
  pret tt.

End Extraction.

(** The whole script, for a solver that answers [solve pm] on problem [pm]:
    the files left in [results] and the outcome. *)
Definition main (solve : LpProblem -> solution) : files * result unit :=
  match m with
  | Ok pm => outputs (solve pm) no_files
  | Raise e => (no_files, Raise e)
  end.


(** *** Quantities the properties are stated with *)

(** [role_share.get(r, 0.0)] and [mtg_per_story.get(r, 0.0)]: the share and
    the meeting load of a role, [0] for a role without a record. *)
Definition share_of_hours (r : string) : Q := dict_get role_share r 0%Q.
Definition meeting_load (r : string) : Q := dict_get mtg_per_story r 0%Q.

(** Required hours of role [r] for a story of [pts] points, from the share
    and the meeting load of the role's record. *)
Definition required_hours (pts : Z) (r : string) (share mtg : Q) : Q :=
  let base := (inject_Z pts * hours_per_point * share)%Q in
  let scaled := if bool_decide (r = "QA") then (base * qa_cov_factor)%Q else base in
  if bool_decide (r ∈ ["QA"; "TL"]) && Qltb 0 mtg then (scaled + mtg)%Q else scaled.

(** The entries of [req] before the meeting load is added. *)
Definition req_base (s r : string) : Q :=
  if bool_decide (r = "QA")
  then (share_of_hours r * (hrs_tot !!! s) * qa_cov_factor)%Q
  else (share_of_hours r * (hrs_tot !!! s))%Q.

(** The loop of lines 83-87 over a list [l] of stories. *)
Definition meeting_loop (d : gmap (string * string) Q) (l : list string)
  : gmap (string * string) Q :=
  foldl (fun req s => foldl (add_meeting_load s) req ["QA"; "TL"]) d l.

(** The constraints of lines 120-122 by themselves, as long as no subscript
    fails. *)
Definition RoleCap_step (acc : list (string * LpConstraint)) (r : string)
  : result (list (string * LpConstraint)) :=
  if dict_mem I_by_role r then
    let lhs := lpSum (flat_map (fun s =>
                 map (fun i => expr_var (var_x i s)) (I_by_role !!! r)) S_) in
    let* c := subscript role_cap_eff r in
    Ok (acc ++ [named ("RoleCap_" +:+ r) lhs LpLE (expr_const c)])
  else Ok acc.

Definition RoleCap_constraints : result (list (string * LpConstraint)) :=
  foldM RoleCap_step [] ROLES.

(** Summed capacity of the people whose row names role [r]. *)
Definition raw_capacity (r : string) : Q :=
  py_sum (map p_capacity_hours (filter (fun p => p_role p = r) people_rows)).

(** The developers designated as owner of story [s], and the stories
    developer [d] owns, under an assignment. *)
Definition owners (a : assignment) (s : string) : list string :=
  filter (fun i => Qeq_bool (a (var_owner i s)) 1 = true) devs.

Definition owned (a : assignment) (d : string) : list string :=
  filter (fun s => Qeq_bool (a (var_owner d s)) 1 = true) S_.

(** Every variable a named constraint mentions satisfies [P]. *)
Definition vars_ok (P : LpVariable -> Prop) (nc : string * LpConstraint) : Prop :=
  Forall P (constraint_vars nc.2).

(** The reading of the owner-variable rule under which a variable exists as
    soon as the script creates it. *)
Definition owner_created_only_for_developers : Prop :=
  forall i s, var_owner i s ∈ map d_var variables -> role_of !!! i ∈ ["BE"; "FE"].

(** A statement that leaves the three view files as they are. *)
Definition keeps_views {A} (c : prog A) : Prop :=
  forall fs fs' r, c fs = (fs', r) ->
    selected_stories_csv fs' = selected_stories_csv fs /\
    assignments_csv fs' = assignments_csv fs /\
    person_utilization_csv fs' = person_utilization_csv fs.

(** The people [role_of] maps to role [r], in the order of [I]. *)
Definition people_of (r : string) : list string :=
  filter (fun i => role_of !!! i = r) I_.

(** The plan that selects nothing and spends no hours. *)
Definition zero_plan : assignment := fun _ => 0%Q.

(** Total points of the stories developer [d] owns under an assignment. *)
Definition points_owned (a : assignment) (d : string) : Z :=
  foldr (fun s acc => (points !!! s + acc)%Z) 0%Z (owned a d).

(** The constraint line 122 adds for role [r] when [role_cap_eff[r]] is [c]. *)
Definition RoleCap_constraint (r : string) (c : Q) : string * LpConstraint :=
  named ("RoleCap_" +:+ r)
    (lpSum (flat_map (fun s =>
       map (fun i => expr_var (var_x i s)) (I_by_role !!! r)) S_))
    LpLE (expr_const c).


(** [pl.value(z[s]) > 0.5] when the value is there. *)
Definition chosen (sol : solution) (s : string) : bool :=
  match varValue sol (var_z s) with
  | Some q => Qltb (1 # 2) q
  | None => false
  end.

(** A statement that keeps a property of the files, whether it raises or
    not. *)
Definition preserves {A} (P : files -> Prop) (c : prog A) : Prop :=
  forall fs fs' r, P fs -> c fs = (fs', r) -> P fs'.

(** What the solver leaves behind for problem [pm]: a value for every
    variable of the objective or of a constraint. *)
Definition valued (pm : LpProblem) (sol : solution) : Prop :=
  forall v, v ∈ problem_vars pm -> is_Some (varValue sol v).

(** The answer reports assignment [a]: its value for every variable of the
    problem, and none for a variable the problem does not mention, which
    the solver never sees. *)
Definition reports (pm : LpProblem) (sol : solution) (a : assignment) : Prop :=
  forall v, varValue sol v
            = if bool_decide (v ∈ problem_vars pm) then Some (a v) else None.

(** The names under which the statements of lines 109-145 add their
    constraints, in that order. *)
Definition RoleCap_names (l : list string) : list string :=
  map (fun r => translate ("RoleCap_" +:+ r))
      (filter (fun r => dict_mem I_by_role r = true) l).

Definition constraint_names : list string :=
  map fst (Cap_constraints ++ Req_constraints)
  ++ RoleCap_names ROLES
  ++ map fst (Owner_constraints ++ PointsCap_constraints
              ++ Rel_constraints ++ Dep_constraints).

(** The objective has a term: a story of non-zero value, or a person while
    the people penalty is not zero. *)
Definition objective_has_term : Prop :=
  (exists s, s ∈ S_ /\ ~ (value !!! s == 0)%Q) \/
  (~ (lambda_people == 0)%Q /\ I_ <> []).

(** A byte sequence that consists of white-space characters only. *)
Inductive white : list ascii -> Prop :=
| white_nil : white []
| white_1 a l : space1 a = true -> white l -> white (a :: l)
| white_2 a b l : space2 a b = true -> white l -> white (a :: b :: l)
| white_3 a b c l : space3 a b c = true -> white l -> white (a :: b :: c :: l).

(** A [depends_on] cell that is missing, empty or white space. *)
Definition blank (st : story_row) : Prop :=
  white (list_ascii_of_string (default "" (s_depends_on st))).

(** ** Properties *)

(** *** Dictionaries *)

Lemma dict_update_snoc `{Countable K} {V} (d : gmap K V) kvs kv :
  dict_update d (kvs ++ [kv]) = <[kv.1 := kv.2]> (dict_update d kvs).
Proof. unfold dict_update. by rewrite foldl_app. Qed.

Lemma dict_update_lookup_ne `{Countable K} {V} (d : gmap K V) kvs k :
  (forall kv, kv ∈ kvs -> kv.1 <> k) ->
  dict_update d kvs !! k = d !! k.
Proof.
  induction kvs as [|kv kvs IH] using rev_ind; intros Hne; [done|].
  rewrite dict_update_snoc, lookup_insert_ne.
  - apply IH. intros kv' Hin. apply Hne. apply elem_of_app. by left.
  - apply Hne. apply elem_of_app. right. by apply list_elem_of_singleton.
Qed.

(** A comprehension whose value is a function of its key. *)
Lemma dict_update_lookup_map `{Countable K} {V A} (key : A -> K) (val : A -> V)
    (d : gmap K V) (l : list A) (a : A) :
  (forall b, key b = key a -> val b = val a) ->
  a ∈ l ->
  dict_update d (map (fun b => (key b, val b)) l) !! key a = Some (val a).
Proof.
  intros Hval. induction l as [|b l IH] using rev_ind; intros Hin.
  - by apply elem_of_nil in Hin.
  - rewrite map_app. simpl. rewrite dict_update_snoc. simpl.
    destruct (decide (key b = key a)) as [Heq|Hne].
    + rewrite Heq, lookup_insert_eq. f_equal. by apply Hval.
    + rewrite lookup_insert_ne by done. apply IH.
      apply elem_of_app in Hin as [Hin|Hin]; [done|].
      apply list_elem_of_singleton in Hin. by subst.
Qed.

Lemma dict_update_lookup_map_ne `{Countable K} {V A} (key : A -> K) (val : A -> V)
    (d : gmap K V) (l : list A) (k : K) :
  (forall b, b ∈ l -> key b <> k) ->
  dict_update d (map (fun b => (key b, val b)) l) !! k = d !! k.
Proof.
  intros Hne. apply dict_update_lookup_ne.
  intros kv Hin. apply list_elem_of_fmap in Hin as (b & -> & Hb). simpl. by apply Hne.
Qed.

(** With distinct keys, each row of a comprehension is found under its key. *)
Lemma dict_of_lookup_NoDup `{Countable K} {V A} (key : A -> K) (val : A -> V)
    (l : list A) (a : A) :
  NoDup (map key l) -> a ∈ l ->
  dict_of (map (fun b => (key b, val b)) l) !! key a = Some (val a).
Proof.
  unfold dict_of. induction l as [|b l IH] using rev_ind; intros Hnd Hin.
  - by apply elem_of_nil in Hin.
  - rewrite map_app in Hnd. simpl in Hnd.
    apply NoDup_app in Hnd as (Hnd & Hdisj & _).
    rewrite map_app. simpl. rewrite dict_update_snoc. simpl.
    apply elem_of_app in Hin as [Hin|Hin].
    + rewrite lookup_insert_ne; [by apply IH|].
      intros Heq. apply (Hdisj (key a)).
      * apply list_elem_of_fmap. by exists a.
      * rewrite <- Heq. by apply list_elem_of_singleton.
    + apply list_elem_of_singleton in Hin. subst. by rewrite lookup_insert_eq.
Qed.

Lemma dict_of_lookup_None `{Countable K} {V A} (key : A -> K) (val : A -> V)
    (l : list A) (k : K) :
  k ∉ map key l ->
  dict_of (map (fun b => (key b, val b)) l) !! k = None.
Proof.
  intros Hk. unfold dict_of. rewrite dict_update_lookup_map_ne; [done|].
  intros b Hb Heq. apply Hk. apply list_elem_of_fmap. by exists b.
Qed.

Lemma dict_of_lookup_is_Some `{Countable K} {V A} (key : A -> K) (val : A -> V)
    (l : list A) (k : K) :
  k ∈ map key l ->
  is_Some (dict_of (map (fun b => (key b, val b)) l) !! k).
Proof.
  unfold dict_of. induction l as [|b l IH] using rev_ind; intros Hin.
  - by apply elem_of_nil in Hin.
  - rewrite !map_app. simpl. rewrite dict_update_snoc. simpl.
    destruct (decide (key b = k)) as [->|Hne].
    + rewrite lookup_insert_eq. by eexists.
    + rewrite lookup_insert_ne by done. apply IH.
      rewrite map_app in Hin. apply elem_of_app in Hin as [Hin|Hin]; [done|].
      simpl in Hin. apply list_elem_of_singleton in Hin. by subst.
Qed.

Lemma dict_get_absent `{Countable K} {V A} (key : A -> K) (val : A -> V)
    (l : list A) (k : K) (dflt : V) :
  k ∉ map key l ->
  dict_get (dict_of (map (fun b => (key b, val b)) l)) k dflt = dflt.
Proof. intros Hk. unfold dict_get. by rewrite dict_of_lookup_None. Qed.

Lemma dict_get_row `{Countable K} {V A} (key : A -> K) (val : A -> V)
    (l : list A) (a : A) (dflt : V) :
  NoDup (map key l) -> a ∈ l ->
  dict_get (dict_of (map (fun b => (key b, val b)) l)) (key a) dflt = val a.
Proof. intros Hnd Hin. unfold dict_get. by rewrite dict_of_lookup_NoDup. Qed.

(** *** Required hours *)

Ltac by_elem_of := repeat first [apply list_elem_of_here | apply list_elem_of_further].

Lemma elem_of_S_ (s : string) :
  s ∈ S_ <-> exists st, st ∈ story_rows /\ eligible st = true /\ s_story_id st = s.
Proof.
  unfold S_. split.
  - intros Hin. apply list_elem_of_fmap in Hin as (st & -> & Hst).
    apply list_elem_of_filter in Hst as [He Hst]. by exists st.
  - intros (st & Hst & He & <-). apply list_elem_of_fmap. exists st. split; [done|].
    by apply list_elem_of_filter.
Qed.

Lemma points_row (st : story_row) :
  NoDup S_ -> st ∈ story_rows -> eligible st = true ->
  points !!! s_story_id st = s_points st.
Proof.
  intros Hnd Hin He. rewrite lookup_total_alt. unfold points.
  rewrite (dict_of_lookup_NoDup s_story_id s_points _ st Hnd); [done|].
  by apply list_elem_of_filter.
Qed.

Lemma hrs_tot_lookup (s : string) :
  s ∈ S_ -> hrs_tot !!! s = (inject_Z (points !!! s) * hours_per_point)%Q.
Proof.
  intros Hin. rewrite lookup_total_alt. unfold hrs_tot, dict_of.
  rewrite (dict_update_lookup_map (fun s => s)
             (fun s => (inject_Z (points !!! s) * hours_per_point)%Q)); try done.
  by intros b ->.
Qed.

Lemma req_80_lookup (s r : string) :
  s ∈ S_ -> r ∈ ROLES -> req_80 !! (s, r) = Some (req_base s r).
Proof.
  intros Hs Hr. unfold req_80, dict_of, req_base, share_of_hours.
  assert (Hcases : r = "BE" \/ r = "FE" \/ r = "QA" \/ r = "TL" \/ r = "ARQ")
    by (unfold ROLES in Hr; repeat (apply elem_of_cons in Hr as [Hr|Hr]; [tauto|]);
        by apply elem_of_nil in Hr).
  destruct Hcases as [-> | [-> | [-> | [-> | ->]]]]; simpl.
  all: repeat first
    [ rewrite (dict_update_lookup_map_ne _ _ _ _ (s, _)) by (intros b _ Heq; inversion Heq)
    | rewrite (dict_update_lookup_map (fun s0 => (s0, _)) _ _ _ s);
        [reflexivity | by intros b Heq; inversion Heq | done] ].
Qed.

Lemma req_80_lookup_other (s r : string) :
  s ∉ S_ -> req_80 !! (s, r) = None.
Proof.
  intros Hs. unfold req_80, dict_of.
  repeat rewrite dict_update_lookup_map_ne by (intros b Hb Heq; inversion Heq; by subst).
  apply lookup_empty.
Qed.

Lemma elem_of_QA_TL (r : string) : r ∈ ["QA"; "TL"] <-> r = "QA" \/ r = "TL".
Proof.
  rewrite !elem_of_cons. split; [|tauto].
  intros [?|[?|Hnil]]; [tauto|tauto|by apply elem_of_nil in Hnil].
Qed.

Lemma add_meeting_load_lookup (s : string) (d : gmap (string * string) Q)
    (r : string) (k : string * string) :
  add_meeting_load s d r !! k =
    if bool_decide (k = (s, r)) && Qltb 0 (meeting_load r)
    then Some ((d !!! (s, r)) + meeting_load r)%Q
    else d !! k.
Proof.
  unfold add_meeting_load, meeting_load.
  destruct (Qltb 0 (dict_get mtg_per_story r 0%Q)); rewrite ?andb_false_r; [|done].
  rewrite andb_true_r. case_bool_decide as Hk.
  - subst. by rewrite lookup_insert_eq.
  - by rewrite lookup_insert_ne.
Qed.

Lemma meeting_loop_other (d : gmap (string * string) Q) (l : list string) (s r : string) :
  s ∉ l \/ r ∉ ["QA"; "TL"] ->
  meeting_loop d l !! (s, r) = d !! (s, r).
Proof.
  revert d. induction l as [|s' l IH]; intros d Hor; [done|].
  unfold meeting_loop in *. simpl. rewrite IH.
  - rewrite !add_meeting_load_lookup.
    repeat case_bool_decide; simplify_eq; simpl; try done.
    all: destruct Hor as [Hs|Hr];
      [by destruct Hs; left | destruct Hr; apply elem_of_QA_TL; tauto].
  - destruct Hor as [Hs|Hr]; [left|by right].
    intros Hin. apply Hs. by right.
Qed.

Lemma meeting_loop_once (d : gmap (string * string) Q) (l : list string)
    (s r : string) (v : Q) :
  NoDup l -> s ∈ l -> r ∈ ["QA"; "TL"] -> d !! (s, r) = Some v ->
  meeting_loop d l !! (s, r) =
    Some (if Qltb 0 (meeting_load r) then (v + meeting_load r)%Q else v).
Proof.
  revert d. induction l as [|s' l IH]; intros d Hnd Hs Hr Hd.
  - by apply elem_of_nil in Hs.
  - apply NoDup_cons in Hnd as [Hnotin Hnd].
    change (meeting_loop d (s' :: l))
      with (meeting_loop (add_meeting_load s' (add_meeting_load s' d "QA") "TL") l).
    destruct (decide (s = s')) as [<-|Hne].
    + rewrite meeting_loop_other by (by left).
      rewrite !add_meeting_load_lookup.
      assert (Hcases : r = "QA" \/ r = "TL") by (by apply elem_of_QA_TL).
      destruct Hcases as [-> | ->].
      * rewrite bool_decide_eq_false_2 by done. simpl.
        rewrite bool_decide_eq_true_2 by done. simpl.
        rewrite lookup_total_alt, Hd. simpl.
        by destruct (Qltb 0 (meeting_load "QA")).
      * rewrite bool_decide_eq_true_2 by done. simpl.
        rewrite lookup_total_alt, add_meeting_load_lookup.
        rewrite bool_decide_eq_false_2 by done. simpl. rewrite Hd. simpl.
        by destruct (Qltb 0 (meeting_load "TL")).
    + apply IH; try done.
      * apply elem_of_cons in Hs as [?|?]; done.
      * rewrite !add_meeting_load_lookup.
        rewrite !bool_decide_eq_false_2 by (intros Heq; inversion Heq; done). simpl. done.
Qed.

Lemma req_lookup (s r : string) :
  NoDup S_ -> s ∈ S_ -> r ∈ ROLES ->
  req !! (s, r) =
    Some (if bool_decide (r ∈ ["QA"; "TL"]) && Qltb 0 (meeting_load r)
          then (req_base s r + meeting_load r)%Q
          else req_base s r).
Proof.
  intros Hnd Hs Hr. change req with (meeting_loop req_80 S_).
  case_bool_decide as Hmt; simpl.
  - by rewrite (meeting_loop_once _ _ _ _ (req_base s r)); [| | | |apply req_80_lookup].
  - rewrite meeting_loop_other by (by right). by apply req_80_lookup.
Qed.

(** [req] has entries for the eligible stories and the five fixed roles
    only. *)
Lemma req_lookup_None (s r : string) :
  s ∉ S_ -> req !! (s, r) = None.
Proof.
  intros Hs. change req with (meeting_loop req_80 S_).
  rewrite meeting_loop_other by (by left). by apply req_80_lookup_other.
Qed.

Lemma req_lookup_other_role (s r : string) :
  r ∉ ROLES -> req !! (s, r) = None.
Proof.
  intros Hr. change req with (meeting_loop req_80 S_).
  assert (Hne : forall r', r' ∈ ROLES -> r' <> r) by (intros r' Hr' ->; done).
  rewrite meeting_loop_other.
  - unfold req_80, dict_of.
    repeat rewrite dict_update_lookup_map_ne
      by (intros b _ Heq; inversion Heq; subst;
          apply Hr; unfold ROLES; by_elem_of).
    apply lookup_empty.
  - right. intros Hin. apply elem_of_QA_TL in Hin as [-> | ->];
      apply Hr; unfold ROLES; by_elem_of.
Qed.

(** The share and the meeting load of a role that has one record are those
    of the record, and a role without a record has share 0 and no meeting
    load. *)
Lemma share_of_hours_row (rr : role_row) :
  NoDup R -> rr ∈ role_rows -> share_of_hours (r_role rr) = r_share_of_hours rr.
Proof. intros. by apply (dict_get_row r_role r_share_of_hours). Qed.

Lemma share_of_hours_absent (r : string) :
  r ∉ R -> share_of_hours r = 0%Q.
Proof. intros. by apply (dict_get_absent r_role r_share_of_hours). Qed.

Lemma meeting_load_row (rr : role_row) :
  NoDup R -> rr ∈ role_rows ->
  meeting_load (r_role rr) = r_meeting_load_per_story_hours rr.
Proof. intros. by apply (dict_get_row r_role r_meeting_load_per_story_hours). Qed.

Lemma meeting_load_absent (r : string) :
  r ∉ R -> meeting_load r = 0%Q.
Proof. intros. by apply (dict_get_absent r_role r_meeting_load_per_story_hours). Qed.

(** C3: for an eligible story and each of the five roles, the required hours
    are points x hours-per-point x the share of hours of the role's record,
    times the QA coverage factor for QA, plus the record's meeting load for
    QA and TL when that load is positive; for a role without a record they
    are 0 (story and role identifiers being distinct). *)
Theorem req_formula (st : story_row) (r : string) :
  NoDup S_ -> NoDup R -> st ∈ story_rows -> eligible st = true -> r ∈ ROLES ->
  exists v,
    req !! (s_story_id st, r) = Some v /\
    (forall rr, rr ∈ role_rows -> r_role rr = r ->
       (v == required_hours (s_points st) r (r_share_of_hours rr)
                            (r_meeting_load_per_story_hours rr))%Q) /\
    (r ∉ R -> (v == 0)%Q).
Proof.
  intros Hnd HndR Hst He Hr.
  assert (Hs : s_story_id st ∈ S_) by (apply elem_of_S_; eauto).
  eexists. split; [by apply req_lookup|]. split.
  - intros rr Hrr <-.
    rewrite (meeting_load_row rr HndR Hrr). unfold req_base, required_hours.
    rewrite (share_of_hours_row rr HndR Hrr), hrs_tot_lookup, points_row by done.
    destruct (bool_decide (r_role rr ∈ ["QA"; "TL"])
              && Qltb 0 (r_meeting_load_per_story_hours rr));
      case_bool_decide; ring.
  - intros HR. rewrite (meeting_load_absent r HR). unfold req_base.
    rewrite (share_of_hours_absent r HR).
    replace (Qltb 0 0) with false by reflexivity. rewrite andb_false_r.
    case_bool_decide; ring.
Qed.

(** *** Role capacities *)

Lemma role_of_row (p : person_row) :
  NoDup I_ -> p ∈ people_rows -> role_of !!! p_person p = p_role p.
Proof.
  intros Hnd Hin. rewrite lookup_total_alt. unfold role_of.
  by rewrite (dict_of_lookup_NoDup p_person p_role _ p Hnd).
Qed.

Lemma cap_i_row (p : person_row) :
  NoDup I_ -> p ∈ people_rows -> cap_i !!! p_person p = p_capacity_hours p.
Proof.
  intros Hnd Hin. rewrite lookup_total_alt. unfold cap_i.
  by rewrite (dict_of_lookup_NoDup p_person p_capacity_hours _ p Hnd).
Qed.

Lemma defaultdict_getitem_fst (d : gmap string (list string)) (k : string) :
  (defaultdict_getitem d k).1 = default [] (d !! k).
Proof. unfold defaultdict_getitem. by destruct (d !! k). Qed.

Lemma defaultdict_getitem_snd (d : gmap string (list string)) (k k' : string) :
  default [] ((defaultdict_getitem d k).2 !! k') = default [] (d !! k').
Proof.
  unfold defaultdict_getitem. destruct (d !! k) eqn:Hk; [done|]. simpl.
  destruct (decide (k = k')) as [<-|Hne].
  - by rewrite lookup_insert_eq, Hk.
  - by rewrite lookup_insert_ne.
Qed.

(** After line 53, a role's list holds the people mapped to it by
    [role_of], in the order of [I]. *)
Lemma I_by_role_append_fold (d : gmap string (list string)) (l : list string)
    (r : string) :
  default [] (foldl I_by_role_append d l !! r)
  = default [] (d !! r) ++ filter (fun i => role_of !!! i = r) l.
Proof.
  revert d. induction l as [|i l IH]; intros d; simpl.
  - by rewrite app_nil_r.
  - rewrite IH. unfold I_by_role_append.
    pose proof (defaultdict_getitem_fst d (role_of !!! i)) as Hfst.
    pose proof (defaultdict_getitem_snd d (role_of !!! i) r) as Hsnd.
    destruct (defaultdict_getitem d (role_of !!! i)) as [l0 d'] eqn:Hg.
    simpl in Hfst, Hsnd. rewrite filter_cons.
    destruct (decide (role_of !!! i = r)) as [Heq|Hne].
    + rewrite Heq, lookup_insert_eq. simpl. subst r.
      by rewrite Hfst, <- app_assoc.
    + rewrite lookup_insert_ne by done. by rewrite Hsnd.
Qed.

Lemma I_by_role_53_lookup (r : string) :
  default [] (I_by_role_53 !! r) = filter (fun i => role_of !!! i = r) I_.
Proof. unfold I_by_role_53. by rewrite I_by_role_append_fold, lookup_empty. Qed.

(** The comprehension of line 90: the lists it reads are those of line 53,
    and every role of [R] gets an entry in both dictionaries. *)
Lemma role_cap_step_fold (st : gmap string Q * gmap string (list string))
    (l : list string) (r : string) :
  default [] ((foldl role_cap_step st l).2 !! r) = default [] (st.2 !! r) /\
  (r ∈ l ->
   (foldl role_cap_step st l).1 !! r
   = Some (py_sum (map (fun i => cap_i !!! i) (default [] (st.2 !! r))))) /\
  (r ∉ l -> (foldl role_cap_step st l).1 !! r = st.1 !! r).
Proof.
  revert st. induction l as [|r' l IH]; intros st.
  - split; [done|]. split; [|done]. intros Hin. by apply elem_of_nil in Hin.
  - simpl. destruct (IH (role_cap_step st r')) as (IH1 & IH2 & IH3).
    assert (Hd : forall k, default [] ((role_cap_step st r').2 !! k)
                           = default [] (st.2 !! k)).
    { intros k. unfold role_cap_step.
      pose proof (defaultdict_getitem_snd st.2 r' k) as Hsnd.
      by destruct (defaultdict_getitem st.2 r'). }
    split; [by rewrite IH1, Hd|]. split.
    + intros Hin. destruct (decide (r ∈ l)) as [Hl|Hl].
      * by rewrite IH2, Hd.
      * rewrite IH3 by done.
        apply elem_of_cons in Hin as [->|Hin]; [|done].
        unfold role_cap_step.
        pose proof (defaultdict_getitem_fst st.2 r') as Hfst.
        destruct (defaultdict_getitem st.2 r') as [l0 d']. simpl in *.
        by rewrite lookup_insert_eq, Hfst.
    + intros Hnotin. rewrite IH3.
      * unfold role_cap_step. destruct (defaultdict_getitem st.2 r'). simpl.
        rewrite lookup_insert_ne; [done|]. intros ->. apply Hnotin. by left.
      * intros Hin. apply Hnotin. by right.
Qed.

Lemma role_cap_lookup (r : string) :
  r ∈ R ->
  role_cap !! r
  = Some (py_sum (map (fun i => cap_i !!! i)
                      (filter (fun i => role_of !!! i = r) I_))).
Proof.
  intros Hr. unfold role_cap.
  destruct (role_cap_step_fold (∅, I_by_role_53) R r) as (_ & H2 & _).
  rewrite H2 by done. simpl. by rewrite I_by_role_53_lookup.
Qed.

(** Line 90 leaves the lists of [I_by_role] as they were and adds an empty
    list for every role of [R] that had none. *)
Lemma I_by_role_lookup (r : string) :
  default [] (I_by_role !! r) = filter (fun i => role_of !!! i = r) I_.
Proof.
  unfold I_by_role.
  destruct (role_cap_step_fold (∅, I_by_role_53) R r) as (H1 & _ & _).
  rewrite H1. simpl. apply I_by_role_53_lookup.
Qed.

Lemma people_of_role_rows (r : string) (l : list person_row) :
  NoDup I_ -> (forall p, p ∈ l -> p ∈ people_rows) ->
  map (fun i => cap_i !!! i) (filter (fun i => role_of !!! i = r) (map p_person l))
  = map p_capacity_hours (filter (fun p => p_role p = r) l).
Proof.
  intros Hnd. induction l as [|p l IH]; intros Hsub; [done|].
  simpl. rewrite !filter_cons.
  assert (Hp : p ∈ people_rows) by (apply Hsub; by left).
  rewrite (role_of_row p Hnd Hp).
  assert (IH' := IH (fun q Hq => Hsub q (list_elem_of_further _ _ _ Hq))).
  destruct (decide (p_role p = r)); simpl; [|done].
  by rewrite (cap_i_row p Hnd Hp), IH'.
Qed.

Lemma role_cap_rows (r : string) :
  NoDup I_ -> r ∈ R -> role_cap !! r = Some (raw_capacity r).
Proof.
  intros Hnd Hr. rewrite role_cap_lookup by done. unfold raw_capacity, I_.
  by rewrite people_of_role_rows.
Qed.

Lemma role_bug_reserve_lookup (r : string) :
  r ∈ R ->
  role_bug_reserve !! r
  = Some (inject_Z bugs_per_sprint * dict_get bug_hours_per_bug r 0)%Q.
Proof.
  intros Hr. unfold role_bug_reserve, dict_of.
  rewrite (dict_update_lookup_map (fun r => r)
             (fun r => (inject_Z bugs_per_sprint * dict_get bug_hours_per_bug r 0)%Q));
    try done.
  by intros b ->.
Qed.

Lemma role_cap_eff_92_lookup (r : string) :
  r ∈ R ->
  role_cap_eff_92 !! r
  = Some (dict_get role_cap r 0 - dict_get role_bug_reserve r 0)%Q.
Proof.
  intros Hr. unfold role_cap_eff_92, dict_of.
  rewrite (dict_update_lookup_map (fun r => r)
             (fun r => (dict_get role_cap r 0 - dict_get role_bug_reserve r 0)%Q));
    try done.
  by intros b ->.
Qed.

Lemma role_cap_eff_92_None (r : string) :
  r ∉ R -> role_cap_eff_92 !! r = None.
Proof.
  intros Hr. unfold role_cap_eff_92.
  rewrite (dict_of_lookup_None (fun r => r)); [done|].
  by rewrite map_id.
Qed.

Lemma role_cap_None (r : string) : r ∉ R -> role_cap !! r = None.
Proof.
  intros Hr. unfold role_cap.
  destruct (role_cap_step_fold (∅, I_by_role_53) R r) as (_ & _ & H3).
  by rewrite H3.
Qed.

(** Roles without a record: only QA gets an entry, from line 94, and it is
    computed from the defaults. *)
Lemma role_cap_eff_without_record (r : string) :
  r ∉ R ->
  role_cap_eff !! r
  = if bool_decide (r = "QA") then Some (py_min 0 (0 * wip_factor_QA))%Q else None.
Proof.
  intros Hr. unfold role_cap_eff. case_bool_decide as HQA.
  - subst r. rewrite lookup_insert_eq. unfold dict_get.
    by rewrite role_cap_eff_92_None, role_cap_None.
  - rewrite lookup_insert_ne by done. by apply role_cap_eff_92_None.
Qed.

(** Line 90 subscripts the [defaultdict] with every role of [R]: from then
    on [r in I_by_role] holds for each of them, with or without people. *)
Lemma role_cap_step_keys (st : gmap string Q * gmap string (list string))
    (l : list string) (r : string) :
  r ∈ l \/ is_Some (st.2 !! r) -> is_Some ((foldl role_cap_step st l).2 !! r).
Proof.
  revert st. induction l as [|r' l IH]; intros st Hor; simpl.
  - destruct Hor as [Hin|?]; [by apply elem_of_nil in Hin|done].
  - apply IH. destruct (decide (r ∈ l)) as [?|Hl]; [by left|right].
    unfold role_cap_step, defaultdict_getitem.
    destruct (st.2 !! r') as [l0|] eqn:Hr'; simpl.
    + destruct Hor as [Hin|?]; [|done].
      apply elem_of_cons in Hin as [->|?]; [by rewrite Hr'|done].
    + destruct (decide (r' = r)) as [->|Hne].
      * rewrite lookup_insert_eq. by eexists.
      * rewrite lookup_insert_ne by done.
        destruct Hor as [Hin|?]; [|done].
        apply elem_of_cons in Hin as [->|?]; done.
Qed.

Lemma I_by_role_has_roles_of_R (r : string) :
  r ∈ R -> dict_mem I_by_role r = true.
Proof.
  intros Hr. unfold dict_mem, I_by_role. apply bool_decide_eq_true.
  apply role_cap_step_keys. by left.
Qed.

Lemma py_min_Qmin (a b : Q) : (py_min a b == Qmin a b)%Q.
Proof.
  unfold py_min, Qltb. destruct (Qle_bool a b) eqn:Hle; simpl.
  - apply Qle_bool_iff in Hle. symmetry. by apply Q.min_l.
  - assert (Hlt : (b < a)%Q).
    { apply Qnot_le_lt. intros Hab. apply Qle_bool_iff in Hab. congruence. }
    symmetry. apply Q.min_r. by apply Qlt_le_weak.
Qed.

(** C4: for a role with a record, the effective capacity is the summed
    capacity of its people minus bugs expected x the role's hours per bug;
    for QA it is the smaller of that and the summed capacity x the QA
    work-in-progress factor (person and role identifiers being distinct). *)
Theorem role_cap_eff_formula (rr : role_row) :
  NoDup I_ -> NoDup R -> rr ∈ role_rows ->
  exists v,
    role_cap_eff !! r_role rr = Some v /\
    (v == let raw := raw_capacity (r_role rr) in
          let eff := raw - inject_Z bugs_per_sprint * r_bug_hours_per_bug rr in
          if bool_decide (r_role rr = "QA") then Qmin eff (raw * wip_factor_QA)
          else eff)%Q.
Proof.
  intros HI HR Hrr.
  assert (Hr : r_role rr ∈ R) by (apply list_elem_of_fmap; by exists rr).
  assert (Hraw : dict_get role_cap (r_role rr) 0%Q = raw_capacity (r_role rr)).
  { unfold dict_get. by rewrite role_cap_rows. }
  assert (Hbug : dict_get role_bug_reserve (r_role rr) 0%Q
                 = (inject_Z bugs_per_sprint * r_bug_hours_per_bug rr)%Q).
  { unfold dict_get at 1. rewrite role_bug_reserve_lookup by done. simpl.
    unfold bug_hours_per_bug.
    by rewrite (dict_get_row r_role r_bug_hours_per_bug _ rr). }
  assert (H92 : dict_get role_cap_eff_92 (r_role rr) 0%Q
                = (raw_capacity (r_role rr)
                   - inject_Z bugs_per_sprint * r_bug_hours_per_bug rr)%Q).
  { unfold dict_get at 1. rewrite role_cap_eff_92_lookup by done. simpl.
    by rewrite Hraw, Hbug. }
  unfold role_cap_eff. case_bool_decide as HQA.
  - rewrite HQA in *. rewrite lookup_insert_eq. eexists. split; [done|].
    rewrite Hraw, H92. apply py_min_Qmin.
  - rewrite lookup_insert_ne by done. rewrite role_cap_eff_92_lookup by done.
    eexists. split; [done|]. by rewrite Hraw, Hbug.
Qed.

(** *** Meaning of the constraints *)

Lemma eval_terms_app (a : assignment) (t1 t2 : list (Q * LpVariable)) :
  (eval_terms a (t1 ++ t2) == eval_terms a t1 + eval_terms a t2)%Q.
Proof.
  induction t1 as [|t t1 IH]; simpl.
  - ring.
  - rewrite IH. ring.
Qed.

Lemma eval_expr_add (a : assignment) (e1 e2 : LpAffineExpression) :
  (eval a (expr_add e1 e2) == eval a e1 + eval a e2)%Q.
Proof. unfold eval, expr_add. simpl. rewrite eval_terms_app. ring. Qed.

Lemma eval_expr_var (a : assignment) (v : LpVariable) :
  (eval a (expr_var v) == a v)%Q.
Proof. unfold eval, expr_var. simpl. ring. Qed.

Lemma eval_foldl_add (a : assignment) (e0 : LpAffineExpression)
    (es : list LpAffineExpression) :
  (eval a (foldl expr_add e0 es) == eval a e0 + sum_over (eval a) es)%Q.
Proof.
  revert e0. induction es as [|e es IH]; intros e0; simpl.
  - ring.
  - rewrite IH, eval_expr_add. ring.
Qed.

Lemma eval_lpSum (a : assignment) (es : list LpAffineExpression) :
  (eval a (lpSum es) == sum_over (eval a) es)%Q.
Proof. unfold lpSum. rewrite eval_foldl_add. unfold eval. simpl. ring. Qed.

Lemma eval_lpSum_vars {A} (a : assignment) (f : A -> LpVariable) (l : list A) :
  (eval a (lpSum (map (fun k => expr_var (f k)) l)) == sum_over (fun k => a (f k)) l)%Q.
Proof.
  rewrite eval_lpSum. induction l as [|k l IH]; simpl; [reflexivity|].
  by rewrite IH, eval_expr_var.
Qed.

Lemma binary_01 (q : Q) (k : Z) :
  (0 <= q)%Q -> (q <= 1)%Q -> (q == inject_Z k)%Q -> (q == 0)%Q \/ (q == 1)%Q.
Proof.
  intros H0 H1 Hk. rewrite Hk in H0, H1.
  change 0%Q with (inject_Z 0) in H0. change 1%Q with (inject_Z 1) in H1.
  rewrite <- Zle_Qle in H0, H1.
  assert (Hcases : k = 0%Z \/ k = 1%Z) by lia.
  destruct Hcases as [-> | ->]; [left|right]; exact Hk.
Qed.

(** A sum of 0/1 values counts the ones. *)
Lemma sum_over_count {A} (g : A -> Q) (l : list A) :
  (forall k, k ∈ l -> (g k == 0)%Q \/ (g k == 1)%Q) ->
  (sum_over g l
   == inject_Z (Z.of_nat (length (filter (fun k => Qeq_bool (g k) 1 = true) l))))%Q.
Proof.
  induction l as [|k l IH]; intros Hbin; simpl; [reflexivity|].
  rewrite filter_cons.
  assert (IH' : (sum_over g l
     == inject_Z (Z.of_nat (length (filter (fun k => Qeq_bool (g k) 1 = true) l))))%Q).
  { apply IH. intros k' Hk'. apply Hbin. by right. }
  destruct (decide (Qeq_bool (g k) 1 = true)) as [Hone|Hnone].
  - apply Qeq_bool_iff in Hone. simpl length.
    rewrite Nat2Z.inj_succ, <- Z.add_1_l, inject_Z_plus, IH', Hone. reflexivity.
  - destruct (Hbin k) as [Hz|Hone]; [by left| |].
    + rewrite IH', Hz. ring.
    + destruct Hnone. by apply Qeq_bool_iff.
Qed.

Lemma holds_b_sound (a : assignment) (c : LpConstraint) :
  holds_b a c = true -> holds a c.
Proof.
  unfold holds_b, holds. destruct (c_sense c); intros Hb.
  - by apply Qle_bool_iff.
  - by apply Qle_bool_iff.
  - by apply Qeq_bool_iff.
Qed.

Lemma respects_b_sound (a : assignment) (d : LpVarDecl) :
  respects_b a d = true -> respects a d.
Proof.
  unfold respects_b, respects. rewrite !andb_true_iff. intros [[Hlo Hup] Hcat].
  split; [|split].
  - intros lo Heq. rewrite Heq in Hlo. by apply Qle_bool_iff.
  - intros up Heq. rewrite Heq in Hup. by apply Qle_bool_iff.
  - intros Heq. rewrite Heq in Hcat. eexists. by apply Qeq_bool_iff.
Qed.

Lemma feasible_b_sound (decls : list LpVarDecl) (pm : LpProblem) (a : assignment) :
  feasible_b decls pm a = true -> feasible decls pm a.
Proof.
  unfold feasible_b, feasible. rewrite andb_true_iff, !forallb_forall.
  intros [Hd Hc]. split.
  - intros d Hin. apply respects_b_sound, Hd. by apply list_elem_of_In.
  - intros nc Hin. apply holds_b_sound, (Hc nc). by apply list_elem_of_In.
Qed.

(** *** Membership in the variable lists and in the problem *)

Lemma elem_of_pairs_I_S (i s : string) :
  i ∈ I_ -> s ∈ S_ -> (i, s) ∈ pairs_I_S.
Proof.
  intros Hi Hs. unfold pairs_I_S. apply list_elem_of_In, in_flat_map.
  exists i. split; [by apply list_elem_of_In|].
  apply list_elem_of_In, list_elem_of_fmap. by exists s.
Qed.

Lemma z_declared (s : string) :
  s ∈ S_ -> LpVariable_dicts (var_z s) (Some 0%Q) (Some 1%Q) LpBinary ∈ variables.
Proof.
  intros Hs. unfold variables. apply elem_of_app. right. apply elem_of_app. left.
  apply list_elem_of_fmap. by exists s.
Qed.

Lemma y_declared (i : string) :
  i ∈ I_ -> LpVariable_dicts (var_y i) (Some 0%Q) (Some 1%Q) LpBinary ∈ variables.
Proof.
  intros Hi. unfold variables. do 2 (apply elem_of_app; right). apply elem_of_app. left.
  apply list_elem_of_fmap. by exists i.
Qed.

Lemma owner_declared (i s : string) :
  i ∈ I_ -> s ∈ S_ ->
  LpVariable_dicts (var_owner i s) (Some 0%Q) (Some 1%Q) LpBinary ∈ variables.
Proof.
  intros Hi Hs. unfold variables. do 3 (apply elem_of_app; right). apply elem_of_app. left.
  apply list_elem_of_fmap. exists (i, s). split; [done|]. by apply elem_of_pairs_I_S.
Qed.

Lemma rel_declared (i : string) :
  i ∈ I_ -> LpVariable_dicts (var_rel i) (Some 0%Q) (Some 1%Q) LpBinary ∈ variables.
Proof.
  intros Hi. unfold variables. do 4 (apply elem_of_app; right).
  apply list_elem_of_fmap. by exists i.
Qed.

Lemma binary_respected (a : assignment) (v : LpVariable) :
  respects a (LpVariable_dicts v (Some 0%Q) (Some 1%Q) LpBinary) ->
  (a v == 0)%Q \/ (a v == 1)%Q.
Proof.
  intros (Hlo & Hup & Hint). simpl in *.
  destruct Hint as [k Hk]; [done|].
  apply (binary_01 _ k); [by apply Hlo | by apply Hup | done].
Qed.

Lemma elem_of_devs (i : string) :
  i ∈ devs <-> i ∈ I_ /\ role_of !!! i ∈ ["BE"; "FE"].
Proof. unfold devs. rewrite list_elem_of_filter. tauto. Qed.

(** *** Adding constraints *)

Lemma foldM_app {A B} (f : B -> A -> result B) (acc : B) (l1 l2 : list A) :
  foldM f acc (l1 ++ l2) = let* acc' := foldM f acc l1 in foldM f acc' l2.
Proof.
  revert acc. induction l1 as [|a l1 IH]; intros acc; simpl; [done|].
  destruct (f acc a) as [acc'|e]; simpl; [apply IH|done].
Qed.

Lemma NoDup_snoc_name (names : list string) (n : string) :
  NoDup names -> n ∉ names -> NoDup (names ++ [n]).
Proof.
  intros Hnd Hn. apply NoDup_app. split; [done|]. split; [|apply NoDup_singleton].
  intros x Hx Hx'. apply list_elem_of_singleton in Hx' as ->. done.
Qed.


(** A run of [m += c, name] statements that goes through has appended the
    constraints, and their names were new. *)
Lemma add_all_inv (pm pm' : LpProblem) (l : list (string * LpConstraint)) :
  foldM add_constraint pm l = Ok pm' ->
  objective pm' = objective pm /\ constraints pm' = constraints pm ++ l /\
  (NoDup (map fst (constraints pm)) -> NoDup (map fst (constraints pm'))).
Proof.
  revert pm. induction l as [|nc l IH]; intros pm; simpl.
  - intros [= <-]. by rewrite app_nil_r.
  - unfold add_constraint at 1. case_bool_decide as Hin; simpl; [done|].
    intros Hrun. apply IH in Hrun as (Ho & Hc & Hnd). simpl in Ho, Hc, Hnd.
    split; [done|]. split; [by rewrite Hc, <- app_assoc|].
    intros Hnd0. apply Hnd. rewrite map_app. by apply NoDup_snoc_name.
Qed.


(** The same for the loop of lines 120-122. *)
Lemma RoleCap_names_cons (r : string) (l : list string) :
  RoleCap_names (r :: l)
  = (if dict_mem I_by_role r then [translate ("RoleCap_" +:+ r)] else [])
    ++ RoleCap_names l.
Proof.
  unfold RoleCap_names. rewrite filter_cons.
  destruct (dict_mem I_by_role r) eqn:Hmem.
  - by rewrite decide_True.
  - by rewrite decide_False.
Qed.

Lemma add_RoleCap_inv (pm pm' : LpProblem) (l : list string)
    (acc : list (string * LpConstraint)) :
  foldM add_RoleCap pm l = Ok pm' ->
  exists rc,
    foldM RoleCap_step acc l = Ok (acc ++ rc) /\
    objective pm' = objective pm /\ constraints pm' = constraints pm ++ rc /\
    map fst rc = RoleCap_names l /\
    (NoDup (map fst (constraints pm)) -> NoDup (map fst (constraints pm'))).
Proof.
  revert pm acc. induction l as [|r l IH]; intros pm acc; simpl.
  - intros [= <-]. exists []. by rewrite !app_nil_r.
  - rewrite RoleCap_names_cons.
    unfold add_RoleCap at 1. unfold RoleCap_step at 1.
    destruct (dict_mem I_by_role r).
    + destruct (subscript role_cap_eff r) as [c|e]; simpl; [|done].
      unfold add_constraint at 1. case_bool_decide as Hin; simpl; [done|].
      intros Hrun.
      apply (IH _ (acc ++ [named ("RoleCap_" +:+ r)
                (lpSum (flat_map (fun s =>
                   map (fun i => expr_var (var_x i s)) (I_by_role !!! r)) S_))
                LpLE (expr_const c)])) in Hrun
        as (rc & Hrc & Ho & Hc & Hn & Hnd).
      simpl in Ho, Hc, Hnd. eexists (_ :: rc).
      split; [by rewrite Hrc, <- app_assoc|]. split; [done|].
      split; [by rewrite Hc, <- app_assoc|]. split; [simpl; by rewrite Hn|].
      intros Hnd0. apply Hnd. rewrite map_app. by apply NoDup_snoc_name.
    + simpl. apply IH.
Qed.


(** The script's [m += ...] statements in three runs: the constraints of
    lines 109-117, the loop of lines 120-122, and those of lines 124-145. *)
Lemma m_unfold :
  m = let* pm := foldM add_constraint
                   {| objective := objective_expr; constraints := [] |}
                   (Cap_constraints ++ Req_constraints) in
      let* pm := foldM add_RoleCap pm ROLES in
      foldM add_constraint pm
        (Owner_constraints ++ PointsCap_constraints
         ++ Rel_constraints ++ Dep_constraints).
Proof.
  unfold m. rewrite foldM_app.
  destruct (foldM add_constraint _ Cap_constraints) as [pm1|]; cbn [rbind]; [|done].
  destruct (foldM add_constraint pm1 Req_constraints) as [pm2|]; cbn [rbind]; [|done].
  destruct (foldM add_RoleCap pm2 ROLES) as [pm3|]; cbn [rbind]; [|done].
  rewrite foldM_app.
  destruct (foldM add_constraint pm3 Owner_constraints) as [pm4|]; cbn [rbind]; [|done].
  rewrite foldM_app.
  destruct (foldM add_constraint pm4 PointsCap_constraints) as [pm5|]; cbn [rbind]; [|done].
  rewrite foldM_app.
  by destruct (foldM add_constraint pm5 Rel_constraints) as [pm6|]; cbn [rbind].
Qed.

(** The constraint groups of a problem that was built, and their names. *)
Lemma m_built (pm : LpProblem) :
  m = Ok pm ->
  exists rolecap,
    RoleCap_constraints = Ok rolecap /\
    objective pm = objective_expr /\
    constraints pm = Cap_constraints ++ Req_constraints ++ rolecap
                     ++ Owner_constraints ++ PointsCap_constraints
                     ++ Rel_constraints ++ Dep_constraints /\
    map fst (constraints pm) = constraint_names /\
    NoDup constraint_names.
Proof.
  rewrite m_unfold.
  destruct (foldM add_constraint _ (Cap_constraints ++ Req_constraints))
    as [pm1|] eqn:H1; cbn [rbind]; [|done].
  destruct (foldM add_RoleCap pm1 ROLES) as [pm2|] eqn:H2; cbn [rbind]; [|done].
  intros H3.
  apply add_all_inv in H1 as (Ho1 & Hc1 & Hnd1). simpl in Ho1, Hc1, Hnd1.
  apply (add_RoleCap_inv _ _ _ []) in H2 as (rc & Hrc & Ho2 & Hc2 & Hn2 & Hnd2).
  apply add_all_inv in H3 as (Ho3 & Hc3 & Hnd3).
  exists rc. split; [done|]. split; [congruence|].
  assert (Hcs : constraints pm
                = (Cap_constraints ++ Req_constraints) ++ rc
                  ++ Owner_constraints ++ PointsCap_constraints
                  ++ Rel_constraints ++ Dep_constraints)
    by (by rewrite Hc3, Hc2, Hc1, <- app_assoc).
  split; [by rewrite Hcs, <- app_assoc|].
  assert (Hnames : map fst (constraints pm) = constraint_names)
    by (by rewrite Hcs, !map_app, Hn2, <- !map_app).
  split; [done|]. rewrite <- Hnames.
  apply Hnd3, Hnd2, Hnd1. constructor.
Qed.

Lemma m_constraints (pm : LpProblem) :
  m = Ok pm ->
  exists rolecap,
    RoleCap_constraints = Ok rolecap /\
    objective pm = objective_expr /\
    constraints pm = Cap_constraints ++ Req_constraints ++ rolecap
                     ++ Owner_constraints ++ PointsCap_constraints
                     ++ Rel_constraints ++ Dep_constraints.
Proof.
  intros Hm. destruct (m_built pm Hm) as (rc & ? & ? & ? & _). by exists rc.
Qed.

Lemma Owner_in_problem (pm : LpProblem) (nc : string * LpConstraint) :
  m = Ok pm -> nc ∈ Owner_constraints -> nc ∈ constraints pm.
Proof.
  intros Hm Hnc. destruct (m_constraints pm Hm) as (rc & _ & _ & ->).
  do 3 (apply elem_of_app; right). apply elem_of_app. by left.
Qed.

Lemma Rel_in_problem (pm : LpProblem) (nc : string * LpConstraint) :
  m = Ok pm -> nc ∈ Rel_constraints -> nc ∈ constraints pm.
Proof.
  intros Hm Hnc. destruct (m_constraints pm Hm) as (rc & _ & _ & ->).
  do 5 (apply elem_of_app; right). apply elem_of_app. by left.
Qed.

Lemma Dep_in_problem (pm : LpProblem) (nc : string * LpConstraint) :
  m = Ok pm -> nc ∈ Dep_constraints -> nc ∈ constraints pm.
Proof.
  intros Hm Hnc. destruct (m_constraints pm Hm) as (rc & _ & _ & ->).
  by do 6 (apply elem_of_app; right).
Qed.

Lemma OwnerOne_in_Owner (s : string) :
  s ∈ S_ ->
  named ("OwnerOne_" +:+ s)
    (lpSum (map (fun i => expr_var (var_owner i s)) devs)) LpEQ (expr_var (var_z s))
  ∈ Owner_constraints.
Proof.
  intros Hs. unfold Owner_constraints. apply list_elem_of_In, in_flat_map.
  exists s. split; [by apply list_elem_of_In|]. by left.
Qed.

Lemma Rel_in_Rel (d : string) :
  d ∈ devs ->
  named ("RelLink_" +:+ d) (expr_var (var_rel d)) LpLE
    (lpSum (map (fun s => expr_var (var_owner d s)) S_)) ∈ Rel_constraints /\
  named ("RelActive_" +:+ d) (expr_var (var_rel d)) LpGE (expr_var (var_y d))
    ∈ Rel_constraints.
Proof.
  intros Hd. unfold Rel_constraints.
  split; apply list_elem_of_In, in_flat_map; exists d;
    (split; [by apply list_elem_of_In|]); simpl; tauto.
Qed.

(** C5: under every feasible assignment, an eligible story that is selected
    has exactly one owner among the developers and one that is not selected
    has none. *)
Theorem single_ownership (pm : LpProblem) (a : assignment) (s : string) :
  m = Ok pm -> feasible variables pm a -> s ∈ S_ ->
  ((a (var_z s) == 0)%Q \/ (a (var_z s) == 1)%Q) /\
  ((a (var_z s) == 1)%Q -> length (owners a s) = 1%nat) /\
  ((a (var_z s) == 0)%Q -> length (owners a s) = 0%nat).
Proof.
  intros Hm [Hdom Hcons] Hs.
  assert (Hz : (a (var_z s) == 0)%Q \/ (a (var_z s) == 1)%Q).
  { apply binary_respected, Hdom. by apply z_declared. }
  pose proof (Hcons _ (Owner_in_problem pm _ Hm (OwnerOne_in_Owner s Hs))) as Hone.
  unfold holds in Hone. simpl in Hone.
  rewrite eval_lpSum_vars, eval_expr_var in Hone.
  rewrite sum_over_count in Hone.
  2:{ intros i Hi. apply binary_respected, Hdom.
      apply elem_of_devs in Hi as [Hi _]. by apply owner_declared. }
  fold (owners a s) in Hone.
  split; [done|]. split; intros Hsel; rewrite Hsel in Hone.
  - assert (Hn : Z.of_nat (length (owners a s)) = 1%Z)
      by (apply inject_Z_injective; exact Hone).
    lia.
  - assert (Hn : Z.of_nat (length (owners a s)) = 0%Z)
      by (apply inject_Z_injective; exact Hone).
    lia.
Qed.

(** C6: under every feasible assignment, a developer's release flag is at
    most the number of stories the developer owns and at least the active
    flag; so an active developer is released and owns a story. *)
Theorem release_of_active (pm : LpProblem) (a : assignment) (d : string) :
  m = Ok pm -> feasible variables pm a -> d ∈ devs ->
  (a (var_rel d) <= inject_Z (Z.of_nat (length (owned a d))))%Q /\
  (a (var_y d) <= a (var_rel d))%Q /\
  ((a (var_y d) == 1)%Q ->
   (a (var_rel d) == 1)%Q /\
   exists s, s ∈ S_ /\ (a (var_owner d s) == 1)%Q).
Proof.
  intros Hm [Hdom Hcons] Hd.
  destruct (Rel_in_Rel d Hd) as [Hlink Hact].
  pose proof (Hcons _ (Rel_in_problem pm _ Hm Hlink)) as Hl.
  pose proof (Hcons _ (Rel_in_problem pm _ Hm Hact)) as Ha.
  unfold holds in Hl, Ha. simpl in Hl, Ha.
  rewrite eval_lpSum_vars, eval_expr_var in Hl. rewrite !eval_expr_var in Ha.
  pose proof Hd as Hd'. apply elem_of_devs in Hd' as [HdI _].
  rewrite sum_over_count in Hl.
  2:{ intros s Hs. apply binary_respected, Hdom. by apply owner_declared. }
  fold (owned a d) in Hl.
  split; [done|]. split; [done|]. intros Hy.
  assert (Hrel : (a (var_rel d) == 0)%Q \/ (a (var_rel d) == 1)%Q).
  { apply binary_respected, Hdom. by apply rel_declared. }
  assert (Hr1 : (a (var_rel d) == 1)%Q).
  { destruct Hrel as [Hr0|Hr1]; [|done]. rewrite Hy, Hr0 in Ha. by apply Qle_not_lt in Ha. }
  split; [done|].
  destruct (owned a d) as [|s l] eqn:Howned.
  - simpl in Hl. rewrite Hr1 in Hl. by apply Qle_not_lt in Hl.
  - assert (Hin : s ∈ owned a d) by (rewrite Howned; by left).
    apply list_elem_of_filter in Hin as [Hone Hs].
    exists s. split; [done|]. by apply Qeq_bool_iff.
Qed.

(** *** Dependencies *)

Lemma eligible_iff (st : story_row) :
  eligible st = true <-> s_points st ∉ forbid_points.
Proof.
  unfold eligible. rewrite negb_true_iff, bool_decide_eq_false. tauto.
Qed.

Lemma elem_of_deps_fold (acc : list (string * string)) (l : list story_row)
    (sp : string * string) :
  sp ∈ foldl deps_step acc l <->
  sp ∈ acc \/
  exists st, st ∈ l /\ eligible st = true /\
             sp = (s_story_id st, strip (default "" (s_depends_on st))) /\
             sp.2 <> "".
Proof.
  revert acc. induction l as [|st l IH]; intros acc; simpl.
  - split; [by left|]. intros [?|(st & Hst & _)]; [done|]. by apply elem_of_nil in Hst.
  - rewrite IH. unfold deps_step. split.
    + intros [Hacc|(st' & Hst' & He & Hsp & Hne)].
      * case_bool_decide as Hf; [by left|].
        case_bool_decide as Hd; [by left|].
        apply elem_of_app in Hacc as [Hacc|Hnew]; [by left|].
        apply list_elem_of_singleton in Hnew. right. exists st.
        split; [by left|]. split; [by apply eligible_iff|]. split; [done|].
        by rewrite Hnew.
      * right. exists st'. split; [by right|]. done.
    + intros [Hacc|(st' & Hst' & He & Hsp & Hne)].
      * left. case_bool_decide; [done|]. case_bool_decide; [done|].
        apply elem_of_app. by left.
      * apply elem_of_cons in Hst' as [->|Hst'].
        -- left. apply eligible_iff in He.
           rewrite bool_decide_eq_false_2 by done.
           rewrite Hsp in Hne. simpl in Hne.
           rewrite bool_decide_eq_false_2 by done.
           apply elem_of_app. right. by apply list_elem_of_singleton.
        -- right. by exists st'.
Qed.

(** [deps] holds one pair per eligible story whose stripped [depends_on]
    is not empty. *)
Lemma elem_of_deps (sp : string * string) :
  sp ∈ deps <->
  exists st, st ∈ story_rows /\ eligible st = true /\
             sp = (s_story_id st, strip (default "" (s_depends_on st))) /\
             sp.2 <> "".
Proof.
  unfold deps. rewrite elem_of_deps_fold. split; [|by right].
  intros [Hnil|?]; [by apply elem_of_nil in Hnil|done].
Qed.

Lemma Dep_in_Dep (s p : string) :
  (s, p) ∈ deps -> p ∈ S_ ->
  named ("Dep_" +:+ s +:+ "_on_" +:+ p) (expr_var (var_z s)) LpLE (expr_var (var_z p))
  ∈ Dep_constraints.
Proof.
  intros Hsp Hp. unfold Dep_constraints. apply list_elem_of_In, in_flat_map.
  exists (s, p). split; [by apply list_elem_of_In|]. simpl.
  rewrite bool_decide_eq_true_2 by done. by left.
Qed.

(** C7: for an eligible story whose recorded predecessor is eligible too,
    the problem holds the constraint z(s) <= z(p), so under every feasible
    assignment the story is selected only if its predecessor is. *)
Theorem dependency_precedence (pm : LpProblem) (st : story_row) (p : string) :
  m = Ok pm ->
  st ∈ story_rows -> eligible st = true ->
  strip (default "" (s_depends_on st)) = p -> p <> "" -> p ∈ S_ ->
  (s_story_id st, p) ∈ deps /\
  named ("Dep_" +:+ s_story_id st +:+ "_on_" +:+ p)
    (expr_var (var_z (s_story_id st))) LpLE (expr_var (var_z p))
  ∈ constraints pm /\
  forall a, feasible variables pm a ->
            (a (var_z (s_story_id st)) == 1)%Q -> (a (var_z p) == 1)%Q.
Proof.
  intros Hm Hst He Hp Hne HpS.
  assert (Hdep : (s_story_id st, p) ∈ deps).
  { apply elem_of_deps. exists st. by rewrite Hp. }
  pose proof (Dep_in_problem pm _ Hm (Dep_in_Dep _ _ Hdep HpS)) as Hin.
  split; [done|]. split; [done|].
  intros a [Hdom Hcons] Hsel.
  pose proof (Hcons _ Hin) as Hle. unfold holds in Hle. simpl in Hle.
  rewrite !eval_expr_var in Hle.
  destruct (binary_respected a (var_z p) (Hdom _ (z_declared p HpS))) as [H0|H1];
    [|done].
  rewrite Hsel, H0 in Hle. by apply Qle_not_lt in Hle.
Qed.

(** *** Where variables occur *)

Lemma expr_vars_expr_add (e1 e2 : LpAffineExpression) :
  expr_vars (expr_add e1 e2) = expr_vars e1 ++ expr_vars e2.
Proof. unfold expr_vars, expr_add. simpl. by rewrite map_app. Qed.

Lemma expr_vars_expr_scale (c : Q) (e : LpAffineExpression) :
  expr_vars (expr_scale c e) = if Qeq_bool c 0 then [] else expr_vars e.
Proof.
  unfold expr_vars, expr_scale. destruct (Qeq_bool c 0); simpl; [done|].
  by rewrite map_map.
Qed.

Lemma Forall_expr_scale (P : LpVariable -> Prop) (c : Q) (e : LpAffineExpression) :
  Forall P (expr_vars e) -> Forall P (expr_vars (expr_scale c e)).
Proof.
  intros He. rewrite expr_vars_expr_scale. by destruct (Qeq_bool c 0).
Qed.

Lemma Forall_expr_vars_foldl (P : LpVariable -> Prop) (e0 : LpAffineExpression)
    (es : list LpAffineExpression) :
  Forall P (expr_vars e0) ->
  (forall e, e ∈ es -> Forall P (expr_vars e)) ->
  Forall P (expr_vars (foldl expr_add e0 es)).
Proof.
  revert e0. induction es as [|e es IH]; intros e0 H0 Hes; simpl; [done|].
  apply IH.
  - rewrite expr_vars_expr_add. apply Forall_app. split; [done|]. apply Hes. by left.
  - intros e' He'. apply Hes. by right.
Qed.

Lemma Forall_lpSum_map {A} (P : LpVariable -> Prop) (f : A -> LpAffineExpression)
    (l : list A) :
  (forall k, k ∈ l -> Forall P (expr_vars (f k))) ->
  Forall P (expr_vars (lpSum (map f l))).
Proof.
  intros Hl. unfold lpSum. apply Forall_expr_vars_foldl; [by constructor|].
  intros e He. apply list_elem_of_fmap in He as (k & -> & Hk). by apply Hl.
Qed.

Lemma Forall_expr_var (P : LpVariable -> Prop) (v : LpVariable) :
  P v -> Forall P (expr_vars (expr_var v)).
Proof. intros Hv. unfold expr_vars, expr_var. simpl. by repeat constructor. Qed.

Lemma Forall_scaled_var (P : LpVariable -> Prop) (c : Q) (v : LpVariable) :
  P v -> Forall P (expr_vars (expr_scale c (expr_var v))).
Proof. intros Hv. by apply Forall_expr_scale, Forall_expr_var. Qed.

Lemma vars_ok_named (P : LpVariable -> Prop) (name : string)
    (lhs : LpAffineExpression) (sense : LpSense) (rhs : LpAffineExpression) :
  Forall P (expr_vars lhs) -> Forall P (expr_vars rhs) ->
  vars_ok P (named name lhs sense rhs).
Proof. intros Hl Hr. unfold vars_ok, constraint_vars. simpl. by apply Forall_app. Qed.

Lemma Forall_flat_map_intro {A B} (Q' : B -> Prop) (f : A -> list B) (l : list A) :
  (forall k, k ∈ l -> Forall Q' (f k)) -> Forall Q' (flat_map f l).
Proof.
  intros Hl. apply Forall_flat_map, Forall_forall. intros k Hk. by apply Hl.
Qed.

Lemma Forall_map_intro {A B} (Q' : B -> Prop) (f : A -> B) (l : list A) :
  (forall k, k ∈ l -> Q' (f k)) -> Forall Q' (map f l).
Proof.
  intros Hl. apply Forall_forall. intros b Hb.
  apply list_elem_of_fmap in Hb as (k & -> & Hk). by apply Hl.
Qed.

Lemma I_by_role_members (r i : string) :
  i ∈ I_by_role !!! r -> i ∈ I_.
Proof.
  rewrite lookup_total_alt. change inhabitant with (@nil string).
  rewrite I_by_role_lookup. intros Hi. by apply list_elem_of_filter in Hi as [_ Hi].
Qed.

Lemma foldM_invariant {A B} (f : B -> A -> result B) (Inv : B -> Prop)
    (l : list A) (acc res : B) :
  (forall b a b', a ∈ l -> Inv b -> f b a = Ok b' -> Inv b') ->
  Inv acc -> foldM f acc l = Ok res -> Inv res.
Proof.
  revert acc. induction l as [|a l IH]; intros acc Hstep Hacc Hres; simpl in Hres.
  - by injection Hres as <-.
  - destruct (f acc a) as [acc'|e] eqn:Hf; simpl in Hres; [|done].
    apply (IH acc'); [|by apply (Hstep acc a); [left| |]|done].
    intros b a' b' Ha'. apply Hstep. by right.
Qed.

Section Occurrences.

Variable P : LpVariable -> Prop.
Hypothesis P_x : forall i s, i ∈ I_ -> s ∈ S_ -> P (var_x i s).
Hypothesis P_z : forall s, s ∈ S_ -> P (var_z s).
Hypothesis P_y : forall i, i ∈ I_ -> P (var_y i).
Hypothesis P_owner : forall i s, i ∈ devs -> s ∈ S_ -> P (var_owner i s).
Hypothesis P_rel : forall i, i ∈ devs -> P (var_rel i).

Lemma devs_I_ (i : string) : i ∈ devs -> i ∈ I_.
Proof. intros Hi. by apply elem_of_devs in Hi as [Hi _]. Qed.

Lemma objective_vars_ok : Forall P (expr_vars objective_expr).
Proof.
  unfold objective_expr, expr_sub. rewrite expr_vars_expr_add.
  apply Forall_app. split; [|do 2 apply Forall_expr_scale]; apply Forall_lpSum_map.
  - intros s Hs. apply Forall_scaled_var. by apply P_z.
  - intros i Hi. apply Forall_expr_var. by apply P_y.
Qed.

Lemma Cap_vars_ok : Forall (vars_ok P) Cap_constraints.
Proof.
  apply Forall_map_intro. intros i Hi. apply vars_ok_named.
  - apply Forall_lpSum_map. intros s Hs. apply Forall_expr_var. by apply P_x.
  - apply Forall_scaled_var. by apply P_y.
Qed.

Lemma Req_vars_ok : Forall (vars_ok P) Req_constraints.
Proof.
  apply Forall_flat_map_intro. intros s Hs.
  apply Forall_flat_map_intro. intros r Hr.
  destruct (dict_mem I_by_role r); [|by constructor].
  constructor; [|by constructor]. apply vars_ok_named.
  - apply Forall_lpSum_map. intros i Hi. apply Forall_expr_var.
    apply P_x; [|done]. by apply (I_by_role_members r).
  - apply Forall_scaled_var. by apply P_z.
Qed.

Lemma RoleCap_vars_ok (rolecap : list (string * LpConstraint)) :
  RoleCap_constraints = Ok rolecap -> Forall (vars_ok P) rolecap.
Proof.
  unfold RoleCap_constraints.
  apply (foldM_invariant RoleCap_step (Forall (vars_ok P))); [|by constructor].
  intros acc r acc' _ Hacc. unfold RoleCap_step.
  destruct (dict_mem I_by_role r); [|by intros [= <-]].
  destruct (subscript role_cap_eff r) as [c|e]; simpl; [|done].
  intros [= <-]. apply Forall_app. split; [done|].
  constructor; [|by constructor]. apply vars_ok_named; [|by constructor].
  unfold lpSum. apply Forall_expr_vars_foldl; [by constructor|].
  intros e He. apply list_elem_of_In, in_flat_map in He as (s & Hs & He).
  apply list_elem_of_In in Hs. apply list_elem_of_In in He.
  apply list_elem_of_fmap in He as (i & -> & Hi).
  apply Forall_expr_var. apply P_x; [|done]. by apply (I_by_role_members r).
Qed.

Lemma Owner_vars_ok : Forall (vars_ok P) Owner_constraints.
Proof.
  apply Forall_flat_map_intro. intros s Hs. constructor.
  - apply vars_ok_named.
    + apply Forall_lpSum_map. intros i Hi. apply Forall_expr_var. by apply P_owner.
    + apply Forall_expr_var. by apply P_z.
  - apply Forall_map_intro. intros i Hi. apply vars_ok_named.
    + apply (Forall_lpSum_map P (fun e => e) [expr_var (var_x i s)]).
      intros e He. apply list_elem_of_singleton in He as ->.
      apply Forall_expr_var. apply P_x; [by apply devs_I_|done].
    + apply Forall_scaled_var. by apply P_owner.
Qed.

Lemma PointsCap_vars_ok : Forall (vars_ok P) PointsCap_constraints.
Proof.
  apply Forall_map_intro. intros i Hi. apply vars_ok_named; [|by constructor].
  apply Forall_lpSum_map. intros s Hs. apply Forall_scaled_var. by apply P_owner.
Qed.

Lemma Rel_vars_ok : Forall (vars_ok P) Rel_constraints.
Proof.
  apply Forall_flat_map_intro. intros i Hi.
  (constructor; [|constructor; [|by constructor]]); apply vars_ok_named.
  - apply Forall_expr_var. by apply P_rel.
  - apply Forall_lpSum_map. intros s Hs. apply Forall_expr_var. by apply P_owner.
  - apply Forall_expr_var. by apply P_rel.
  - apply Forall_expr_var. apply P_y. by apply devs_I_.
Qed.

Lemma Dep_vars_ok : Forall (vars_ok P) Dep_constraints.
Proof.
  apply Forall_flat_map_intro. intros [s p] Hsp. simpl.
  case_bool_decide as Hp; [|by constructor].
  constructor; [|by constructor].
  apply elem_of_deps in Hsp as (st & Hst & He & Heq & _). injection Heq as -> _.
  apply vars_ok_named; apply Forall_expr_var; apply P_z; [|done].
  apply elem_of_S_. by exists st.
Qed.

(** Every variable of the objective or of a constraint is one of: an hour
    variable of a person and an eligible story, a selection variable of an
    eligible story, an activity variable of a person, an owner variable of a
    developer and an eligible story, a release variable of a developer. *)
Lemma problem_vars_ok (pm : LpProblem) :
  m = Ok pm -> Forall P (problem_vars pm).
Proof.
  intros Hm. destruct (m_constraints pm Hm) as (rc & Hrc & Hobj & Hcs).
  unfold problem_vars. rewrite Hobj, Hcs. apply Forall_app.
  split; [apply objective_vars_ok|].
  apply Forall_flat_map.
  repeat (apply Forall_app; split);
    eauto using Cap_vars_ok, Req_vars_ok, RoleCap_vars_ok, Owner_vars_ok,
                PointsCap_vars_ok, Rel_vars_ok, Dep_vars_ok.
Qed.

End Occurrences.

(** The variables the script creates are indexed by people of [I] and
    eligible stories. *)
Lemma variables_ok (P : LpVariable -> Prop) :
  (forall i s, i ∈ I_ -> s ∈ S_ -> P (var_x i s)) ->
  (forall s, s ∈ S_ -> P (var_z s)) ->
  (forall i, i ∈ I_ -> P (var_y i)) ->
  (forall i s, i ∈ I_ -> s ∈ S_ -> P (var_owner i s)) ->
  (forall i, i ∈ I_ -> P (var_rel i)) ->
  forall d, d ∈ variables -> P (d_var d).
Proof.
  intros Hx Hz Hy Ho Hr d Hd. unfold variables in Hd.
  assert (Hpairs : forall k, k ∈ pairs_I_S -> k.1 ∈ I_ /\ k.2 ∈ S_).
  { intros [i s] Hk. unfold pairs_I_S in Hk.
    apply list_elem_of_In, in_flat_map in Hk as (i' & Hi' & Hk).
    apply list_elem_of_In in Hi'. apply list_elem_of_In in Hk.
    apply list_elem_of_fmap in Hk as (s' & [= -> ->] & Hs'). done. }
  repeat (apply elem_of_app in Hd as [Hd|Hd]);
    apply list_elem_of_fmap in Hd as (k & -> & Hk); simpl; auto.
  - apply Hpairs in Hk as [? ?]. by apply Hx.
  - apply Hpairs in Hk as [? ?]. by apply Ho.
Qed.

(** *** The output files *)

Lemma keeps_views_pbind {A B} (c : prog A) (k : A -> prog B) :
  keeps_views c -> (forall a, keeps_views (k a)) -> keeps_views (pbind c k).
Proof.
  intros Hc Hk fs fs' r. unfold pbind.
  destruct (c fs) as [fs1 [a|e]] eqn:Hcfs.
  - intros Hka. destruct (Hc _ _ _ Hcfs) as (H1 & H2 & H3).
    destruct (Hk a _ _ _ Hka) as (K1 & K2 & K3).
    by rewrite K1, K2, K3.
  - intros [= <- _]. by apply (Hc _ _ _ Hcfs).
Qed.

Lemma keeps_views_lift {A} (r : result A) : keeps_views (lift r).
Proof. by intros fs fs' r' [= <- _]. Qed.

Lemma keeps_views_f_write (line : summary_line) : keeps_views (f_write line).
Proof. by intros fs fs' r' [= <- _]. Qed.

Lemma keeps_views_open_summary : keeps_views open_summary.
Proof. by intros fs fs' r' [= <- _]. Qed.

Lemma write_summary_files (sol : solution) (n : nat) : keeps_views (write_summary sol n).
Proof.
  unfold write_summary.
  repeat lazymatch goal with
    | |- keeps_views (pbind _ _) => apply keeps_views_pbind; [|intros ?]
    | |- keeps_views (f_write _) => apply keeps_views_f_write
    | |- keeps_views open_summary => apply keeps_views_open_summary
    | |- keeps_views (lift _) => apply keeps_views_lift
    end.
Qed.

(** A view file that exists holds exactly the rows of its view. *)
Lemma outputs_files (sol : solution) (fs : files) (r : result unit) :
  outputs sol no_files = (fs, r) ->
  (forall rows, selected_stories_csv fs = Some rows -> sel sol = Ok rows) /\
  (forall rows, assignments_csv fs = Some rows -> rows = assign_rows sol) /\
  (forall rows, person_utilization_csv fs = Some rows -> util sol = Ok rows).
Proof.
  unfold outputs, pbind, lift, write_selected, write_assignments, write_utilization.
  simpl. destruct (sel sol) as [rows|e]; simpl; [|by intros [= <- _]].
  destruct (util sol) as [urows|e]; simpl.
  2:{ intros [= <- _]. simpl. repeat split; intros ? [=]; by subst. }
  match goal with
  | |- context [write_summary sol ?n ?f] =>
      destruct (write_summary sol n f) as [fs' r'] eqn:Hws
  end.
  apply write_summary_files in Hws as (H1 & H2 & H3). simpl in H1, H2, H3.
  assert (Hfs : fs = fs' ->
    (forall rows0, selected_stories_csv fs = Some rows0 -> Ok rows = Ok rows0) /\
    (forall rows0, assignments_csv fs = Some rows0 -> rows0 = assign_rows sol) /\
    (forall rows0, person_utilization_csv fs = Some rows0 -> Ok urows = Ok rows0)).
  { intros ->. rewrite H1, H2, H3. repeat split; intros ? [=]; by subst. }
  destruct r'; simpl; [|by intros [= <- _]; apply Hfs].
  destruct (format_obj sol); simpl; intros [= <- _]; by apply Hfs.
Qed.

Lemma sel_story_ids (sol : solution) (rows : list sel_row) :
  sel sol = Ok rows -> forall row, row ∈ rows -> sel_story_id row ∈ S_.
Proof.
  intros Hsel. apply Forall_forall. revert Hsel. unfold sel.
  apply (foldM_invariant (sel_step sol)
           (Forall (fun row => sel_story_id row ∈ S_))); [|by constructor].
  intros acc s acc' Hs Hacc. unfold sel_step.
  destruct (value_gt (varValue sol (var_z s)) (1 # 2)) as [[|]|e]; simpl;
    [|by intros [= <-]|done].
  destruct (find_owner sol s devs); simpl; [|done].
  intros [= <-]. apply Forall_app. split; [done|]. by repeat constructor.
Qed.

Lemma assign_story_ids (sol : solution) (row : assign_row) :
  row ∈ assign_rows sol -> as_story_id row ∈ S_.
Proof.
  unfold assign_rows. intros Hrow.
  apply list_elem_of_In, in_flat_map in Hrow as (i & _ & Hrow).
  apply in_flat_map in Hrow as (s & Hs & Hrow). apply list_elem_of_In in Hs.
  destruct (varValue sol (var_x i s)) as [hrs|]; [|done].
  destruct (negb (Qeq_bool hrs 0) && Qltb (1 # 10000) hrs); [|done].
  destruct Hrow as [<-|[]]. done.
Qed.

(** *** Forbidden points *)

Lemma story_id_unique (st st' : story_row) :
  NoDup S_all -> st ∈ story_rows -> st' ∈ story_rows ->
  s_story_id st = s_story_id st' -> st = st'.
Proof.
  unfold S_all. induction story_rows as [|st0 l IH]; intros Hnd Hst Hst' Heq.
  - by apply elem_of_nil in Hst.
  - simpl in Hnd. apply NoDup_cons in Hnd as [Hnotin Hnd].
    assert (Hin : forall t, t ∈ l -> s_story_id t ∈ map s_story_id l).
    { intros t Ht. apply list_elem_of_fmap. by exists t. }
    apply elem_of_cons in Hst as [->|Hst]; apply elem_of_cons in Hst' as [->|Hst'].
    + done.
    + destruct Hnotin. rewrite Heq. by apply Hin.
    + destruct Hnotin. rewrite <- Heq. by apply Hin.
    + by apply IH.
Qed.

Lemma forbidden_not_in_S_ (st : story_row) :
  NoDup S_all -> st ∈ story_rows -> s_points st ∈ forbid_points ->
  s_story_id st ∉ S_.
Proof.
  intros Hnd Hst Hf Hin. apply elem_of_S_ in Hin as (st' & Hst' & He & Heq).
  assert (st' = st) as -> by (by apply story_id_unique).
  by apply eligible_iff in He.
Qed.

(** C8: a story whose points are forbidden is not among the eligible
    stories; no created variable is indexed by it; no variable of the
    objective or of a constraint is indexed by it, so no precedence
    constraint names it as predecessor; and no row of the selection or
    assignment file carries it (story identifiers being distinct). *)
Theorem forbidden_story_absent (st : story_row) :
  NoDup S_all -> st ∈ story_rows -> s_points st ∈ forbid_points ->
  (s_story_id st ∉ S_) /\
  (forall d, d ∈ variables -> var_story (d_var d) <> Some (s_story_id st)) /\
  (forall pm, m = Ok pm ->
     (forall v, v ∈ problem_vars pm -> var_story v <> Some (s_story_id st)) /\
     (forall s name sense,
        named name (expr_var (var_z s)) sense (expr_var (var_z (s_story_id st)))
        ∉ constraints pm)) /\
  (forall sol fs r, outputs sol no_files = (fs, r) ->
     (forall rows row, selected_stories_csv fs = Some rows -> row ∈ rows ->
                       sel_story_id row <> s_story_id st) /\
     (forall rows row, assignments_csv fs = Some rows -> row ∈ rows ->
                       as_story_id row <> s_story_id st)).
Proof.
  intros Hnd Hst Hf.
  pose proof (forbidden_not_in_S_ st Hnd Hst Hf) as Hnot.
  set (P := fun v => var_story v <> Some (s_story_id st)).
  assert (Px : forall i s, s ∈ S_ -> P (var_x i s))
    by (intros i s Hs [= ->]; done).
  assert (Pz : forall s, s ∈ S_ -> P (var_z s))
    by (intros s Hs [= ->]; done).
  assert (Py : forall i, P (var_y i)) by (intros i [=]).
  assert (Po : forall i s, s ∈ S_ -> P (var_owner i s))
    by (intros i s Hs [= ->]; done).
  assert (Pr : forall i, P (var_rel i)) by (intros i [=]).
  assert (Hvars : forall pm, m = Ok pm ->
            forall v, v ∈ problem_vars pm -> P v).
  { intros pm Hm. apply Forall_forall. apply problem_vars_ok; auto. }
  split; [done|]. split; [|split].
  - intros d Hd. apply (variables_ok P); auto.
  - intros pm Hm. split; [by apply Hvars|].
    intros s name sense Hin.
    apply (Hvars pm Hm (var_z (s_story_id st))); [|done].
    unfold problem_vars. apply elem_of_app. right.
    apply list_elem_of_In, in_flat_map. eexists. split; [by apply list_elem_of_In|].
    simpl. unfold constraint_vars. simpl. right. by left.
  - intros sol fs r Hout.
    destruct (outputs_files sol fs r Hout) as (Hsel & Has & _).
    split; intros rows row Hrows Hrow Heq; apply Hnot; rewrite <- Heq.
    + by apply (sel_story_ids sol rows); [apply Hsel|].
    + apply (assign_story_ids sol). by rewrite <- (Has rows).
Qed.

(** *** Owner variables *)

(** C9 (amended): an owner variable is created for every person and every
    eligible story, whatever the person's role; the owner variables that
    occur in the objective or in a constraint are those of BE and FE
    people only. *)
Theorem owner_vars_used_only_for_developers (pm : LpProblem) :
  m = Ok pm ->
  (forall i s, i ∈ I_ -> s ∈ S_ -> var_owner i s ∈ map d_var variables) /\
  (forall i s, var_owner i s ∈ problem_vars pm ->
               i ∈ I_ /\ role_of !!! i ∈ ["BE"; "FE"]).
Proof.
  intros Hm. split.
  - intros i s Hi Hs. apply list_elem_of_fmap.
    exists (LpVariable_dicts (var_owner i s) (Some 0%Q) (Some 1%Q) LpBinary).
    split; [done|]. by apply owner_declared.
  - intros i s Hin. apply elem_of_devs.
    set (P := fun v => forall i s, v = var_owner i s -> i ∈ devs).
    assert (HP : Forall P (problem_vars pm)).
    { apply problem_vars_ok; [| | | | |done]; unfold P.
      - intros ? ? _ _ ? ? [=].
      - intros ? _ ? ? [=].
      - intros ? _ ? ? [=].
      - by intros ? ? Hd _ ? ? [= -> _].
      - intros ? _ ? ? [=]. }
    by apply (proj1 (Forall_forall _ _) HP _ Hin i s).
Qed.

(** *** Result extraction *)

(** For a person of capacity 0 whose hour values are all present, line 188
    divides by zero. *)
Lemma util_step_zero_capacity (sol : solution) (acc : list util_row) (i : string) (u : Q) :
  used_of sol i = Ok u -> (cap_i !!! i == 0)%Q ->
  util_step sol acc i = Raise ZeroDivisionError.
Proof.
  intros Hu Hc. unfold util_step. rewrite Hu. simpl. unfold truediv.
  apply Qeq_bool_iff in Hc. by rewrite Hc.
Qed.

(** [pl.value(rel[i] or 0.0) > 0.5] never raises: a variable without a value
    counts as 0. *)
Lemma value_or_zero_gt (v : option Q) :
  value_gt (value_or_zero v) (1 # 2)
  = Ok (match v with
        | Some q => Qltb (1 # 2) q
        | None => false
        end).
Proof.
  destruct v as [q|]; [|reflexivity].
  assert (Hsmall : (q <= 1 # 2)%Q -> Qltb (1 # 2) q = false).
  { intros Hle. unfold Qltb. apply negb_false_iff. by apply Qle_bool_iff. }
  unfold value_or_zero, var_bool, roundedValue.
  destruct (Qle_bool (Qabs (q - inject_Z (round_half_even q))) (1 # 100000)) eqn:Habs.
  - destruct (Qeq_bool (inject_Z (round_half_even q)) 0) eqn:Hr; simpl; [|done].
    apply Qle_bool_iff, Qabs_Qle_condition in Habs as [_ Hup].
    apply Qeq_bool_iff in Hr. rewrite Hsmall; [done|]. lra.
  - destruct (Qeq_bool q 0) eqn:Hq; simpl; [|done].
    apply Qeq_bool_iff in Hq. rewrite Hsmall; [done|]. lra.
Qed.

Lemma foldM_total {A B} (f : B -> A -> result B) (l : list A) (acc : B) :
  (forall b a, a ∈ l -> exists b', f b a = Ok b') ->
  exists res, foldM f acc l = Ok res.
Proof.
  revert acc. induction l as [|a l IH]; intros acc Hf; simpl.
  - by eexists.
  - destruct (Hf acc a) as [b' Hb']; [by left|]. rewrite Hb'. simpl.
    apply IH. intros b a' Ha'. apply Hf. by right.
Qed.

Lemma value_gt_total (v : option Q) (c : Q) :
  is_Some v -> exists b, value_gt v c = Ok b.
Proof. intros [q ->]. by eexists. Qed.

(** ** Further properties of the model *)

(** *** Sums *)

Lemma eval_expr_scale (a : assignment) (c : Q) (e : LpAffineExpression) :
  (eval a (expr_scale c e) == c * eval a e)%Q.
Proof.
  unfold expr_scale. destruct (Qeq_bool c 0) eqn:Hc.
  { apply Qeq_bool_iff in Hc. unfold eval, expr_const. simpl. rewrite Hc. ring. }
  unfold eval. simpl.
  induction (e_terms e) as [|t ts IH]; simpl.
  - ring.
  - assert (Hts : (eval_terms a (map (fun t0 => ((c * t0.1)%Q, t0.2)) ts)
                   == c * eval_terms a ts - c * e_constant e + c * e_constant e)%Q)
      by (clear - IH; lra).
    lra.
Qed.

Lemma eval_expr_const (a : assignment) (c : Q) : (eval a (expr_const c) == c)%Q.
Proof. unfold eval, expr_const. simpl. ring. Qed.

Lemma sum_over_nonneg {A} (g : A -> Q) (l : list A) :
  (forall k, k ∈ l -> (0 <= g k)%Q) -> (0 <= sum_over g l)%Q.
Proof.
  induction l as [|k l IH]; intros Hg; simpl; [lra|].
  assert (0 <= g k)%Q by (apply Hg; by left).
  assert (0 <= sum_over g l)%Q by (apply IH; intros k' Hk'; apply Hg; by right).
  lra.
Qed.

Lemma sum_over_elem_le {A} (g : A -> Q) (l : list A) (k : A) :
  (forall k', k' ∈ l -> (0 <= g k')%Q) -> k ∈ l -> (g k <= sum_over g l)%Q.
Proof.
  induction l as [|k0 l IH]; intros Hg Hk; [by apply elem_of_nil in Hk|].
  simpl.
  assert (H0 : (0 <= g k0)%Q) by (apply Hg; by left).
  assert (Hl : (0 <= sum_over g l)%Q)
    by (apply sum_over_nonneg; intros k' Hk'; apply Hg; by right).
  apply elem_of_cons in Hk as [->|Hk]; [lra|].
  assert (g k <= sum_over g l)%Q by (apply IH; [intros k' Hk'; apply Hg; by right|done]).
  lra.
Qed.

Lemma sum_over_ext {A} (g h : A -> Q) (l : list A) :
  (forall k, k ∈ l -> (g k == h k)%Q) -> (sum_over g l == sum_over h l)%Q.
Proof.
  induction l as [|k l IH]; intros Hgh; simpl; [reflexivity|].
  rewrite (Hgh k) by (by left). rewrite IH; [reflexivity|].
  intros k' Hk'. apply Hgh. by right.
Qed.

Lemma sum_over_app {A} (g : A -> Q) (l1 l2 : list A) :
  (sum_over g (l1 ++ l2) == sum_over g l1 + sum_over g l2)%Q.
Proof.
  induction l1 as [|k l1 IH]; simpl; [ring|]. rewrite IH. ring.
Qed.

Lemma sum_over_map {A B} (f : A -> B) (g : B -> Q) (l : list A) :
  sum_over g (map f l) = sum_over (fun k => g (f k)) l.
Proof. induction l as [|k l IH]; simpl; [done|]. by rewrite IH. Qed.

Lemma sum_over_flat_map {A B} (f : A -> list B) (g : B -> Q) (l : list A) :
  (sum_over g (flat_map f l) == sum_over (fun k => sum_over g (f k)) l)%Q.
Proof.
  induction l as [|k l IH]; simpl; [reflexivity|].
  rewrite sum_over_app, IH. reflexivity.
Qed.

Lemma eval_lpSum_map {A} (a : assignment) (f : A -> LpAffineExpression) (l : list A) :
  (eval a (lpSum (map f l)) == sum_over (fun k => eval a (f k)) l)%Q.
Proof. rewrite eval_lpSum. by rewrite sum_over_map. Qed.

(** *** The remaining constraint groups *)

Lemma x_declared (i s : string) :
  i ∈ I_ -> s ∈ S_ ->
  LpVariable_dicts (var_x i s) (Some 0%Q) None LpContinuous ∈ variables.
Proof.
  intros Hi Hs. unfold variables. apply elem_of_app. left.
  apply list_elem_of_fmap. exists (i, s). split; [done|]. by apply elem_of_pairs_I_S.
Qed.

Lemma x_nonneg (pm : LpProblem) (a : assignment) (i s : string) :
  feasible variables pm a -> i ∈ I_ -> s ∈ S_ -> (0 <= a (var_x i s))%Q.
Proof.
  intros [Hdom _] Hi Hs.
  destruct (Hdom _ (x_declared i s Hi Hs)) as (Hlo & _). by apply Hlo.
Qed.

Lemma Cap_in_problem (pm : LpProblem) (i : string) :
  m = Ok pm -> i ∈ I_ ->
  named ("Cap_" +:+ i) (lpSum (map (fun s => expr_var (var_x i s)) S_)) LpLE
        (expr_scale (cap_i !!! i) (expr_var (var_y i)))
  ∈ constraints pm.
Proof.
  intros Hm Hi. destruct (m_constraints pm Hm) as (rc & _ & _ & ->).
  apply elem_of_app. left. unfold Cap_constraints.
  apply list_elem_of_fmap. by exists i.
Qed.

Lemma Req_in_problem (pm : LpProblem) (s r : string) :
  m = Ok pm -> s ∈ S_ -> r ∈ ROLES -> dict_mem I_by_role r = true ->
  named ("Req_" +:+ r +:+ "_" +:+ s)
        (lpSum (map (fun i => expr_var (var_x i s)) (I_by_role !!! r))) LpGE
        (expr_scale (req !!! (s, r)) (expr_var (var_z s)))
  ∈ constraints pm.
Proof.
  intros Hm Hs Hr Hmem. destruct (m_constraints pm Hm) as (rc & _ & _ & ->).
  apply elem_of_app. right. apply elem_of_app. left. unfold Req_constraints.
  apply list_elem_of_In, in_flat_map. exists s. split; [by apply list_elem_of_In|].
  apply in_flat_map. exists r. split; [by apply list_elem_of_In|].
  rewrite Hmem. by left.
Qed.

Lemma OwnerHours_in_problem (pm : LpProblem) (i s : string) :
  m = Ok pm -> i ∈ devs -> s ∈ S_ ->
  named ("OwnerHours_" +:+ i +:+ "_" +:+ s) (lpSum [expr_var (var_x i s)]) LpGE
        (expr_scale theta_release_hours (expr_var (var_owner i s)))
  ∈ constraints pm.
Proof.
  intros Hm Hi Hs. apply Owner_in_problem; [done|]. unfold Owner_constraints.
  apply list_elem_of_In, in_flat_map. exists s. split; [by apply list_elem_of_In|].
  right. apply list_elem_of_In, list_elem_of_fmap. by exists i.
Qed.

Lemma PointsCap_in_problem (pm : LpProblem) (d : string) :
  m = Ok pm -> d ∈ devs ->
  named ("PointsCap_" +:+ d)
        (lpSum (map (fun s =>
           expr_scale (inject_Z (points !!! s)) (expr_var (var_owner d s))) S_))
        LpLE (expr_const (inject_Z max_points_per_dev))
  ∈ constraints pm.
Proof.
  intros Hm Hd. destruct (m_constraints pm Hm) as (rc & _ & _ & ->).
  do 4 (apply elem_of_app; right). apply elem_of_app. left.
  unfold PointsCap_constraints. apply list_elem_of_fmap. by exists d.
Qed.

Lemma I_by_role_total (r : string) : I_by_role !!! r = people_of r.
Proof.
  rewrite lookup_total_alt. change inhabitant with (@nil string).
  apply I_by_role_lookup.
Qed.

(** *** Which roles have an entry in [I_by_role] *)

Lemma I_by_role_append_keys (d : gmap string (list string)) (l : list string)
    (r : string) :
  is_Some (foldl I_by_role_append d l !! r) <->
  is_Some (d !! r) \/ exists i, i ∈ l /\ role_of !!! i = r.
Proof.
  revert d. induction l as [|i l IH]; intros d; simpl.
  - split; [by left|]. intros [?|(i & Hi & _)]; [done|by apply elem_of_nil in Hi].
  - rewrite IH. unfold I_by_role_append, defaultdict_getitem.
    assert (Hstep : is_Some ((let '(l0, d') :=
                      match d !! (role_of !!! i) with
                      | Some l0 => (l0, d)
                      | None => ([], <[role_of !!! i:=[]]> d)
                      end in <[role_of !!! i:=l0 ++ [i]]> d') !! r)
                    <-> is_Some (d !! r) \/ role_of !!! i = r).
    { destruct (d !! (role_of !!! i)) as [l0|] eqn:Hd;
        destruct (decide (role_of !!! i = r)) as [Heq|Hne].
      - rewrite Heq. rewrite lookup_insert_eq. split; [by right|by eexists].
      - rewrite lookup_insert_ne by done. tauto.
      - rewrite Heq. rewrite lookup_insert_eq. split; [by right|by eexists].
      - rewrite !lookup_insert_ne by done. tauto. }
    rewrite Hstep. split.
    + intros [[?|Heq]|(i' & Hi' & Heq)]; [by left| |].
      * right. exists i. split; [by left|done].
      * right. exists i'. split; [by right|done].
    + intros [?|(i' & Hi' & Heq)]; [by left; left|].
      apply elem_of_cons in Hi' as [->|Hi']; [by left; right|].
      right. by exists i'.
Qed.

Lemma role_cap_step_keys_inv (st : gmap string Q * gmap string (list string))
    (l : list string) (r : string) :
  is_Some ((foldl role_cap_step st l).2 !! r) -> r ∈ l \/ is_Some (st.2 !! r).
Proof.
  revert st. induction l as [|r' l IH]; intros st; simpl; [by right|].
  intros Hsome. apply IH in Hsome as [Hin|Hsome]; [left; by right|].
  unfold role_cap_step, defaultdict_getitem in Hsome.
  destruct (st.2 !! r') as [l0|] eqn:Hr'; simpl in Hsome; [by right|].
  destruct (decide (r' = r)) as [->|Hne]; [left; by left|].
  rewrite lookup_insert_ne in Hsome by done. by right.
Qed.

Lemma people_of_nonempty (r : string) :
  people_of r <> [] <-> exists i, i ∈ I_ /\ role_of !!! i = r.
Proof.
  unfold people_of. split.
  - intros Hne. destruct (filter _ I_) as [|i l] eqn:Hf; [done|].
    assert (Hi : i ∈ filter (fun i => role_of !!! i = r) I_) by (rewrite Hf; by left).
    apply list_elem_of_filter in Hi as [? ?]. by exists i.
  - intros (i & Hi & Hr) Hnil.
    assert (Hin : i ∈ filter (fun i => role_of !!! i = r) I_)
      by (by apply list_elem_of_filter).
    rewrite Hnil in Hin. by apply elem_of_nil in Hin.
Qed.

Lemma dict_mem_I_by_role (r : string) :
  dict_mem I_by_role r = true <-> r ∈ R \/ people_of r <> [].
Proof.
  unfold dict_mem. rewrite bool_decide_eq_true, people_of_nonempty. split.
  - intros Hsome. unfold I_by_role in Hsome.
    apply role_cap_step_keys_inv in Hsome as [?|Hsome]; [by left|]. right.
    simpl in Hsome. unfold I_by_role_53 in Hsome.
    apply I_by_role_append_keys in Hsome as [Hnil|?]; [|done].
    rewrite lookup_empty in Hnil. by destruct Hnil.
  - intros [Hr|Hp]; unfold I_by_role; apply role_cap_step_keys; [by left|right].
    simpl. unfold I_by_role_53. apply I_by_role_append_keys. by right.
Qed.

Lemma people_of_I_ (r i : string) : i ∈ people_of r -> i ∈ I_.
Proof. unfold people_of. intros Hi. by apply list_elem_of_filter in Hi as [_ ?]. Qed.

(** *** Capacity, coverage, ownership hours and points *)

Lemma Cap_holds (pm : LpProblem) (a : assignment) (i : string) :
  m = Ok pm -> feasible variables pm a -> i ∈ I_ ->
  (sum_over (fun s => a (var_x i s)) S_ <= (cap_i !!! i) * a (var_y i))%Q.
Proof.
  intros Hm Hfeas Hi.
  pose proof (proj2 Hfeas _ (Cap_in_problem pm i Hm Hi)) as Hcap.
  unfold holds in Hcap. simpl in Hcap.
  by rewrite eval_lpSum_vars, eval_expr_scale, eval_expr_var in Hcap.
Qed.

Lemma Req_holds (pm : LpProblem) (a : assignment) (s r : string) :
  m = Ok pm -> feasible variables pm a -> s ∈ S_ -> r ∈ ROLES ->
  r ∈ R \/ people_of r <> [] ->
  ((req !!! (s, r)) * a (var_z s)
   <= sum_over (fun i => a (var_x i s)) (people_of r))%Q.
Proof.
  intros Hm Hfeas Hs Hr Hmem. apply dict_mem_I_by_role in Hmem.
  pose proof (proj2 Hfeas _ (Req_in_problem pm s r Hm Hs Hr Hmem)) as Hreq.
  unfold holds in Hreq. simpl in Hreq.
  rewrite eval_lpSum_vars, eval_expr_scale, eval_expr_var in Hreq.
  by rewrite I_by_role_total in Hreq.
Qed.

Lemma OwnerHours_holds (pm : LpProblem) (a : assignment) (i s : string) :
  m = Ok pm -> feasible variables pm a -> i ∈ devs -> s ∈ S_ ->
  (theta_release_hours * a (var_owner i s) <= a (var_x i s))%Q.
Proof.
  intros Hm Hfeas Hi Hs.
  pose proof (proj2 Hfeas _ (OwnerHours_in_problem pm i s Hm Hi Hs)) as Hoh.
  unfold holds in Hoh. simpl in Hoh.
  rewrite (eval_lpSum_map a (fun e => e) [expr_var (var_x i s)]) in Hoh.
  simpl in Hoh. rewrite eval_expr_scale, !eval_expr_var in Hoh. lra.
Qed.

(** X5: per-person capacity (lines 109-111): under every feasible assignment
    the hours of a person over all eligible stories are at most the
    person's capacity times the activity flag, and an inactive person
    spends no hours on any story. *)
Theorem person_capacity (pm : LpProblem) (a : assignment) (i : string) :
  m = Ok pm -> feasible variables pm a -> i ∈ I_ ->
  (sum_over (fun s => a (var_x i s)) S_ <= (cap_i !!! i) * a (var_y i))%Q /\
  ((a (var_y i) == 0)%Q -> forall s, s ∈ S_ -> (a (var_x i s) == 0)%Q).
Proof.
  intros Hm Hfeas Hi. pose proof (Cap_holds pm a i Hm Hfeas Hi) as Hcap.
  split; [done|]. intros Hy s Hs.
  assert (Hnn : forall s', s' ∈ S_ -> (0 <= a (var_x i s'))%Q)
    by (intros s' Hs'; by apply (x_nonneg pm)).
  pose proof (sum_over_elem_le (fun s => a (var_x i s)) S_ s Hnn Hs) as Hle.
  simpl in Hle. specialize (Hnn s Hs). rewrite Hy in Hcap.
  apply Qle_antisym; lra.
Qed.

(** X6: role coverage (lines 113-117): for an eligible story and one of the five
    roles that has a record or a person, the hours of the people of that
    role on the story are at least the required hours times the selection
    flag. *)
Theorem role_coverage (pm : LpProblem) (a : assignment) (s r : string) :
  m = Ok pm -> feasible variables pm a -> s ∈ S_ -> r ∈ ROLES ->
  r ∈ R \/ people_of r <> [] ->
  ((req !!! (s, r)) * a (var_z s)
   <= sum_over (fun i => a (var_x i s)) (people_of r))%Q.
Proof. apply Req_holds. Qed.

(** X7: a role with a record and no person (lines 90, 113-117): line 90 gives it
    an empty list in [I_by_role], so its coverage constraint is built with
    nothing on the left, and a story that requires hours of that role is
    selected under no feasible assignment. *)
Theorem role_without_people_blocks (pm : LpProblem) (a : assignment) (s r : string) :
  m = Ok pm -> feasible variables pm a -> s ∈ S_ -> r ∈ ROLES ->
  r ∈ R -> people_of r = [] -> (0 < req !!! (s, r))%Q ->
  (a (var_z s) == 0)%Q.
Proof.
  intros Hm Hfeas Hs Hr HR Hnone Hpos.
  pose proof (Req_holds pm a s r Hm Hfeas Hs Hr (or_introl HR)) as Hcov.
  rewrite Hnone in Hcov. simpl in Hcov.
  destruct (binary_respected a (var_z s) (proj1 Hfeas _ (z_declared s Hs)))
    as [H0|H1]; [done|].
  rewrite H1 in Hcov. lra.
Qed.

(** X10: ownership hours (lines 128-130): a developer spends on a story at least
    the release threshold times the developer's owner flag for it. *)
Theorem owner_hours (pm : LpProblem) (a : assignment) (i s : string) :
  m = Ok pm -> feasible variables pm a -> i ∈ devs -> s ∈ S_ ->
  (theta_release_hours * a (var_owner i s) <= a (var_x i s))%Q.
Proof. apply OwnerHours_holds. Qed.

(** X11: with a positive release threshold, the owner of a story is active and
    has a capacity of at least the threshold (lines 109-111 and 128-130
    together). *)
Theorem owner_is_active (pm : LpProblem) (a : assignment) (i s : string) :
  m = Ok pm -> feasible variables pm a -> i ∈ devs -> s ∈ S_ ->
  (0 < theta_release_hours)%Q -> (a (var_owner i s) == 1)%Q ->
  (a (var_y i) == 1)%Q /\ (theta_release_hours <= cap_i !!! i)%Q.
Proof.
  intros Hm Hfeas Hi Hs Hth Hown.
  pose proof (devs_I_ i Hi) as HiI.
  pose proof (OwnerHours_holds pm a i s Hm Hfeas Hi Hs) as Hoh. rewrite Hown in Hoh.
  pose proof (Cap_holds pm a i Hm Hfeas HiI) as Hcap.
  assert (Hnn : forall s', s' ∈ S_ -> (0 <= a (var_x i s'))%Q)
    by (intros s' Hs'; by apply (x_nonneg pm)).
  pose proof (sum_over_elem_le (fun s => a (var_x i s)) S_ s Hnn Hs) as Hle.
  simpl in Hle.
  destruct (binary_respected a (var_y i) (proj1 Hfeas _ (y_declared i HiI)))
    as [H0|H1].
  - rewrite H0 in Hcap. lra.
  - split; [done|]. rewrite H1 in Hcap. lra.
Qed.

(** *** Building the problem *)

Lemma RoleCap_fold_outcome (acc : list (string * LpConstraint)) (l : list string) :
  (exists res,
     foldM RoleCap_step acc l = Ok res /\
     (forall nc, nc ∈ res <->
        nc ∈ acc \/
        exists r c, r ∈ l /\ dict_mem I_by_role r = true /\
                    role_cap_eff !! r = Some c /\ nc = RoleCap_constraint r c) /\
     (forall r, r ∈ l -> dict_mem I_by_role r = true ->
                is_Some (role_cap_eff !! r))) \/
  (foldM RoleCap_step acc l = Raise KeyError /\
   exists r, r ∈ l /\ dict_mem I_by_role r = true /\ role_cap_eff !! r = None).
Proof.
  revert acc. induction l as [|r l IH]; intros acc.
  - left. exists acc. split; [done|]. split.
    + intros nc. split; [by left|].
      intros [?|(r & c & Hr & _)]; [done|by apply elem_of_nil in Hr].
    + intros r Hr. by apply elem_of_nil in Hr.
  - simpl. unfold RoleCap_step at 1. unfold RoleCap_step at 2.
    destruct (dict_mem I_by_role r) eqn:Hmem.
    + unfold subscript. destruct (role_cap_eff !! r) as [c|] eqn:Hc; simpl.
      * destruct (IH (acc ++ [RoleCap_constraint r c]))
          as [(res & Hres & Hin & Hall)|(Hres & r' & Hr' & Hm' & Hn')].
        -- left. exists res. split; [done|]. split.
           ++ intros nc. rewrite Hin, elem_of_app, list_elem_of_singleton. split.
              ** intros [[?| ->]|(r' & c' & Hr' & ?)]; [by left| |].
                 --- right. exists r, c. split; [by left|done].
                 --- right. exists r', c'. split; [by right|done].
              ** intros [?|(r' & c' & Hr' & Hm' & Hc' & ->)]; [by left; left|].
                 apply elem_of_cons in Hr' as [->|Hr'].
                 --- left; right. congruence.
                 --- right. by exists r', c'.
           ++ intros r' Hr' Hm'. apply elem_of_cons in Hr' as [->|Hr'];
                [by rewrite Hc|by apply Hall].
        -- right. split; [done|]. exists r'. split; [by right|done].
      * right. split; [done|]. exists r. split; [by left|done].
    + simpl. destruct (IH acc)
        as [(res & Hres & Hin & Hall)|(Hres & r' & Hr' & Hm' & Hn')].
      * left. exists res. split; [done|]. split.
        -- intros nc. rewrite Hin. split.
           ++ intros [?|(r' & c' & Hr' & ?)]; [by left|].
              right. exists r', c'. split; [by right|done].
           ++ intros [?|(r' & c' & Hr' & Hm' & Hc' & ->)]; [by left|].
              apply elem_of_cons in Hr' as [->|Hr']; [congruence|].
              right. by exists r', c'.
        -- intros r' Hr' Hm'. apply elem_of_cons in Hr' as [->|Hr'];
             [congruence|by apply Hall].
      * right. split; [done|]. exists r'. split; [by right|done].
Qed.









Lemma RoleCap_in_problem (pm : LpProblem) (r : string) :
  m = Ok pm -> r ∈ ROLES -> r ∈ R \/ people_of r <> [] ->
  exists c, role_cap_eff !! r = Some c /\ RoleCap_constraint r c ∈ constraints pm.
Proof.
  intros Hm Hr Hmem. apply dict_mem_I_by_role in Hmem.
  destruct (m_constraints pm Hm) as (rc & Hrc & _ & ->).
  unfold RoleCap_constraints in Hrc.
  destruct (RoleCap_fold_outcome [] ROLES)
    as [(res & Hres & Hin & Hall)|(Hres & _)]; [|congruence].
  assert (res = rc) as -> by congruence.
  destruct (Hall r Hr Hmem) as [c Hc]. exists c. split; [done|].
  do 2 (apply elem_of_app; right). apply elem_of_app. left.
  apply Hin. right. by exists r, c.
Qed.

Lemma RoleCap_holds (pm : LpProblem) (a : assignment) (r : string) :
  m = Ok pm -> feasible variables pm a -> r ∈ ROLES ->
  r ∈ R \/ people_of r <> [] ->
  exists c, role_cap_eff !! r = Some c /\
    (sum_over (fun s => sum_over (fun i => a (var_x i s)) (people_of r)) S_ <= c)%Q.
Proof.
  intros Hm Hfeas Hr Hmem.
  destruct (RoleCap_in_problem pm r Hm Hr Hmem) as (c & Hc & Hin).
  exists c. split; [done|].
  pose proof (proj2 Hfeas _ Hin) as Hle. unfold holds in Hle. simpl in Hle.
  rewrite eval_lpSum, sum_over_flat_map, eval_expr_const in Hle.
  rewrite I_by_role_total in Hle.
  rewrite (sum_over_ext _ (fun s => sum_over (fun i => a (var_x i s)) (people_of r)))
    in Hle; [done|].
  intros s _. rewrite sum_over_map. apply sum_over_ext.
  intros i _. apply eval_expr_var.
Qed.

(** X8: aggregate role capacity (lines 119-122): for one of the five roles that
    has a record or a person, the hours of its people over all eligible
    stories are at most [role_cap_eff] of the role. *)
Theorem role_capacity (pm : LpProblem) (a : assignment) (r : string) :
  m = Ok pm -> feasible variables pm a -> r ∈ ROLES ->
  r ∈ R \/ people_of r <> [] ->
  exists c, role_cap_eff !! r = Some c /\
    (sum_over (fun s => sum_over (fun i => a (var_x i s)) (people_of r)) S_ <= c)%Q.
Proof. apply RoleCap_holds. Qed.

Lemma negative_role_capacity (pm : LpProblem) (a : assignment)
    (r : string) (c : Q) :
  m = Ok pm -> r ∈ ROLES -> r ∈ R \/ people_of r <> [] ->
  role_cap_eff !! r = Some c -> (c < 0)%Q ->
  ~ feasible variables pm a.
Proof.
  intros Hm Hr Hmem Hc Hneg Hfeas.
  destruct (RoleCap_holds pm a r Hm Hfeas Hr Hmem) as (c' & Hc' & Hle).
  assert (c' = c) as -> by congruence.
  assert (Hnn : (0 <= sum_over (fun s =>
                   sum_over (fun i => a (var_x i s)) (people_of r)) S_)%Q).
  { apply sum_over_nonneg. intros s Hs. apply sum_over_nonneg. intros i Hi.
    apply (x_nonneg pm); [done| |done]. by apply (people_of_I_ r). }
  lra.
Qed.

(** X9: a bug reserve larger than a role's capacity (lines 91-94 and 119-122):
    when [role_cap_eff] of such a role is negative, no assignment is
    feasible. *)
Theorem negative_capacity_infeasible (pm : LpProblem) (a : assignment)
    (r : string) (c : Q) :
  m = Ok pm -> r ∈ ROLES -> r ∈ R \/ people_of r <> [] ->
  role_cap_eff !! r = Some c -> (c < 0)%Q ->
  ~ feasible variables pm a.
Proof. apply negative_role_capacity. Qed.

(** *** Points per owner *)

Lemma sum_over_weighted_count {A} (c : A -> Z) (g : A -> Q) (l : list A) :
  (forall k, k ∈ l -> (g k == 0)%Q \/ (g k == 1)%Q) ->
  (sum_over (fun k => inject_Z (c k) * g k) l
   == inject_Z (foldr (fun k acc => (c k + acc)%Z) 0%Z
                      (filter (fun k => Qeq_bool (g k) 1 = true) l)))%Q.
Proof.
  induction l as [|k l IH]; intros Hbin; simpl; [reflexivity|].
  rewrite filter_cons.
  assert (IH' := IH (fun k' Hk' => Hbin k' (list_elem_of_further _ _ _ Hk'))).
  destruct (decide (Qeq_bool (g k) 1 = true)) as [Hone|Hnone].
  - apply Qeq_bool_iff in Hone. simpl. rewrite inject_Z_plus, IH', Hone. ring.
  - destruct (Hbin k) as [Hz|Hone]; [by left| |].
    + rewrite IH', Hz. ring.
    + destruct Hnone. by apply Qeq_bool_iff.
Qed.

(** X12: workload cap per owner (lines 132-134): under every feasible assignment
    the points of the stories a developer owns add up to at most
    [max_points_per_dev]. *)
Theorem points_cap (pm : LpProblem) (a : assignment) (d : string) :
  m = Ok pm -> feasible variables pm a -> d ∈ devs ->
  (points_owned a d <= max_points_per_dev)%Z.
Proof.
  intros Hm Hfeas Hd.
  pose proof (proj2 Hfeas _ (PointsCap_in_problem pm d Hm Hd)) as Hle.
  unfold holds in Hle. simpl in Hle.
  rewrite eval_lpSum_map, eval_expr_const in Hle.
  rewrite (sum_over_ext _ (fun s => inject_Z (points !!! s) * a (var_owner d s))%Q)
    in Hle by (intros s _; by rewrite eval_expr_scale, eval_expr_var).
  rewrite (sum_over_weighted_count (fun s => points !!! s)
             (fun s => a (var_owner d s))) in Hle.
  - unfold points_owned, owned. by rewrite Zle_Qle.
  - intros s Hs. apply binary_respected, (proj1 Hfeas).
    apply owner_declared; [by apply devs_I_|done].
Qed.

(** *** The empty plan *)

Lemma sum_over_zero {A} (g : A -> Q) (l : list A) :
  (forall k, k ∈ l -> (g k == 0)%Q) -> (sum_over g l == 0)%Q.
Proof.
  induction l as [|k l IH]; intros Hg; simpl; [reflexivity|].
  rewrite (Hg k) by (by left). rewrite IH; [ring|].
  intros k' Hk'. apply Hg. by right.
Qed.

Lemma eval_zero_var (v : LpVariable) : (eval zero_plan (expr_var v) == 0)%Q.
Proof. by rewrite eval_expr_var. Qed.

Lemma eval_zero_scaled (c : Q) (v : LpVariable) :
  (eval zero_plan (expr_scale c (expr_var v)) == 0)%Q.
Proof. rewrite eval_expr_scale, eval_expr_var. unfold zero_plan. ring. Qed.

Lemma eval_zero_lpSum_map {A} (f : A -> LpAffineExpression) (l : list A) :
  (forall k, k ∈ l -> (eval zero_plan (f k) == 0)%Q) ->
  (eval zero_plan (lpSum (map f l)) == 0)%Q.
Proof. intros Hf. rewrite eval_lpSum_map. by apply sum_over_zero. Qed.

Lemma holds_zero_named (name : string) (lhs rhs : LpAffineExpression)
    (sense : LpSense) :
  (eval zero_plan lhs == 0)%Q -> (eval zero_plan rhs == 0)%Q ->
  holds zero_plan (named name lhs sense rhs).2.
Proof.
  intros Hl Hr. unfold holds, named. destruct sense; cbn [snd c_sense c_lhs c_rhs];
    rewrite Hl, Hr; [apply Qle_refl|apply Qle_refl|reflexivity].
Qed.

Lemma zero_plan_respects (d : LpVarDecl) :
  d ∈ variables -> respects zero_plan d.
Proof.
  intros Hd. unfold variables in Hd.
  assert (Hint : exists k : Z, (0 == inject_Z k)%Q) by (by exists 0%Z).
  repeat (apply elem_of_app in Hd as [Hd|Hd]);
    apply list_elem_of_fmap in Hd as (k & -> & _);
    (split; [|split]); simpl; unfold zero_plan;
    try (intros ? [= <-]); try done.
Qed.

(** X14: selecting nothing (lines 96-145): when no bug reserve exceeds the
    capacity of its role and [max_points_per_dev] is not negative, the plan
    that selects no story, activates nobody and spends no hours is
    feasible. *)
Theorem zero_plan_feasible (pm : LpProblem) :
  m = Ok pm ->
  (0 <= max_points_per_dev)%Z ->
  (forall r c, r ∈ ROLES -> r ∈ R \/ people_of r <> [] ->
               role_cap_eff !! r = Some c -> (0 <= c)%Q) ->
  feasible variables pm zero_plan.
Proof.
  intros Hm Hmax Hcap. split; [apply zero_plan_respects|].
  intros nc Hnc. destruct (m_constraints pm Hm) as (rc & Hrc & _ & Hcs).
  rewrite Hcs in Hnc. rewrite !elem_of_app in Hnc.
  destruct Hnc as [Hnc|[Hnc|[Hnc|[Hnc|[Hnc|[Hnc|Hnc]]]]]].
  - apply list_elem_of_fmap in Hnc as (i & -> & _).
    apply holds_zero_named; [|apply eval_zero_scaled].
    apply eval_zero_lpSum_map. intros s _. apply eval_zero_var.
  - apply list_elem_of_In, in_flat_map in Hnc as (s & _ & Hnc).
    apply in_flat_map in Hnc as (r & _ & Hnc).
    destruct (dict_mem I_by_role r); [|done]. destruct Hnc as [<-|[]].
    apply holds_zero_named; [|apply eval_zero_scaled].
    apply eval_zero_lpSum_map. intros i _. apply eval_zero_var.
  - unfold RoleCap_constraints in Hrc.
    destruct (RoleCap_fold_outcome [] ROLES)
      as [(res & Hres & Hin & _)|(Hres & _)]; [|congruence].
    assert (res = rc) as -> by congruence.
    apply Hin in Hnc as [Hnil|(r & c & Hr & Hmem & Hc & ->)];
      [by apply elem_of_nil in Hnil|].
    unfold holds. simpl. rewrite eval_lpSum, eval_expr_const.
    rewrite sum_over_zero.
    + apply (Hcap r c Hr); [by apply dict_mem_I_by_role|done].
    + intros e He. apply list_elem_of_In, in_flat_map in He as (s & _ & He).
      apply list_elem_of_In, list_elem_of_fmap in He as (i & -> & _).
      apply eval_zero_var.
  - apply list_elem_of_In, in_flat_map in Hnc as (s & _ & Hnc).
    destruct Hnc as [<-|Hnc].
    + apply holds_zero_named; [|apply eval_zero_var].
      apply eval_zero_lpSum_map. intros i _. apply eval_zero_var.
    + apply list_elem_of_In, list_elem_of_fmap in Hnc as (i & -> & _).
      apply holds_zero_named; [|apply eval_zero_scaled].
      apply (eval_zero_lpSum_map (fun e => e) [expr_var (var_x i s)]).
      intros e He. apply list_elem_of_singleton in He as ->. apply eval_zero_var.
  - apply list_elem_of_fmap in Hnc as (d & -> & _).
    unfold holds. simpl. rewrite eval_expr_const, eval_zero_lpSum_map.
    + change 0%Q with (inject_Z 0). by rewrite <- Zle_Qle.
    + intros s _. apply eval_zero_scaled.
  - apply list_elem_of_In, in_flat_map in Hnc as (d & _ & Hnc).
    destruct Hnc as [<-|[<-|[]]].
    + apply holds_zero_named; [apply eval_zero_var|].
      apply eval_zero_lpSum_map. intros s _. apply eval_zero_var.
    + apply holds_zero_named; apply eval_zero_var.
  - apply list_elem_of_In, in_flat_map in Hnc as ([s p] & _ & Hnc). simpl in Hnc.
    case_bool_decide; [|done]. destruct Hnc as [<-|[]].
    apply holds_zero_named; apply eval_zero_var.
Qed.

(** ** Further properties of the result extraction *)

(** *** The selection view *)

Lemma find_owner_spec (sol : solution) (s : string) (ds : list string)
    (o : option string) :
  find_owner sol s ds = Ok o ->
  match o with
  | Some i =>
      exists before after q,
        ds = before ++ i :: after /\
        varValue sol (var_owner i s) = Some q /\ Qltb (1 # 2) q = true /\
        forall j, j ∈ before ->
          exists q', varValue sol (var_owner j s) = Some q' /\ Qltb (1 # 2) q' = false
  | None =>
      forall i, i ∈ ds ->
        exists q, varValue sol (var_owner i s) = Some q /\ Qltb (1 # 2) q = false
  end.
Proof.
  revert o. induction ds as [|i ds IH]; intros o; simpl.
  - intros [= <-]. intros i Hi. by apply elem_of_nil in Hi.
  - destruct (varValue sol (var_owner i s)) as [q|] eqn:Hq; simpl; [|done].
    destruct (Qltb (1 # 2) q) eqn:Hlt.
    + intros [= <-]. exists [], ds, q. split; [done|]. split; [done|].
      split; [done|]. intros j Hj. by apply elem_of_nil in Hj.
    + intros Hfind. specialize (IH o Hfind). destruct o as [i'|].
      * destruct IH as (before & after & q' & -> & Hq' & Hlt' & Hbefore).
        exists (i :: before), after, q'. split; [done|]. split; [done|].
        split; [done|]. intros j Hj.
        apply elem_of_cons in Hj as [->|Hj]; [by exists q|by apply Hbefore].
      * intros i' Hi'. apply elem_of_cons in Hi' as [->|Hi']; [by exists q|by apply IH].
Qed.

Lemma sel_fold_ids (sol : solution) (l : list string) (acc rows : list sel_row) :
  foldM (sel_step sol) acc l = Ok rows ->
  map sel_story_id rows
  = map sel_story_id acc ++ filter (fun s => chosen sol s = true) l.
Proof.
  revert acc. induction l as [|s l IH]; intros acc; simpl.
  - intros [= <-]. by rewrite app_nil_r.
  - unfold sel_step at 1. rewrite filter_cons.
    assert (Hch : chosen sol s = match varValue sol (var_z s) with
                                 | Some q => Qltb (1 # 2) q
                                 | None => false
                                 end) by done.
    destruct (varValue sol (var_z s)) as [q|]; simpl; [|done].
    destruct (Qltb (1 # 2) q); simpl.
    + rewrite decide_True by done.
      destruct (find_owner sol s devs) as [o|]; simpl; [|done].
      intros Hrows. rewrite (IH _ Hrows), map_app. simpl.
      by rewrite <- app_assoc.
    + rewrite decide_False by (rewrite Hch; done). apply IH.
Qed.

Lemma sel_fold_rows (sol : solution) (l : list string) (acc rows : list sel_row)
    (P : sel_row -> Prop) :
  (forall s o, s ∈ l -> chosen sol s = true -> find_owner sol s devs = Ok o ->
     P {| sel_story_id := s; sel_points := points !!! s;
          sel_value := value !!! s; sel_owner := o |}) ->
  Forall P acc -> foldM (sel_step sol) acc l = Ok rows -> Forall P rows.
Proof.
  intros HP. apply foldM_invariant. intros b s b' Hs Hb. unfold sel_step.
  pose proof (HP s) as HPs. unfold chosen in HPs.
  destruct (varValue sol (var_z s)) as [q|]; simpl; [|done].
  destruct (Qltb (1 # 2) q); simpl; [|by intros [= <-]].
  destruct (find_owner sol s devs) as [o|]; simpl; [|done].
  intros [= <-]. apply Forall_app. split; [done|]. repeat constructor. by apply HPs.
Qed.

(** X15: the selection view (lines 156-165): when it is produced, its rows are
    the eligible stories whose selection value exceeds 0.5, in the order of
    the story file, each with the points and value of the story; the owner
    column is the first developer, in the order of the people file, whose
    owner value for the story exceeds 0.5, and is empty only if no
    developer's does. *)
Theorem selection_view (sol : solution) (rows : list sel_row) :
  sel sol = Ok rows ->
  map sel_story_id rows = filter (fun s => chosen sol s = true) S_ /\
  forall row, row ∈ rows ->
    sel_points row = points !!! sel_story_id row /\
    sel_value row = value !!! sel_story_id row /\
    match sel_owner row with
    | Some i =>
        exists before after q,
          devs = before ++ i :: after /\
          varValue sol (var_owner i (sel_story_id row)) = Some q /\
          Qltb (1 # 2) q = true /\
          forall j, j ∈ before ->
            exists q', varValue sol (var_owner j (sel_story_id row)) = Some q' /\
                       Qltb (1 # 2) q' = false
    | None =>
        forall i, i ∈ devs ->
          exists q, varValue sol (var_owner i (sel_story_id row)) = Some q /\
                    Qltb (1 # 2) q = false
    end.
Proof.
  intros Hsel. split; [by apply (sel_fold_ids sol S_ [])|].
  apply Forall_forall. revert Hsel.
  apply sel_fold_rows; [|by constructor].
  intros s o _ _ Hfind. simpl. split; [done|]. split; [done|].
  by apply find_owner_spec.
Qed.

(** *** The assignment view *)

(** X16: the assignment view (lines 173-178) never raises: it has one row for
    each person and eligible story whose hour variable has a value above
    1e-4, with the person's role and the hours rounded to two digits, and
    none for a variable without a value. *)
Theorem assignment_view (sol : solution) (row : assign_row) :
  row ∈ assign_rows sol <->
  exists i s hrs,
    i ∈ I_ /\ s ∈ S_ /\ varValue sol (var_x i s) = Some hrs /\
    (1 # 10000 < hrs)%Q /\
    row = {| as_person := i; as_role := role_of !!! i; as_story_id := s;
             as_hours := py_round hrs 2 |}.
Proof.
  assert (Hlt : forall hrs, negb (Qeq_bool hrs 0) && Qltb (1 # 10000) hrs = true
                            <-> (1 # 10000 < hrs)%Q).
  { intros hrs. unfold Qltb. rewrite andb_true_iff, !negb_true_iff.
    split.
    - intros [_ Hle]. apply Qnot_le_lt. intros Hle'.
      apply Qle_bool_iff in Hle'. congruence.
    - intros Hlt. split.
      + destruct (Qeq_bool hrs 0) eqn:Heq; [|done].
        apply Qeq_bool_iff in Heq. lra.
      + destruct (Qle_bool hrs (1 # 10000)) eqn:Hle; [|done].
        apply Qle_bool_iff in Hle. lra. }
  unfold assign_rows. rewrite list_elem_of_In, in_flat_map. split.
  - intros (i & Hi & Hrow). apply in_flat_map in Hrow as (s & Hs & Hrow).
    apply list_elem_of_In in Hi. apply list_elem_of_In in Hs.
    destruct (varValue sol (var_x i s)) as [hrs|] eqn:Hv; [|done].
    destruct (negb (Qeq_bool hrs 0) && Qltb (1 # 10000) hrs) eqn:Hb; [|done].
    destruct Hrow as [<-|[]]. exists i, s, hrs. by rewrite <- Hlt.
  - intros (i & s & hrs & Hi & Hs & Hv & Hgt & ->).
    exists i. split; [by apply list_elem_of_In|].
    apply in_flat_map. exists s. split; [by apply list_elem_of_In|].
    rewrite Hv. apply Hlt in Hgt. rewrite Hgt. by left.
Qed.

(** *** The utilization view *)

(** What one pass of line 188 needs and gives. *)
Lemma util_step_row (sol : solution) (acc acc' : list util_row) (i : string) :
  util_step sol acc i = Ok acc' ->
  exists u q,
    used_of sol i = Ok u /\ ~ (cap_i !!! i == 0)%Q /\
    varValue sol (var_y i) = Some q /\
    acc' = acc ++ [{| u_person := i; u_role := role_of !!! i;
                      u_hours_used := py_round (or_zero u) 2;
                      u_capacity := cap_i !!! i;
                      u_utilization := py_round (or_zero u / (cap_i !!! i)) 3;
                      u_active := int_of_bool (Qltb (1 # 2) q);
                      u_release :=
                        int_of_bool (match varValue sol (var_rel i) with
                                     | Some r => Qltb (1 # 2) r
                                     | None => false
                                     end) |}].
Proof.
  unfold util_step. rewrite value_or_zero_gt.
  destruct (used_of sol i) as [u|]; simpl; [|done]. unfold truediv.
  destruct (Qeq_bool (cap_i !!! i) 0) eqn:Hq; simpl; [done|].
  destruct (varValue sol (var_y i)) as [q|]; simpl; [|done].
  intros [= <-]. exists u, q. split; [done|]. split; [|done].
  intros Hz. apply Qeq_bool_iff in Hz. congruence.
Qed.

Lemma util_fold_people (sol : solution) (l : list string) (acc rows : list util_row) :
  foldM (util_step sol) acc l = Ok rows ->
  map u_person rows = map u_person acc ++ l.
Proof.
  revert acc. induction l as [|i l IH]; intros acc; simpl.
  - intros [= <-]. by rewrite app_nil_r.
  - destruct (util_step sol acc i) as [acc'|e] eqn:Hstep; simpl; [|done].
    intros Hrows. rewrite (IH _ Hrows).
    apply util_step_row in Hstep as (u & q & _ & _ & _ & ->).
    rewrite map_app. simpl. by rewrite <- app_assoc.
Qed.

Lemma used_of_total (sol : solution) (i : string) :
  (forall s, s ∈ S_ -> is_Some (varValue sol (var_x i s))) ->
  exists u, used_of sol i = Ok u.
Proof.
  intros Hvv. apply foldM_total. intros b s Hs.
  destruct (Hvv s Hs) as [q ->]. by eexists.
Qed.

Lemma util_step_outcome (sol : solution) (acc : list util_row) (i : string) :
  (forall s, s ∈ S_ -> is_Some (varValue sol (var_x i s))) ->
  (~ (cap_i !!! i == 0)%Q -> is_Some (varValue sol (var_y i))) ->
  if Qeq_bool (cap_i !!! i) 0
  then util_step sol acc i = Raise ZeroDivisionError
  else exists row, util_step sol acc i = Ok (acc ++ [row]).
Proof.
  intros Hx Hy. unfold util_step. rewrite value_or_zero_gt.
  destruct (used_of_total sol i Hx) as [u ->]. simpl. unfold truediv.
  destruct (Qeq_bool (cap_i !!! i) 0) eqn:Hq; [done|]. simpl.
  destruct Hy as [q ->].
  { intros Hz. apply Qeq_bool_iff in Hz. congruence. }
  simpl. by eexists.
Qed.

(** The view over a list of people whose hour values are there, and whose
    activity values are there unless their capacity is 0. *)
Lemma util_fold_outcome (sol : solution) (l : list string) (acc : list util_row) :
  (forall i s, i ∈ l -> s ∈ S_ -> is_Some (varValue sol (var_x i s))) ->
  (forall i, i ∈ l -> ~ (cap_i !!! i == 0)%Q -> is_Some (varValue sol (var_y i))) ->
  (foldM (util_step sol) acc l = Raise ZeroDivisionError /\
   exists i, i ∈ l /\ (cap_i !!! i == 0)%Q) \/
  ((exists rows, foldM (util_step sol) acc l = Ok rows) /\
   forall i, i ∈ l -> ~ (cap_i !!! i == 0)%Q).
Proof.
  revert acc. induction l as [|i l IH]; intros acc Hx Hy; simpl.
  - right. split; [by eexists|]. intros i Hi. by apply elem_of_nil in Hi.
  - assert (Hstep := util_step_outcome sol acc i
                       (fun s => Hx i s (list_elem_of_here _ _))
                       (Hy i (list_elem_of_here _ _))).
    destruct (Qeq_bool (cap_i !!! i) 0) eqn:Hq.
    + rewrite Hstep. simpl. left. split; [done|]. exists i.
      split; [by left|by apply Qeq_bool_iff].
    + destruct Hstep as (row & ->). simpl.
      destruct (IH (acc ++ [row])) as [(Hr & i' & Hi' & Hz)|(Hok & Hall)].
      * intros i' s Hi'. apply Hx. by right.
      * intros i' Hi'. apply Hy. by right.
      * left. split; [done|]. exists i'. split; [by right|done].
      * right. split; [done|]. intros i' Hi'.
        apply elem_of_cons in Hi' as [->|Hi']; [|by apply Hall].
        intros Hz. apply Qeq_bool_iff in Hz. congruence.
Qed.

(** X17: the utilization view (lines 185-188), when every variable has a value:
    it is produced exactly when no person has capacity 0, and raises
    [ZeroDivisionError] exactly when some person has. *)
Theorem utilization_view_outcome (sol : solution) :
  (forall v, is_Some (varValue sol v)) ->
  ((exists rows, util sol = Ok rows) <->
   (forall i, i ∈ I_ -> ~ (cap_i !!! i == 0)%Q)) /\
  (util sol = Raise ZeroDivisionError <->
   (exists i, i ∈ I_ /\ (cap_i !!! i == 0)%Q)).
Proof.
  intros Hvv. unfold util.
  destruct (util_fold_outcome sol I_ [] (fun i s _ _ => Hvv _) (fun i _ _ => Hvv _))
    as [(Hr & i & Hi & Hz)|([rows Hok] & Hall)].
  - rewrite Hr. split.
    + split; [by intros [? [=]]|]. intros Hall. by destruct (Hall i Hi).
    + split; [|done]. intros _. by exists i.
  - rewrite Hok. split.
    + split; [done|]. intros _. by exists rows.
    + split; [done|]. intros (i & Hi & Hz). by destruct (Hall i Hi).
Qed.

(** X18: the utilization view (lines 185-188), whenever it is produced: it has
    one row per person, in the order of the people file; the capacity
    column of each row is the person's capacity, which is not 0; the
    active column is 1 exactly when the person's activity variable has a
    value above 0.5; and the release column is 1 exactly when the person's
    release variable has a value above 0.5: a release variable without a
    value gives 0, it does not stop the script. *)
Theorem utilization_view_rows (sol : solution) (rows : list util_row) :
  util sol = Ok rows ->
  map u_person rows = I_ /\
  forall row, row ∈ rows ->
    u_capacity row = cap_i !!! u_person row /\
    u_role row = role_of !!! u_person row /\
    ~ (u_capacity row == 0)%Q /\
    (exists q, varValue sol (var_y (u_person row)) = Some q /\
               u_active row = int_of_bool (Qltb (1 # 2) q)) /\
    u_release row
    = int_of_bool (match varValue sol (var_rel (u_person row)) with
                   | Some r => Qltb (1 # 2) r
                   | None => false
                   end).
Proof.
  intros Hutil. split; [by apply (util_fold_people sol I_ [])|].
  apply Forall_forall. revert Hutil. unfold util.
  apply foldM_invariant; [|by constructor].
  intros acc i acc' _ Hacc Hstep.
  apply util_step_row in Hstep as (u & q & _ & Hc & Hq & ->).
  apply Forall_app. split; [done|]. constructor; [|by constructor]. simpl.
  split; [done|]. split; [done|]. split; [done|]. split; [by exists q|done].
Qed.


(** ** What the solver is given *)

(** *** The variables of the problem *)

Lemma e_terms_foldl_add (e0 : LpAffineExpression) (es : list LpAffineExpression) :
  e_terms (foldl expr_add e0 es) = e_terms e0 ++ flat_map e_terms es.
Proof.
  revert e0. induction es as [|e es IH]; intros e0; simpl.
  - by rewrite app_nil_r.
  - rewrite IH. simpl. by rewrite <- app_assoc.
Qed.

Lemma e_terms_lpSum (es : list LpAffineExpression) :
  e_terms (lpSum es) = flat_map e_terms es.
Proof. unfold lpSum. by rewrite e_terms_foldl_add. Qed.

Lemma expr_vars_lpSum_vars {A} (f : A -> LpVariable) (l : list A) :
  expr_vars (lpSum (map (fun k => expr_var (f k)) l)) = map f l.
Proof.
  unfold expr_vars. rewrite e_terms_lpSum.
  induction l as [|k l IH]; simpl; [done|]. by rewrite IH.
Qed.

Lemma constraint_var_in_problem (pm : LpProblem) (nc : string * LpConstraint)
    (v : LpVariable) :
  nc ∈ constraints pm -> v ∈ constraint_vars nc.2 -> v ∈ problem_vars pm.
Proof.
  intros Hnc Hv. unfold problem_vars. apply elem_of_app. right.
  apply list_elem_of_In, in_flat_map. exists nc.
  split; by apply list_elem_of_In.
Qed.

Lemma x_in_problem (pm : LpProblem) (i s : string) :
  m = Ok pm -> i ∈ I_ -> s ∈ S_ -> var_x i s ∈ problem_vars pm.
Proof.
  intros Hm Hi Hs.
  apply (constraint_var_in_problem pm _ _ (Cap_in_problem pm i Hm Hi)).
  unfold constraint_vars. simpl. apply elem_of_app. left.
  rewrite (expr_vars_lpSum_vars (fun s => var_x i s)).
  apply list_elem_of_fmap. by exists s.
Qed.

Lemma z_in_problem (pm : LpProblem) (s : string) :
  m = Ok pm -> s ∈ S_ -> var_z s ∈ problem_vars pm.
Proof.
  intros Hm Hs.
  apply (constraint_var_in_problem pm _ _
           (Owner_in_problem pm _ Hm (OwnerOne_in_Owner s Hs))).
  unfold constraint_vars. simpl. apply elem_of_app. right. by left.
Qed.

Lemma owner_in_problem (pm : LpProblem) (i s : string) :
  m = Ok pm -> i ∈ devs -> s ∈ S_ -> var_owner i s ∈ problem_vars pm.
Proof.
  intros Hm Hi Hs.
  apply (constraint_var_in_problem pm _ _
           (Owner_in_problem pm _ Hm (OwnerOne_in_Owner s Hs))).
  unfold constraint_vars. simpl. apply elem_of_app. left.
  rewrite (expr_vars_lpSum_vars (fun i => var_owner i s)).
  apply list_elem_of_fmap. by exists i.
Qed.

Lemma rel_in_problem (pm : LpProblem) (i : string) :
  m = Ok pm -> i ∈ devs -> var_rel i ∈ problem_vars pm.
Proof.
  intros Hm Hi. destruct (Rel_in_Rel i Hi) as [Hlink _].
  apply (constraint_var_in_problem pm _ _ (Rel_in_problem pm _ Hm Hlink)).
  unfold constraint_vars. simpl. by left.
Qed.

(** The activity variable of a person occurs in the capacity constraint
    unless the capacity is 0, which makes the right-hand side empty. *)
Lemma y_in_problem (pm : LpProblem) (i : string) :
  m = Ok pm -> i ∈ I_ -> ~ (cap_i !!! i == 0)%Q -> var_y i ∈ problem_vars pm.
Proof.
  intros Hm Hi Hc.
  apply (constraint_var_in_problem pm _ _ (Cap_in_problem pm i Hm Hi)).
  unfold constraint_vars. simpl. apply elem_of_app. right.
  rewrite expr_vars_expr_scale.
  destruct (Qeq_bool (cap_i !!! i) 0) eqn:Hq; [|by left].
  destruct Hc. by apply Qeq_bool_iff.
Qed.

Lemma objective_var_in_problem (pm : LpProblem) (v : LpVariable) :
  m = Ok pm -> v ∈ expr_vars objective_expr -> v ∈ problem_vars pm.
Proof.
  intros Hm Hv. destruct (m_constraints pm Hm) as (_ & _ & Hobj & _).
  unfold problem_vars. rewrite Hobj. apply elem_of_app. by left.
Qed.

(** The release variable of a person who is not a developer occurs
    nowhere. *)
Lemma rel_not_in_problem (pm : LpProblem) (i : string) :
  m = Ok pm -> i ∉ devs -> var_rel i ∉ problem_vars pm.
Proof.
  intros Hm Hi Hin.
  set (P := fun v => forall j, v = var_rel j -> j ∈ devs).
  assert (HP : Forall P (problem_vars pm)).
  { apply problem_vars_ok; [| | | | |done]; unfold P.
    - intros ? ? _ _ ? [=].
    - intros ? _ ? [=].
    - intros ? _ ? [=].
    - intros ? ? _ _ ? [=].
    - by intros ? Hd ? [= ->]. }
  apply Hi. by apply (proj1 (Forall_forall _ _) HP _ Hin i).
Qed.

(** *** The objective *)

Lemma flat_map_nil_iff {A B} (f : A -> list B) (l : list A) :
  flat_map f l = [] <-> forall k, k ∈ l -> f k = [].
Proof.
  induction l as [|k l IH]; simpl.
  - split; [|done]. intros _ k Hk. by apply elem_of_nil in Hk.
  - split.
    + intros Happ. apply app_eq_nil in Happ as [Hk Hl].
      intros k' Hk'. apply elem_of_cons in Hk' as [->|Hk']; [done|].
      by apply IH.
    + intros Hall. rewrite (Hall k) by (by left). simpl.
      apply IH. intros k' Hk'. apply Hall. by right.
Qed.

Lemma e_terms_scale_nil (c : Q) (e : LpAffineExpression) :
  e_terms (expr_scale c e) = [] <-> (c == 0)%Q \/ e_terms e = [].
Proof.
  unfold expr_scale. destruct (Qeq_bool c 0) eqn:Hc; simpl.
  - split; [|done]. intros _. left. by apply Qeq_bool_iff.
  - split.
    + intros Hnil. right. by destruct (e_terms e).
    + intros [Hz| ->]; [|done]. apply Qeq_bool_iff in Hz. congruence.
Qed.

(** The objective has no term exactly when every eligible story has value
    0 and the people penalty is 0 or there is nobody. *)
Lemma objective_constant :
  isNumericalConstant objective_expr = true <->
  (forall s, s ∈ S_ -> (value !!! s == 0)%Q) /\ ((lambda_people == 0)%Q \/ I_ = []).
Proof.
  assert (Hnil : isNumericalConstant objective_expr = true
                 <-> e_terms objective_expr = []).
  { unfold isNumericalConstant. by destruct (e_terms objective_expr). }
  rewrite Hnil. unfold objective_expr, expr_sub, expr_add. cbn [e_terms].
  split.
  - intros Happ. apply app_eq_nil in Happ as [Hz Hy]. split.
    + rewrite e_terms_lpSum, flat_map_nil_iff in Hz. intros s Hs.
      specialize (Hz (expr_scale (value !!! s) (expr_var (var_z s)))).
      rewrite e_terms_scale_nil in Hz. destruct Hz as [?|?]; [|done|done].
      apply list_elem_of_fmap. by exists s.
    + apply e_terms_scale_nil in Hy as [Hone|Hy]; [done|].
      apply e_terms_scale_nil in Hy as [?|Hy]; [by left|right].
      rewrite e_terms_lpSum in Hy. by destruct I_.
  - intros [Hz Hy].
    assert (H1 : e_terms (lpSum (map (fun s =>
                   expr_scale (value !!! s) (expr_var (var_z s))) S_)) = []).
    { rewrite e_terms_lpSum. apply flat_map_nil_iff. intros e He.
      apply list_elem_of_fmap in He as (s & -> & Hs).
      apply e_terms_scale_nil. left. by apply Hz. }
    assert (H2 : e_terms (expr_scale (-1) (expr_scale lambda_people
                   (lpSum (map (fun i => expr_var (var_y i)) I_)))) = []).
    { apply e_terms_scale_nil. right. apply e_terms_scale_nil.
      destruct Hy as [?| ->]; [by left|by right]. }
    by rewrite H1, H2.
Qed.

Lemma objective_with_term :
  objective_has_term -> isNumericalConstant objective_expr = false.
Proof.
  intros Hterm. destruct (isNumericalConstant objective_expr) eqn:Hc; [|done].
  apply objective_constant in Hc as [Hz Hy].
  destruct Hterm as [(s & Hs & Hv)|[Hl HI]].
  - destruct Hv. by apply Hz.
  - by destruct Hy.
Qed.

Lemma objective_without_term :
  ~ objective_has_term -> isNumericalConstant objective_expr = true.
Proof.
  intros Hno. apply objective_constant. split.
  - intros s Hs. destruct (Qeq_dec (value !!! s) 0) as [?|Hne]; [done|].
    destruct Hno. left. by exists s.
  - destruct (Qeq_dec lambda_people 0) as [?|Hne]; [by left|right].
    destruct (decide (I_ = [])) as [?|HI]; [done|]. destruct Hno. by right.
Qed.

(** *** Answers *)

Lemma reports_value (pm : LpProblem) (sol : solution) (a : assignment)
    (v : LpVariable) :
  reports pm sol a -> v ∈ problem_vars pm -> varValue sol v = Some (a v).
Proof. intros Hrep Hv. by rewrite Hrep, bool_decide_eq_true_2. Qed.

Lemma reports_valued (pm : LpProblem) (sol : solution) (a : assignment) :
  reports pm sol a -> valued pm sol.
Proof. intros Hrep v Hv. rewrite (reports_value pm sol a v Hrep Hv). by eexists. Qed.

Lemma sel_total (pm : LpProblem) (sol : solution) :
  m = Ok pm -> valued pm sol -> exists rows, sel sol = Ok rows.
Proof.
  intros Hm Hvv. apply foldM_total. intros acc s Hs. unfold sel_step.
  destruct (value_gt_total (varValue sol (var_z s)) (1 # 2)) as [b ->];
    [by apply Hvv, z_in_problem|].
  simpl. destruct b; [|by eexists].
  assert (Hfind : forall ds, (forall i, i ∈ ds -> i ∈ devs) ->
                    exists o, find_owner sol s ds = Ok o).
  { induction ds as [|i ds IH]; intros Hsub; simpl; [by eexists|].
    destruct (value_gt_total (varValue sol (var_owner i s)) (1 # 2)) as [b ->].
    { apply Hvv, owner_in_problem; [done| |done]. apply Hsub. by left. }
    simpl. destruct b; [by eexists|]. apply IH. intros j Hj. apply Hsub. by right. }
  destruct (Hfind devs) as [o ->]; [done|]. by eexists.
Qed.

Lemma util_outcome (pm : LpProblem) (sol : solution) :
  m = Ok pm -> valued pm sol ->
  (util sol = Raise ZeroDivisionError /\ exists i, i ∈ I_ /\ (cap_i !!! i == 0)%Q) \/
  ((exists rows, util sol = Ok rows) /\ forall i, i ∈ I_ -> ~ (cap_i !!! i == 0)%Q).
Proof.
  intros Hm Hvv. apply util_fold_outcome.
  - intros i s Hi Hs. by apply Hvv, x_in_problem.
  - intros i Hi Hc. by apply Hvv, y_in_problem.
Qed.

Lemma val_total_total (pm : LpProblem) (sol : solution) :
  m = Ok pm -> valued pm sol -> exists vt, val_total sol = Ok vt.
Proof.
  intros Hm Hvv. apply foldM_total. intros b s Hs.
  destruct (value_gt_total (varValue sol (var_z s)) (1 # 2)) as [b' ->];
    [by apply Hvv, z_in_problem|].
  by eexists.
Qed.

Lemma active_people_total (pm : LpProblem) (sol : solution) :
  m = Ok pm -> valued pm sol -> (forall i, i ∈ I_ -> ~ (cap_i !!! i == 0)%Q) ->
  exists n, active_people sol = Ok n.
Proof.
  intros Hm Hvv Hcap. apply foldM_total. intros b i Hi.
  destruct (value_gt_total (varValue sol (var_y i)) (1 # 2)) as [b' ->];
    [by apply Hvv, y_in_problem; [| |apply Hcap]|].
  by eexists.
Qed.

Lemma expr_value_valued (vv : LpVariable -> option Q) (e : LpAffineExpression) :
  (forall v, v ∈ expr_vars e -> is_Some (vv v)) -> is_Some (expr_value vv e).
Proof.
  unfold expr_value, expr_vars.
  generalize (e_constant e). induction (e_terms e) as [|t ts IH]; intros c Hvv; simpl.
  - by eexists.
  - destruct (Hvv t.2) as [q ->]; [by left|]. apply IH.
    intros v Hv. apply Hvv. by right.
Qed.

(** [pl.value(m.objective)] is a number exactly when the objective has a
    term. *)
Lemma format_obj_outcome (pm : LpProblem) (sol : solution) :
  m = Ok pm -> valued pm sol ->
  if isNumericalConstant objective_expr
  then format_obj sol = Raise TypeError
  else exists o, format_obj sol = Ok o.
Proof.
  intros Hm Hvv. unfold format_obj, obj.
  destruct (isNumericalConstant objective_expr); [done|].
  destruct (expr_value_valued (varValue sol) objective_expr) as [o ->]; [|by eexists].
  intros v Hv. by apply Hvv, objective_var_in_problem.
Qed.

(** ** Extraction of a feasible plan *)

Lemma filter_equiv_in {A} (P1 P2 : A -> Prop) `{!forall x, Decision (P1 x)}
    `{!forall x, Decision (P2 x)} (l : list A) :
  (forall x, x ∈ l -> P1 x <-> P2 x) -> filter P1 l = filter P2 l.
Proof.
  induction l as [|x l IH]; intros Heq; [done|].
  rewrite !filter_cons.
  rewrite IH by (intros y Hy; apply Heq; by right).
  destruct (decide (P1 x)) as [H1|H1]; destruct (decide (P2 x)) as [H2|H2];
    try done; exfalso; apply (Heq x) in H1 || apply (Heq x) in H2;
    try done; by left.
Qed.

Lemma binary_gt_half (q : Q) :
  (q == 0)%Q \/ (q == 1)%Q -> (Qltb (1 # 2) q = true <-> (q == 1)%Q).
Proof.
  intros Hbin. unfold Qltb. rewrite negb_true_iff. split.
  - intros Hle. destruct Hbin as [H0|H1]; [|done].
    assert (Hle' : Qle_bool q (1 # 2) = true) by (apply Qle_bool_iff; lra).
    congruence.
  - intros H1. destruct (Qle_bool q (1 # 2)) eqn:Hle; [|done].
    apply Qle_bool_iff in Hle. lra.
Qed.

Lemma OwnerOne_holds (pm : LpProblem) (a : assignment) (s : string) :
  m = Ok pm -> feasible variables pm a -> s ∈ S_ ->
  (sum_over (fun i => a (var_owner i s)) devs == a (var_z s))%Q.
Proof.
  intros Hm Hfeas Hs.
  pose proof (proj2 Hfeas _ (Owner_in_problem pm _ Hm (OwnerOne_in_Owner s Hs))) as Hone.
  unfold holds in Hone. simpl in Hone.
  by rewrite eval_lpSum_vars, eval_expr_var in Hone.
Qed.

Lemma chosen_reports (pm : LpProblem) (sol : solution) (a : assignment) (s : string) :
  m = Ok pm -> feasible variables pm a -> reports pm sol a -> s ∈ S_ ->
  chosen sol s = true <-> Qeq_bool (a (var_z s)) 1 = true.
Proof.
  intros Hm Hfeas Hrep Hs. unfold chosen.
  rewrite (reports_value pm sol a _ Hrep (z_in_problem pm s Hm Hs)), Qeq_bool_iff.
  apply binary_gt_half, binary_respected, (proj1 Hfeas). by apply z_declared.
Qed.

(** X22: the selection view of a feasible plan (lines 124-127 and 156-165): when
    the answer reports a feasible assignment for the variables of the
    problem, the view is produced, its rows are the stories with selection
    value 1, and every row names an owner, a developer whose owner value
    for the story is 1. *)
Theorem selection_of_feasible_plan (pm : LpProblem) (a : assignment) (sol : solution) :
  m = Ok pm -> feasible variables pm a -> reports pm sol a ->
  exists rows,
    sel sol = Ok rows /\
    map sel_story_id rows = filter (fun s => Qeq_bool (a (var_z s)) 1 = true) S_ /\
    forall row, row ∈ rows ->
      exists i, sel_owner row = Some i /\ i ∈ devs /\
                (a (var_owner i (sel_story_id row)) == 1)%Q.
Proof.
  intros Hm Hfeas Hrep.
  destruct (sel_total pm sol Hm (reports_valued pm sol a Hrep)) as [rows Hsel].
  exists rows. split; [done|]. split.
  - rewrite (sel_fold_ids sol S_ [] rows Hsel). simpl.
    apply filter_equiv_in. intros s Hs. by apply (chosen_reports pm).
  - apply Forall_forall. revert Hsel. unfold sel.
    apply sel_fold_rows; [|by constructor].
    intros s o Hs Hch Hfind. simpl.
    assert (Hbin : forall i, i ∈ devs ->
              (a (var_owner i s) == 0)%Q \/ (a (var_owner i s) == 1)%Q).
    { intros i Hi. apply binary_respected, (proj1 Hfeas).
      apply owner_declared; [by apply devs_I_|done]. }
    assert (Hval : forall i, i ∈ devs ->
              varValue sol (var_owner i s) = Some (a (var_owner i s))).
    { intros i Hi. apply (reports_value pm); [done|]. by apply owner_in_problem. }
    apply find_owner_spec in Hfind. destruct o as [i|].
    + destruct Hfind as (before & after & q & Hdevs & Hq & Hlt & _).
      assert (Hi : i ∈ devs).
      { rewrite Hdevs. apply elem_of_app. right. by left. }
      exists i. split; [done|]. split; [done|].
      rewrite (Hval i Hi) in Hq. injection Hq as <-.
      by apply binary_gt_half; [apply Hbin|].
    + exfalso.
      pose proof (OwnerOne_holds pm a s Hm Hfeas Hs) as Hone.
      rewrite sum_over_zero in Hone.
      * apply (chosen_reports pm sol a s Hm Hfeas Hrep Hs) in Hch.
        apply Qeq_bool_iff in Hch. rewrite Hch in Hone. lra.
      * intros i Hi. destruct (Hfind i Hi) as (q & Hq & Hlt).
        rewrite (Hval i Hi) in Hq. injection Hq as <-.
        destruct (Hbin i Hi) as [H0|H1]; [done|].
        apply binary_gt_half in H1; [congruence|by right].
Qed.

(** *** The figures of the summary *)

Lemma expr_value_fold (sol : solution) (a : assignment) (ts : list (Q * LpVariable))
    (c : Q) :
  (forall t, t ∈ ts -> varValue sol t.2 = Some (a t.2)) ->
  exists v,
    foldl (fun acc t =>
             match acc, varValue sol t.2 with
             | Some s, Some x => Some (s + x * t.1)%Q
             | _, _ => None
             end) (Some c) ts = Some v /\
    (v == eval_terms a ts + c)%Q.
Proof.
  revert c. induction ts as [|t ts IH]; intros c Hrep; simpl.
  - exists c. split; [done|]. ring.
  - rewrite Hrep by (by left).
    destruct (IH (c + a t.2 * t.1)%Q) as (v & -> & Hv).
    { intros t' Ht'. apply Hrep. by right. }
    exists v. split; [done|]. rewrite Hv. ring.
Qed.

Lemma expr_value_reports (sol : solution) (a : assignment) (e : LpAffineExpression) :
  (forall v, v ∈ expr_vars e -> varValue sol v = Some (a v)) ->
  exists v, expr_value (varValue sol) e = Some v /\ (v == eval a e)%Q.
Proof.
  intros Hrep. apply expr_value_fold. intros t Ht. apply Hrep.
  unfold expr_vars. apply list_elem_of_fmap. by exists t.
Qed.

Lemma eval_objective (a : assignment) :
  (eval a objective_expr
   == sum_over (fun s => (value !!! s) * a (var_z s)) S_
      - lambda_people * sum_over (fun i => a (var_y i)) I_)%Q.
Proof.
  unfold objective_expr, expr_sub.
  rewrite eval_expr_add, !eval_expr_scale, eval_lpSum_map, eval_lpSum_vars.
  rewrite (sum_over_ext _ (fun s => (value !!! s) * a (var_z s))%Q)
    by (intros s _; by rewrite eval_expr_scale, eval_expr_var).
  ring.
Qed.

Lemma val_total_fold (pm : LpProblem) (sol : solution) (a : assignment)
    (l : list string) (acc : Q) :
  m = Ok pm -> feasible variables pm a -> reports pm sol a ->
  (forall s, s ∈ l -> s ∈ S_) ->
  exists vt,
    foldM (fun acc s =>
             let* b := value_gt (varValue sol (var_z s)) (1 # 2) in
             Ok (if b then (acc + (value !!! s))%Q else acc)) acc l = Ok vt /\
    (vt == acc + sum_over (fun s => (value !!! s) * a (var_z s)) l)%Q.
Proof.
  intros Hm Hfeas Hrep. revert acc. induction l as [|s l IH]; intros acc Hsub; simpl.
  - exists acc. split; [done|]. ring.
  - assert (Hs : s ∈ S_) by (apply Hsub; by left).
    rewrite (reports_value pm sol a _ Hrep (z_in_problem pm s Hm Hs)). simpl.
    assert (Hbin : (a (var_z s) == 0)%Q \/ (a (var_z s) == 1)%Q)
      by (by apply binary_respected, (proj1 Hfeas), z_declared).
    pose proof (binary_gt_half _ Hbin) as Hhalf.
    destruct (Qltb (1 # 2) (a (var_z s))).
    + destruct (IH (acc + value !!! s)%Q) as (vt & -> & Hvt);
        [intros s' Hs'; apply Hsub; by right|].
      exists vt. split; [done|]. rewrite Hvt, (proj1 Hhalf eq_refl). ring.
    + destruct (IH acc) as (vt & -> & Hvt); [intros s' Hs'; apply Hsub; by right|].
      exists vt. split; [done|]. rewrite Hvt.
      destruct Hbin as [H0|H1]; [rewrite H0; ring|].
      apply Hhalf in H1. done.
Qed.

Lemma active_people_fold (pm : LpProblem) (sol : solution) (a : assignment)
    (l : list string) (acc : nat) :
  m = Ok pm -> feasible variables pm a -> reports pm sol a ->
  (forall i, i ∈ l -> i ∈ I_ /\ ~ (cap_i !!! i == 0)%Q) ->
  exists n,
    foldM (fun acc i =>
             let* b := value_gt (varValue sol (var_y i)) (1 # 2) in
             Ok (if b then (acc + 1)%nat else acc)) acc l = Ok n /\
    (inject_Z (Z.of_nat n)
     == inject_Z (Z.of_nat acc) + sum_over (fun i => a (var_y i)) l)%Q.
Proof.
  intros Hm Hfeas Hrep. revert acc. induction l as [|i l IH]; intros acc Hsub; simpl.
  - exists acc. split; [done|]. ring.
  - destruct (Hsub i) as [Hi Hc]; [by left|].
    rewrite (reports_value pm sol a _ Hrep (y_in_problem pm i Hm Hi Hc)). simpl.
    assert (Hbin : (a (var_y i) == 0)%Q \/ (a (var_y i) == 1)%Q)
      by (by apply binary_respected, (proj1 Hfeas), y_declared).
    pose proof (binary_gt_half _ Hbin) as Hhalf.
    destruct (Qltb (1 # 2) (a (var_y i))).
    + destruct (IH (acc + 1)%nat) as (n & -> & Hn);
        [intros i' Hi'; apply Hsub; by right|].
      exists n. split; [done|]. rewrite Hn, (proj1 Hhalf eq_refl).
      rewrite Nat2Z.inj_add, inject_Z_plus. simpl. ring.
    + destruct (IH acc) as (n & -> & Hn); [intros i' Hi'; apply Hsub; by right|].
      exists n. split; [done|]. rewrite Hn.
      destruct Hbin as [H0|H1]; [rewrite H0; ring|].
      apply Hhalf in H1. done.
Qed.

(** X24: the figures of the summary for a feasible plan (lines 107, 152 and
    197-201), nobody having capacity 0: the delivered value and the number
    of active people are computed, the delivered value is the total value
    of the stories weighted by their selection flags, and the number of
    active people is the sum of the activity flags.  When the objective
    has a term, line 197 formats the objective, which equals delivered
    value minus the people penalty times the number of active people; when
    it has none, [pl.value(m.objective)] is [None] and line 197 raises
    [TypeError]. *)
Theorem summary_figures (pm : LpProblem) (a : assignment) (sol : solution) :
  m = Ok pm -> feasible variables pm a -> reports pm sol a ->
  (forall i, i ∈ I_ -> ~ (cap_i !!! i == 0)%Q) ->
  exists vt n,
    val_total sol = Ok vt /\ active_people sol = Ok n /\
    (vt == sum_over (fun s => (value !!! s) * a (var_z s)) S_)%Q /\
    (inject_Z (Z.of_nat n) == sum_over (fun i => a (var_y i)) I_)%Q /\
    (objective_has_term ->
     exists o, format_obj sol = Ok o /\
               (o == vt - lambda_people * inject_Z (Z.of_nat n))%Q) /\
    (~ objective_has_term -> format_obj sol = Raise TypeError).
Proof.
  intros Hm Hfeas Hrep Hcap.
  destruct (val_total_fold pm sol a S_ 0%Q Hm Hfeas Hrep (fun s Hs => Hs))
    as (vt & Hvt & Hvte).
  destruct (active_people_fold pm sol a I_ 0%nat Hm Hfeas Hrep
              (fun i Hi => conj Hi (Hcap i Hi))) as (n & Hn & Hne).
  exists vt, n. split; [done|]. split; [done|].
  simpl in Hne.
  assert (Hvt' : (vt == sum_over (fun s => (value !!! s) * a (var_z s)) S_)%Q)
    by (rewrite Hvte; ring).
  assert (Hn' : (inject_Z (Z.of_nat n) == sum_over (fun i => a (var_y i)) I_)%Q)
    by (rewrite Hne; ring).
  split; [done|]. split; [done|]. split.
  - intros Hterm. unfold format_obj, obj. rewrite (objective_with_term Hterm).
    destruct (expr_value_reports sol a objective_expr) as (o & -> & Hoe).
    { intros v Hv. apply (reports_value pm); [done|].
      by apply objective_var_in_problem. }
    exists o. split; [done|]. rewrite Hoe, eval_objective, Hvt', Hn'. reflexivity.
  - intros Hno. unfold format_obj, obj. by rewrite (objective_without_term Hno).
Qed.

(** *** Rounding *)

Lemma round_half_even_lower (q : Q) (n : Z) :
  (inject_Z n <= q)%Q -> (n <= round_half_even q)%Z.
Proof.
  intros Hle. unfold round_half_even.
  assert (Hf : (n <= Qfloor q)%Z).
  { rewrite <- (Qfloor_Z n). by apply Qfloor_resp_le. }
  destruct (Qcompare _ _); [destruct (Z.even _)| |]; lia.
Qed.

Lemma round_half_even_upper (q : Q) (n : Z) :
  (q <= inject_Z n)%Q -> (round_half_even q <= n)%Z.
Proof.
  intros Hle. unfold round_half_even.
  assert (Hf : (Qfloor q <= n)%Z).
  { rewrite <- (Qfloor_Z n). by apply Qfloor_resp_le. }
  assert (Hup : (0 < q - inject_Z (Qfloor q))%Q -> (Qfloor q + 1 <= n)%Z).
  { intros Hpos. assert (Hlt : (inject_Z (Qfloor q) < inject_Z n)%Q) by lra.
    rewrite <- Zlt_Qlt in Hlt. lia. }
  destruct (Qcompare (q - inject_Z (Qfloor q)) (1 # 2)) eqn:Hc.
  - apply Qeq_alt in Hc. destruct (Z.even _); [done|]. apply Hup. lra.
  - done.
  - apply Qgt_alt in Hc. apply Hup. lra.
Qed.

Lemma py_round_lower (q : Q) (ndigits : nat) (lo : Z) :
  (inject_Z lo <= q)%Q -> (inject_Z lo <= py_round q ndigits)%Q.
Proof.
  intros Hlo. unfold py_round.
  set (p := (10 ^ Z.of_nat ndigits)%Z).
  assert (Hp : (0 < p)%Z) by (apply Z.pow_pos_nonneg; lia).
  assert (HP : (0 < inject_Z p)%Q).
  { change 0%Q with (inject_Z 0). by rewrite <- Zlt_Qlt. }
  rewrite Qred_correct.
  apply Qle_shift_div_l; [done|]. rewrite <- inject_Z_mult, <- Zle_Qle.
  apply round_half_even_lower. rewrite inject_Z_mult.
  by apply Qmult_le_compat_r; [|apply Qlt_le_weak].
Qed.

Lemma py_round_upper (q : Q) (ndigits : nat) (hi : Z) :
  (q <= inject_Z hi)%Q -> (py_round q ndigits <= inject_Z hi)%Q.
Proof.
  intros Hhi. unfold py_round.
  set (p := (10 ^ Z.of_nat ndigits)%Z).
  assert (Hp : (0 < p)%Z) by (apply Z.pow_pos_nonneg; lia).
  assert (HP : (0 < inject_Z p)%Q).
  { change 0%Q with (inject_Z 0). by rewrite <- Zlt_Qlt. }
  rewrite Qred_correct.
  apply Qle_shift_div_r; [done|]. rewrite <- inject_Z_mult, <- Zle_Qle.
  apply round_half_even_upper. rewrite inject_Z_mult.
  by apply Qmult_le_compat_r; [|apply Qlt_le_weak].
Qed.

Lemma or_zero_eq (u : Q) : (or_zero u == u)%Q.
Proof.
  unfold or_zero. destruct (Qeq_bool u 0) eqn:Hq; [|reflexivity].
  apply Qeq_bool_iff in Hq. by rewrite Hq.
Qed.

(** *** The utilization of a feasible plan *)

Lemma used_of_fold (sol : solution) (a : assignment) (i : string)
    (l : list string) (acc : Q) :
  (forall s, s ∈ l -> varValue sol (var_x i s) = Some (a (var_x i s))) ->
  exists u,
    foldM (fun acc s =>
             match varValue sol (var_x i s) with
             | Some v => Ok (acc + v)%Q
             | None => Raise TypeError
             end) acc l = Ok u /\
    (u == acc + sum_over (fun s => a (var_x i s)) l)%Q.
Proof.
  revert acc. induction l as [|s l IH]; intros acc Hrep; simpl.
  - exists acc. split; [done|]. ring.
  - rewrite Hrep by (by left). simpl.
    destruct (IH (acc + a (var_x i s))%Q) as (u & -> & Hu).
    { intros s' Hs'. apply Hrep. by right. }
    exists u. split; [done|]. rewrite Hu. ring.
Qed.

Lemma used_of_reports (pm : LpProblem) (sol : solution) (a : assignment) (i : string) :
  m = Ok pm -> reports pm sol a -> i ∈ I_ ->
  exists u, used_of sol i = Ok u /\ (u == sum_over (fun s => a (var_x i s)) S_)%Q.
Proof.
  intros Hm Hrep Hi. destruct (used_of_fold sol a i S_ 0%Q) as (u & Hu & Heq).
  { intros s Hs. apply (reports_value pm); [done|]. by apply x_in_problem. }
  exists u. split; [done|]. rewrite Heq. ring.
Qed.

Lemma ratio_bounds (u c y : Q) :
  (0 <= u)%Q -> (u <= c * y)%Q -> (y == 0)%Q \/ (y == 1)%Q -> ~ (c == 0)%Q ->
  (0 <= u / c)%Q /\ (u / c <= 1)%Q.
Proof.
  intros Hu Hle Hy Hc. destruct Hy as [H0|H1].
  - rewrite H0 in Hle. assert (Hz : (u == 0)%Q) by lra.
    rewrite Hz. unfold Qdiv. rewrite Qmult_0_l. lra.
  - rewrite H1 in Hle. assert (Hpos : (0 < c)%Q).
    { destruct (Qlt_le_dec 0 c) as [?|Hneg]; [done|].
      destruct Hc. lra. }
    split.
    + apply Qle_shift_div_l; [done|]. lra.
    + apply Qle_shift_div_r; [done|]. lra.
Qed.

Lemma int_of_bool_1 (b : bool) : int_of_bool b = 1%Z <-> b = true.
Proof. by destruct b. Qed.

(** X23: the utilization view of a feasible plan (lines 109-111 and 185-188):
    when the answer reports a feasible assignment for the variables of the
    problem and the view is produced, every row has hours used of at least
    0 and a utilization between 0 and 1; its active column is 1 exactly
    for a person whose activity flag is 1; and its release column is 1
    exactly for a developer whose release flag is 1: the release variable
    of anybody else is not part of the problem, has no value, and is
    written as 0. *)
Theorem utilization_of_feasible_plan (pm : LpProblem) (a : assignment)
    (sol : solution) (rows : list util_row) :
  m = Ok pm -> feasible variables pm a -> reports pm sol a ->
  util sol = Ok rows ->
  forall row, row ∈ rows ->
    (0 <= u_hours_used row)%Q /\
    (0 <= u_utilization row)%Q /\ (u_utilization row <= 1)%Q /\
    (u_active row = 1%Z <-> (a (var_y (u_person row)) == 1)%Q) /\
    (u_release row = 1%Z <->
     u_person row ∈ devs /\ (a (var_rel (u_person row)) == 1)%Q).
Proof.
  intros Hm Hfeas Hrep Hutil. apply Forall_forall. revert Hutil. unfold util.
  apply foldM_invariant; [|by constructor].
  intros acc i acc' Hi Hacc Hstep.
  apply util_step_row in Hstep as (u & q & Hused & Hc & Hq & ->).
  apply Forall_app. split; [done|]. constructor; [|by constructor]. simpl.
  destruct (used_of_reports pm sol a i Hm Hrep Hi) as (u' & Hused' & Hu).
  assert (u' = u) as -> by congruence.
  rewrite (reports_value pm sol a _ Hrep (y_in_problem pm i Hm Hi Hc)) in Hq.
  injection Hq as <-.
  assert (Hnn : (0 <= u)%Q).
  { rewrite Hu. apply sum_over_nonneg. intros s Hs. by apply (x_nonneg pm). }
  assert (Hbin : (a (var_y i) == 0)%Q \/ (a (var_y i) == 1)%Q).
  { apply binary_respected, (proj1 Hfeas). by apply y_declared. }
  assert (Hcap : (u <= (cap_i !!! i) * a (var_y i))%Q).
  { rewrite Hu. by apply (Cap_holds pm). }
  pose proof (or_zero_eq u) as Hoz.
  assert (Hnn' : (0 <= or_zero u)%Q) by (by rewrite Hoz).
  assert (Hcap' : (or_zero u <= (cap_i !!! i) * a (var_y i))%Q) by (by rewrite Hoz).
  destruct (ratio_bounds (or_zero u) (cap_i !!! i) (a (var_y i)) Hnn' Hcap' Hbin Hc)
    as [Hr0 Hr1].
  split; [|split; [|split; [|split]]].
  - by apply (py_round_lower _ 2 0).
  - by apply (py_round_lower _ 3 0).
  - by apply (py_round_upper _ 3 1).
  - rewrite int_of_bool_1. by apply binary_gt_half.
  - rewrite int_of_bool_1. destruct (decide (i ∈ devs)) as [Hd|Hd].
    + rewrite (reports_value pm sol a _ Hrep (rel_in_problem pm i Hm Hd)).
      rewrite binary_gt_half; [tauto|].
      apply binary_respected, (proj1 Hfeas). by apply rel_declared.
    + rewrite Hrep, bool_decide_eq_false_2 by (by apply rel_not_in_problem).
      split; [done|tauto].
Qed.

(** ** The files as a whole *)

Lemma preserves_pbind {A B} (P : files -> Prop) (c : prog A) (k : A -> prog B) :
  preserves P c -> (forall a, preserves P (k a)) -> preserves P (pbind c k).
Proof.
  intros Hc Hk fs fs' r HP. unfold pbind.
  destruct (c fs) as [fs1 [a|e]] eqn:Hcfs.
  - intros Hka. apply (Hk a fs1 fs' r); [|done]. by apply (Hc fs fs1 (Ok a)).
  - intros [= <- _]. by apply (Hc fs fs1 (Raise e)).
Qed.

Lemma preserves_lift {A} (P : files -> Prop) (r : result A) : preserves P (lift r).
Proof. by intros fs fs' r' HP [= <- _]. Qed.

Lemma pbind_run {A B} (c : prog A) (k : A -> prog B) (fs fs1 : files) (a : A) :
  c fs = (fs1, Ok a) -> pbind c k fs = k a fs1.
Proof. intros Hc. unfold pbind. by rewrite Hc. Qed.

Ltac preserves_chain tac :=
  repeat lazymatch goal with
    | |- preserves _ (pbind _ _) => apply preserves_pbind; [|intros ?]
    | |- preserves _ (lift _) => apply preserves_lift
    | |- preserves _ (f_write _) => tac
    end.

Lemma write_summary_status (sol : solution) (n : nat) (fs fs' : files)
    (r : result unit) :
  write_summary sol n fs = (fs', r) ->
  exists rest, summary_txt fs' = Some (SumStatus (status sol) :: rest).
Proof.
  unfold write_summary.
  rewrite (pbind_run open_summary _ fs _ tt eq_refl).
  rewrite (pbind_run (f_write (SumStatus (status sol))) _ _ _ tt eq_refl).
  match goal with |- ?c ?f = _ -> _ => set (prog_rest := c); set (fs2 := f) end.
  intros Hrun.
  assert (Hpres : preserves
            (fun f => exists rest, summary_txt f = Some (SumStatus (status sol) :: rest))
            prog_rest).
  { unfold prog_rest. preserves_chain idtac.
    all: intros f f' r' [rest Hrest] [= <- _]; simpl; rewrite Hrest; simpl;
      by eexists. }
  apply (Hpres fs2 fs' r); [|done]. by exists [].
Qed.

Lemma write_summary_dependencies (sol : solution) (k : nat) (fs fs' : files)
    (r : result unit) :
  write_summary sol k fs = (fs', r) ->
  forall lines n, summary_txt fs' = Some lines -> SumDependencies n ∈ lines ->
                  n = length deps.
Proof.
  unfold write_summary.
  rewrite (pbind_run open_summary _ fs _ tt eq_refl).
  match goal with |- ?c ?f = _ -> _ => set (prog_rest := c); set (fs1 := f) end.
  intros Hrun.
  assert (Hpres : preserves
            (fun f => forall lines n, summary_txt f = Some lines ->
                        SumDependencies n ∈ lines -> n = length deps)
            prog_rest).
  { unfold prog_rest. preserves_chain idtac.
    all: intros f f' r' HP [= <- _] lines n; simpl; intros [= <-] Hin;
      apply elem_of_app in Hin as [Hin|Hin];
      [ destruct (summary_txt f) as [old|] eqn:Hold; simpl in Hin;
        [by apply (HP old)|by apply elem_of_nil in Hin]
      | apply list_elem_of_singleton in Hin; by inversion Hin ]. }
  apply (Hpres fs1 fs' r); [|done].
  intros lines n [= <-] Hin. by apply elem_of_nil in Hin.
Qed.

(** X19: the order of the files (lines 156-203): the selection and assignment
    files are written together; the utilization file exists only if they
    do, and the summary only if the utilization file does; a summary that
    exists starts with the status as [pl.LpStatus] spells it, also when the
    script raises while writing it; and a run that ends without raising
    has written all four files. *)
Theorem outputs_file_order (sol : solution) (fs : files) (r : result unit) :
  outputs sol no_files = (fs, r) ->
  (is_Some (selected_stories_csv fs) <-> is_Some (assignments_csv fs)) /\
  (is_Some (person_utilization_csv fs) -> is_Some (assignments_csv fs)) /\
  (is_Some (summary_txt fs) -> is_Some (person_utilization_csv fs)) /\
  (forall lines, summary_txt fs = Some lines ->
     exists rest, lines = SumStatus (LpStatus (sol_status sol)) :: rest) /\
  (r = Ok tt -> is_Some (summary_txt fs)).
Proof.
  unfold outputs, pbind, lift, write_selected, write_assignments, write_utilization.
  simpl. destruct (sel sol) as [rows|e]; simpl.
  2:{ intros [= <- <-]. simpl. repeat split; try done; by intros [? [=]]. }
  destruct (util sol) as [urows|e]; simpl.
  2:{ intros [= <- <-]. simpl. repeat split; try done; by intros [? [=]]. }
  match goal with
  | |- context [write_summary sol ?n ?f] =>
      destruct (write_summary sol n f) as [fs' r'] eqn:Hws
  end.
  pose proof (write_summary_files sol _ _ _ _ Hws) as (H1 & H2 & H3).
  pose proof (write_summary_status sol _ _ _ _ Hws) as [rest Hrest].
  simpl in H1, H2, H3.
  assert (Hfs : forall r0, (fs', r0) = (fs, r) ->
    (is_Some (selected_stories_csv fs) <-> is_Some (assignments_csv fs)) /\
    (is_Some (person_utilization_csv fs) -> is_Some (assignments_csv fs)) /\
    (is_Some (summary_txt fs) -> is_Some (person_utilization_csv fs)) /\
    (forall lines, summary_txt fs = Some lines ->
       exists rest, lines = SumStatus (LpStatus (sol_status sol)) :: rest) /\
    (r = Ok tt -> is_Some (summary_txt fs))).
  { intros r0 [= <- _]. rewrite H1, H2, H3, Hrest.
    split; [split; by eexists|]. split; [by eexists|]. split; [by eexists|].
    split; [|by eexists]. intros lines [= <-]. by exists rest. }
  destruct r'; simpl; [|apply Hfs].
  destruct (format_obj sol); simpl; apply Hfs.
Qed.

Lemma length_Dep_constraints :
  length Dep_constraints = length (filter (fun sp : string * string => sp.2 ∈ S_) deps).
Proof.
  unfold Dep_constraints. induction deps as [|sp l IH]; simpl; [done|].
  rewrite length_app, IH, filter_cons.
  case_bool_decide as Hp.
  - by rewrite decide_True.
  - by rewrite decide_False.
Qed.

Lemma length_filter_lt {A} (P : A -> Prop) `{!forall x, Decision (P x)} (l : list A) :
  (length (filter P l) < length l)%nat <-> exists x, x ∈ l /\ ~ P x.
Proof.
  induction l as [|x l IH]; simpl.
  - split; [lia|]. intros (x & Hx & _). by apply elem_of_nil in Hx.
  - rewrite filter_cons. pose proof (length_filter P l) as Hle.
    destruct (decide (P x)) as [HP|HP]; simpl.
    + rewrite <- Nat.succ_lt_mono, IH. split.
      * intros (y & Hy & HPy). exists y. split; [by right|done].
      * intros (y & Hy & HPy). apply elem_of_cons in Hy as [->|Hy]; [done|].
        by exists y.
    + split; [|lia]. intros _. exists x. split; [by left|done].
Qed.

Lemma outputs_dependencies (sol : solution) (fs : files) (r : result unit)
    (lines : list summary_line) (n : nat) :
  outputs sol no_files = (fs, r) ->
  summary_txt fs = Some lines -> SumDependencies n ∈ lines -> n = length deps.
Proof.
  intros Hout Hlines Hin.
  revert Hout. unfold outputs, pbind, lift, write_selected, write_assignments,
    write_utilization. simpl.
  destruct (sel sol) as [rows|e]; simpl.
  2:{ intros [= <- _]. simpl in Hlines. done. }
  destruct (util sol) as [urows|e]; simpl.
  2:{ intros [= <- _]. simpl in Hlines. done. }
  match goal with
  | |- context [write_summary sol ?k ?f] =>
      destruct (write_summary sol k f) as [fs' r'] eqn:Hws
  end.
  pose proof (write_summary_dependencies sol _ _ _ _ Hws) as Hdeps.
  destruct r'; simpl; [|by intros [= <- _]; apply (Hdeps lines)].
  destruct (format_obj sol); simpl; intros [= <- _]; by apply (Hdeps lines).
Qed.

(** X25: the dependency figure of the summary (lines 60-67, 142-145 and 203):
    the line "Dependencies respected" carries the number of recorded
    dependencies, while the problem ends with one precedence constraint
    for each recorded dependency whose predecessor is eligible; the figure
    is therefore at least the number of dependencies the problem enforces,
    and it is more exactly when some recorded predecessor is not an
    eligible story. *)
Theorem dependencies_reported (pm : LpProblem) (sol : solution) (fs : files)
    (r : result unit) (lines : list summary_line) (n : nat) :
  m = Ok pm -> outputs sol no_files = (fs, r) ->
  summary_txt fs = Some lines -> SumDependencies n ∈ lines ->
  n = length deps /\
  (exists others, constraints pm = others ++ Dep_constraints) /\
  length Dep_constraints = length (filter (fun sp : string * string => sp.2 ∈ S_) deps) /\
  (length Dep_constraints <= n)%nat /\
  ((length Dep_constraints < n)%nat <->
   exists sp : string * string, sp ∈ deps /\ (sp.2 ∉ S_)).
Proof.
  intros Hm Hout Hlines Hin.
  pose proof (outputs_dependencies sol fs r lines n Hout Hlines Hin) as ->.
  split; [done|]. split.
  { destruct (m_constraints pm Hm) as (rc & _ & _ & ->).
    eexists. by rewrite !app_assoc. }
  split; [apply length_Dep_constraints|].
  rewrite length_Dep_constraints. split; [apply length_filter|].
  apply (length_filter_lt (fun sp : string * string => sp.2 ∈ S_)).
Qed.

(** *** How a run ends *)

Lemma outputs_util_raise (sol : solution) (rows : list sel_row) (e : exn) :
  sel sol = Ok rows -> util sol = Raise e ->
  outputs sol no_files
  = ({| selected_stories_csv := Some rows;
        assignments_csv := Some (assign_rows sol);
        person_utilization_csv := None; summary_txt := None |}, Raise e).
Proof.
  intros Hsel Hutil. unfold outputs. rewrite Hsel, Hutil.
  cbv beta iota delta [pbind lift pret write_selected write_assignments
    write_utilization selected_stories_csv assignments_csv
    person_utilization_csv summary_txt no_files].
  reflexivity.
Qed.

Lemma outputs_obj_raise (sol : solution) (rows : list sel_row)
    (urows : list util_row) (e : exn) :
  sel sol = Ok rows -> util sol = Ok urows -> format_obj sol = Raise e ->
  outputs sol no_files
  = ({| selected_stories_csv := Some rows;
        assignments_csv := Some (assign_rows sol);
        person_utilization_csv := Some urows;
        summary_txt := Some [SumStatus (LpStatus (sol_status sol))] |}, Raise e).
Proof.
  intros Hsel Hutil Hobj. unfold outputs, write_summary. rewrite Hsel, Hutil, Hobj.
  cbv beta iota delta [pbind lift pret write_selected write_assignments
    write_utilization open_summary f_write selected_stories_csv assignments_csv
    person_utilization_csv summary_txt no_files default app status].
  reflexivity.
Qed.

Lemma outputs_all (sol : solution) (rows : list sel_row) (urows : list util_row)
    (o vt : Q) (ap : nat) :
  sel sol = Ok rows -> util sol = Ok urows -> format_obj sol = Ok o ->
  val_total sol = Ok vt -> active_people sol = Ok ap ->
  exists rest,
    outputs sol no_files
    = ({| selected_stories_csv := Some rows;
          assignments_csv := Some (assign_rows sol);
          person_utilization_csv := Some urows;
          summary_txt := Some (SumStatus (LpStatus (sol_status sol)) :: rest) |},
       Ok tt).
Proof.
  intros Hsel Hutil Hobj Hvt Hap. eexists.
  unfold outputs, write_summary. rewrite Hsel, Hutil, Hobj, Hvt, Hap.
  cbv beta iota delta [pbind lift pret write_selected write_assignments
    write_utilization open_summary f_write selected_stories_csv assignments_csv
    person_utilization_csv summary_txt no_files default app status].
  reflexivity.
Qed.

(** Whatever the status and the values the solver reports, a person of
    capacity 0 stops the script at line 188: the selection and assignment
    files are written, the utilization file and the summary are not. *)
Lemma outputs_zero_capacity (pm : LpProblem) (sol : solution) :
  m = Ok pm -> valued pm sol ->
  (exists i, i ∈ I_ /\ (cap_i !!! i == 0)%Q) ->
  exists rows,
    outputs sol no_files
    = ({| selected_stories_csv := Some rows;
          assignments_csv := Some (assign_rows sol);
          person_utilization_csv := None; summary_txt := None |},
       Raise ZeroDivisionError).
Proof.
  intros Hm Hvv (i & Hi & Hz).
  destruct (sel_total pm sol Hm Hvv) as [rows Hsel]. exists rows.
  destruct (util_outcome pm sol Hm Hvv) as [[Hutil _]|[_ Hall]].
  - by apply outputs_util_raise.
  - by destruct (Hall i Hi).
Qed.

(** An objective without terms: [pl.value(m.objective)] is [None] after the
    solve, and line 197 cannot format it. *)
Lemma outputs_constant_objective (pm : LpProblem) (sol : solution) :
  m = Ok pm -> valued pm sol ->
  (forall i, i ∈ I_ -> ~ (cap_i !!! i == 0)%Q) ->
  (forall s, s ∈ S_ -> (value !!! s == 0)%Q) ->
  (lambda_people == 0)%Q \/ I_ = [] ->
  exists rows urows,
    sel sol = Ok rows /\ util sol = Ok urows /\
    outputs sol no_files
    = ({| selected_stories_csv := Some rows;
          assignments_csv := Some (assign_rows sol);
          person_utilization_csv := Some urows;
          summary_txt := Some [SumStatus (LpStatus (sol_status sol))] |},
       Raise TypeError).
Proof.
  intros Hm Hvv Hcap Hval Hlam.
  destruct (sel_total pm sol Hm Hvv) as [rows Hsel].
  destruct (util_outcome pm sol Hm Hvv) as [(_ & i & Hi & Hz)|[[urows Hutil] _]];
    [by destruct (Hcap i Hi)|].
  exists rows, urows. split; [done|]. split; [done|].
  apply outputs_obj_raise; [done|done|].
  pose proof (format_obj_outcome pm sol Hm Hvv) as Hobj.
  by rewrite (proj2 objective_constant (conj Hval Hlam)) in Hobj.
Qed.

(** X20: an objective without terms (lines 107, 152 and 197): when every
    eligible story has value 0 and the people penalty is 0 or there is
    nobody, [pl.value(m.objective)] is [None] after the solve, whatever
    values the solver reports.  Nobody having capacity 0, the three views
    are written, the summary gets its status line, and the script stops
    with [TypeError] at line 197. *)
Theorem outputs_raise_on_constant_objective (pm : LpProblem) (sol : solution) :
  m = Ok pm -> valued pm sol ->
  (forall i, i ∈ I_ -> ~ (cap_i !!! i == 0)%Q) ->
  (forall s, s ∈ S_ -> (value !!! s == 0)%Q) ->
  (lambda_people == 0)%Q \/ I_ = [] ->
  exists rows urows,
    sel sol = Ok rows /\ util sol = Ok urows /\
    outputs sol no_files
    = ({| selected_stories_csv := Some rows;
          assignments_csv := Some (assign_rows sol);
          person_utilization_csv := Some urows;
          summary_txt := Some [SumStatus (LpStatus (sol_status sol))] |},
       Raise TypeError).
Proof. apply outputs_constant_objective. Qed.

(** X21: a run that goes through (lines 151-212): when the solver has given a
    value to every variable of the problem, nobody has capacity 0 and the
    objective has a term, nothing raises: the four files are written and
    the first line of the summary is the status as [pl.LpStatus] spells
    it. *)
Theorem outputs_succeed (pm : LpProblem) (sol : solution) :
  m = Ok pm -> valued pm sol ->
  (forall i, i ∈ I_ -> ~ (cap_i !!! i == 0)%Q) ->
  objective_has_term ->
  exists rows urows rest,
    sel sol = Ok rows /\ util sol = Ok urows /\
    outputs sol no_files
    = ({| selected_stories_csv := Some rows;
          assignments_csv := Some (assign_rows sol);
          person_utilization_csv := Some urows;
          summary_txt := Some (SumStatus (LpStatus (sol_status sol)) :: rest) |},
       Ok tt).
Proof.
  intros Hm Hvv Hcap Hterm.
  destruct (sel_total pm sol Hm Hvv) as [rows Hsel].
  destruct (util_outcome pm sol Hm Hvv) as [(_ & i & Hi & Hz)|[[urows Hutil] _]];
    [by destruct (Hcap i Hi)|].
  pose proof (format_obj_outcome pm sol Hm Hvv) as Hobj.
  rewrite (objective_with_term Hterm) in Hobj. destruct Hobj as [o Hobj].
  destruct (val_total_total pm sol Hm Hvv) as [vt Hvt].
  destruct (active_people_total pm sol Hm Hvv Hcap) as [ap Hap].
  destruct (outputs_all sol rows urows o vt ap Hsel Hutil Hobj Hvt Hap) as [rest Hout].
  by exists rows, urows, rest.
Qed.

(** ** Dependencies, roles and records *)

(** *** White space *)

Lemma length_ind {A} (P : list A -> Prop) :
  (forall l, (forall l', (length l' < length l)%nat -> P l') -> P l) ->
  forall l, P l.
Proof.
  intros Hstep l. remember (length l) as n eqn:Hn. revert l Hn.
  induction n as [n IH] using lt_wf_ind. intros l ->.
  apply Hstep. intros l' Hlt. by apply (IH (length l')).
Qed.

Lemma space2_lead (a b : ascii) : space2 a b = true -> byte_is a 194 = true.
Proof. unfold space2. by destruct (byte_is a 194). Qed.

Lemma space3_lead (a b c : ascii) :
  space3 a b c = true -> byte_is a 225 || byte_is a 226 || byte_is a 227 = true.
Proof.
  unfold space3. by destruct (byte_is a 225), (byte_is a 226), (byte_is a 227).
Qed.

Lemma space2_not_space1 (a b : ascii) : space2 a b = true -> space1 a = false.
Proof.
  intros H. apply space2_lead in H. unfold byte_is in H. apply Nat.eqb_eq in H.
  unfold space1, byte_in. by rewrite H.
Qed.

Lemma space3_not_space1 (a b c : ascii) : space3 a b c = true -> space1 a = false.
Proof.
  intros H. apply space3_lead in H. unfold byte_is in H.
  rewrite !orb_true_iff, !Nat.eqb_eq in H.
  unfold space1, byte_in. by destruct H as [[-> | ->] | ->].
Qed.

Lemma space3_not_space2 (a b c b' : ascii) :
  space3 a b c = true -> space2 a b' = false.
Proof.
  intros H. apply space3_lead in H. unfold byte_is in H.
  rewrite !orb_true_iff, !Nat.eqb_eq in H.
  unfold space2, byte_is. by destruct H as [[-> | ->] | ->].
Qed.

Lemma lstrip_bytes_1 (a : ascii) (l : list ascii) :
  space1 a = true -> lstrip_bytes (a :: l) = lstrip_bytes l.
Proof. intros H. simpl. by rewrite H. Qed.

Lemma lstrip_bytes_2 (a b : ascii) (l : list ascii) :
  space2 a b = true -> lstrip_bytes (a :: b :: l) = lstrip_bytes l.
Proof.
  intros H. change (lstrip_bytes (a :: b :: l))
    with (if space1 a then lstrip_bytes (b :: l)
          else if space2 a b then lstrip_bytes l
               else match l with
                    | c :: l3 => if space3 a b c then lstrip_bytes l3 else a :: b :: l
                    | [] => a :: b :: l
                    end).
  by rewrite (space2_not_space1 a b H), H.
Qed.

Lemma lstrip_bytes_3 (a b c : ascii) (l : list ascii) :
  space3 a b c = true -> lstrip_bytes (a :: b :: c :: l) = lstrip_bytes l.
Proof.
  intros H. change (lstrip_bytes (a :: b :: c :: l))
    with (if space1 a then lstrip_bytes (b :: c :: l)
          else if space2 a b then lstrip_bytes (c :: l)
               else if space3 a b c then lstrip_bytes l else a :: b :: c :: l).
  by rewrite (space3_not_space1 a b c H), (space3_not_space2 a b c b H), H.
Qed.

(** Stripping on the left leaves nothing exactly of a white sequence. *)
Lemma lstrip_bytes_white (l : list ascii) : white l -> lstrip_bytes l = [].
Proof.
  induction 1 as [|a l Ha _ IH|a b l Hab _ IH|a b c l Habc _ IH].
  - done.
  - by rewrite lstrip_bytes_1.
  - by rewrite lstrip_bytes_2.
  - by rewrite lstrip_bytes_3.
Qed.

Lemma lstrip_bytes_nil (l : list ascii) : lstrip_bytes l = [] -> white l.
Proof.
  induction l as [l IH] using length_ind.
  destruct l as [|a l1]; [constructor|].
  destruct (space1 a) eqn:H1.
  { rewrite lstrip_bytes_1 by done. intros Hnil.
    apply white_1; [done|]. apply IH; [simpl; lia|done]. }
  destruct l1 as [|b l2]; [by simpl; rewrite H1|].
  destruct (space2 a b) eqn:H2.
  { rewrite lstrip_bytes_2 by done. intros Hnil.
    apply white_2; [done|]. apply IH; [simpl; lia|done]. }
  destruct l2 as [|c l3]; [by simpl; rewrite H1, H2|].
  destruct (space3 a b c) eqn:H3.
  { rewrite lstrip_bytes_3 by done. intros Hnil.
    apply white_3; [done|]. apply IH; [simpl; lia|done]. }
  change (lstrip_bytes (a :: b :: c :: l3))
    with (if space1 a then lstrip_bytes (b :: c :: l3)
          else if space2 a b then lstrip_bytes (c :: l3)
               else if space3 a b c then lstrip_bytes l3 else a :: b :: c :: l3).
  by rewrite H1, H2, H3.
Qed.

Lemma lstrip_bytes_idemp (l : list ascii) :
  lstrip_bytes (lstrip_bytes l) = lstrip_bytes l.
Proof.
  induction l as [l IH] using length_ind.
  destruct l as [|a l1]; [done|].
  destruct (space1 a) eqn:H1.
  { rewrite lstrip_bytes_1 by done. apply IH. simpl. lia. }
  destruct l1 as [|b l2]; [by simpl; rewrite H1; simpl; rewrite H1|].
  destruct (space2 a b) eqn:H2.
  { rewrite lstrip_bytes_2 by done. apply IH. simpl. lia. }
  destruct l2 as [|c l3].
  { assert (Hfix : lstrip_bytes [a; b] = [a; b]) by (by simpl; rewrite H1, H2).
    by rewrite !Hfix. }
  destruct (space3 a b c) eqn:H3.
  { rewrite lstrip_bytes_3 by done. apply IH. simpl. lia. }
  assert (Hfix : lstrip_bytes (a :: b :: c :: l3) = a :: b :: c :: l3).
  { change (lstrip_bytes (a :: b :: c :: l3))
      with (if space1 a then lstrip_bytes (b :: c :: l3)
            else if space2 a b then lstrip_bytes (c :: l3)
                 else if space3 a b c then lstrip_bytes l3 else a :: b :: c :: l3).
    by rewrite H1, H2, H3. }
  by rewrite !Hfix.
Qed.

Lemma white_app (l1 l2 : list ascii) : white l1 -> white l2 -> white (l1 ++ l2).
Proof.
  intros H1 H2. induction H1; simpl; [done|..]; by constructor.
Qed.

(** Stripping on the right, read on the reversed bytes. *)
Lemma rstrip_rev_nil (l : list ascii) : rstrip_rev l = [] -> white (rev l).
Proof.
  induction l as [l IH] using length_ind.
  destruct l as [|c l1]; [constructor|].
  destruct (space1 c) eqn:H1.
  { simpl. rewrite H1. intros Hnil. apply white_app.
    - apply IH; [simpl; lia|done].
    - apply white_1; [done|constructor]. }
  destruct l1 as [|b l2]; [by simpl; rewrite H1|].
  change (rstrip_rev (c :: b :: l2))
    with (if space1 c then rstrip_rev (b :: l2)
          else if space2 b c then rstrip_rev l2
               else match l2 with
                    | a :: l3 => if space3 a b c then rstrip_rev l3 else c :: b :: l2
                    | [] => c :: b :: l2
                    end).
  rewrite H1. destruct (space2 b c) eqn:H2.
  { intros Hnil. simpl. rewrite <- app_assoc. apply white_app.
    - apply IH; [simpl; lia|done].
    - apply white_2; [done|constructor]. }
  destruct l2 as [|a l3]; [done|].
  destruct (space3 a b c) eqn:H3; [|done].
  intros Hnil. simpl. rewrite <- !app_assoc. apply white_app.
  - apply IH; [simpl; lia|done].
  - apply white_3; [done|constructor].
Qed.

(** [strip] gives the empty string exactly for white space. *)
Lemma strip_empty (s : string) :
  strip s = "" <-> white (list_ascii_of_string s).
Proof.
  unfold strip, rstrip, lstrip. rewrite list_ascii_of_string_of_list_ascii.
  set (l := list_ascii_of_string s). split.
  - intros Hnil.
    assert (Hr : rstrip_rev (rev (lstrip_bytes l)) = []).
    { apply (f_equal list_ascii_of_string) in Hnil.
      rewrite list_ascii_of_string_of_list_ascii in Hnil. simpl in Hnil.
      apply (f_equal (@rev ascii)) in Hnil. by rewrite rev_involutive in Hnil. }
    apply rstrip_rev_nil in Hr. rewrite rev_involutive in Hr.
    apply lstrip_bytes_white in Hr. rewrite lstrip_bytes_idemp in Hr.
    by apply lstrip_bytes_nil.
  - intros Hw. by rewrite (lstrip_bytes_white l Hw).
Qed.

#[global] Instance blank_dec (st : story_row) : Decision (blank st).
Proof.
  unfold blank.
  destruct (decide (lstrip_bytes (list_ascii_of_string (default "" (s_depends_on st)))
                    = [])) as [Hnil|Hne].
  - left. by apply lstrip_bytes_nil.
  - right. intros Hw. by apply Hne, lstrip_bytes_white.
Defined.

(** *** Recorded dependencies *)

Lemma deps_fold (acc : list (string * string)) (l : list story_row) :
  foldl deps_step acc l
  = acc ++ flat_map (fun st =>
             if decide (s_points st ∈ forbid_points \/ blank st) then []
             else [(s_story_id st, strip (default "" (s_depends_on st)))]) l.
Proof.
  revert acc. induction l as [|st l IH]; intros acc; simpl.
  - by rewrite app_nil_r.
  - rewrite IH. unfold deps_step.
    case_bool_decide as Hf.
    { rewrite decide_True by (by left). done. }
    case_bool_decide as Hd.
    + rewrite decide_True by (right; by apply strip_empty). done.
    + rewrite decide_False; [by rewrite <- app_assoc|].
      intros [?|Hb]; [done|]. by apply Hd, strip_empty.
Qed.

(** X3: the recorded dependencies (lines 60-67): in the order of the story
    file, every row with allowed points whose [depends_on] cell holds
    anything but white space gives exactly one pair, the story and the
    cell stripped of the white space at both ends, Unicode white space
    included; a row with forbidden points and a row whose cell is missing,
    empty or white space give none. *)
Theorem deps_recorded :
  deps = flat_map (fun st =>
           if decide (s_points st ∈ forbid_points \/ blank st) then []
           else [(s_story_id st, strip (default "" (s_depends_on st)))]) story_rows.
Proof. unfold deps. by rewrite deps_fold. Qed.

(** X13: two eligible stories that depend on each other (lines 142-145) are
    selected together or not at all under every feasible assignment. *)
Theorem mutual_dependency (pm : LpProblem) (a : assignment) (s p : string) :
  m = Ok pm -> feasible variables pm a ->
  (s, p) ∈ deps -> (p, s) ∈ deps ->
  (a (var_z s) == a (var_z p))%Q.
Proof.
  intros Hm Hfeas Hsp Hps.
  assert (HS : forall s' p', (s', p') ∈ deps -> s' ∈ S_).
  { intros s' p' Hin. apply elem_of_deps in Hin as (st & Hst & He & [= -> _] & _).
    apply elem_of_S_. by exists st. }
  pose proof (HS _ _ Hsp) as Hs. pose proof (HS _ _ Hps) as Hp.
  pose proof (proj2 Hfeas _ (Dep_in_problem pm _ Hm (Dep_in_Dep s p Hsp Hp))) as H1.
  pose proof (proj2 Hfeas _ (Dep_in_problem pm _ Hm (Dep_in_Dep p s Hps Hs))) as H2.
  unfold holds in H1, H2. simpl in H1, H2. rewrite !eval_expr_var in H1, H2.
  by apply Qle_antisym.
Qed.

Lemma people_of_rows (r : string) (l : list person_row) :
  NoDup I_ -> (forall p, p ∈ l -> p ∈ people_rows) ->
  filter (fun i => role_of !!! i = r) (map p_person l)
  = map p_person (filter (fun p => p_role p = r) l).
Proof.
  intros Hnd. induction l as [|p l IH]; intros Hsub; [done|].
  simpl. rewrite !filter_cons.
  assert (Hp : p ∈ people_rows) by (apply Hsub; by left).
  rewrite (role_of_row p Hnd Hp).
  assert (IH' := IH (fun q Hq => Hsub q (list_elem_of_further _ _ _ Hq))).
  destruct (decide (p_role p = r)); simpl; by rewrite IH'.
Qed.

(** X2: people by role (lines 48-53 and 90), person identifiers being distinct:
    [I_by_role[r]] lists, in the order of the people file, the people whose
    row names role [r]; and [r in I_by_role] holds from line 90 on exactly
    for the roles that have a person or a record in [roles.csv]. *)
Theorem people_by_role (r : string) :
  NoDup I_ ->
  I_by_role !!! r = map p_person (filter (fun p => p_role p = r) people_rows) /\
  (dict_mem I_by_role r = true <->
   r ∈ R \/ exists p, p ∈ people_rows /\ p_role p = r).
Proof.
  intros Hnd.
  assert (Hpeople : people_of r
                    = map p_person (filter (fun p => p_role p = r) people_rows)).
  { unfold people_of, I_. by apply people_of_rows. }
  split; [by rewrite I_by_role_total|].
  rewrite dict_mem_I_by_role, Hpeople. split; (intros [?|Hp]; [by left|right]).
  - destruct (filter _ people_rows) as [|p l] eqn:Hf; [done|].
    assert (Hin : p ∈ filter (fun p => p_role p = r) people_rows)
      by (rewrite Hf; by left).
    apply list_elem_of_filter in Hin as [? ?]. by exists p.
  - destruct Hp as (p & Hp & Hr).
    assert (Hin : p ∈ filter (fun p => p_role p = r) people_rows)
      by (by apply list_elem_of_filter).
    intros Hnil. apply (f_equal length) in Hnil. rewrite length_map in Hnil.
    destruct (filter _ people_rows); [by apply elem_of_nil in Hin|done].
Qed.

(** X4: a role without a record (lines 90-94): [role_cap_eff] has no entry for
    it, except for QA, whose entry is then 0 whatever the capacity of the
    QA people and the work-in-progress factor. *)
Theorem role_cap_eff_missing_record (r : string) :
  r ∉ R ->
  role_cap_eff !! r = if bool_decide (r = "QA") then Some 0%Q else None.
Proof.
  intros Hr. rewrite role_cap_eff_without_record by done.
  case_bool_decide; [|done]. unfold py_min, Qltb.
  assert (Hle : Qle_bool 0 (0 * wip_factor_QA) = true).
  { apply Qle_bool_iff. rewrite Qmult_0_l. apply Qle_refl. }
  by rewrite Hle.
Qed.

End SolveSprint.

(** ** Independence of [require_release_for_roles] *)

Lemma with_require_release_same (c : config) :
  with_require_release c (cfg_require_release_for_roles c) = c.
Proof. by destruct c. Qed.

(** C10: two runs whose configurations differ only in
    [require_release_for_roles] create the same variables, build the same
    objective and constraints, and write the same files; the developers are
    the people whose role is BE or FE, whatever that setting says. *)
Theorem require_release_roles_ignored
    (people_rows : list person_row) (story_rows : list story_row)
    (role_rows : list role_row) (c : config) (roles1 roles2 : list string)
    (solve : LpProblem -> solution) :
  variables people_rows story_rows (with_require_release c roles1)
  = variables people_rows story_rows (with_require_release c roles2) /\
  m people_rows story_rows role_rows (with_require_release c roles1)
  = m people_rows story_rows role_rows (with_require_release c roles2) /\
  (forall sol,
     outputs people_rows story_rows (with_require_release c roles1) sol
     = outputs people_rows story_rows (with_require_release c roles2) sol) /\
  main people_rows story_rows role_rows (with_require_release c roles1) solve
  = main people_rows story_rows role_rows (with_require_release c roles2) solve /\
  (forall i, i ∈ devs people_rows <->
             i ∈ I_ people_rows /\ role_of people_rows !!! i ∈ ["BE"; "FE"]).
Proof.
  split; [reflexivity|]. split; [reflexivity|]. split; [reflexivity|].
  split; [reflexivity|]. apply elem_of_devs.
Qed.

(** ** The sample data *)

Ltac by_computation := apply (bool_decide_unpack _); vm_compute; exact Logic.I.
Ltac in_list := repeat first [apply list_elem_of_here | apply list_elem_of_further].

Lemma answer_valued (st : LpStatusCode) (vals : assignment) (pm : LpProblem) :
  valued pm (answer st vals pm).
Proof.
  intros v Hv. simpl. rewrite bool_decide_eq_true_2 by done. by eexists.
Qed.

Lemma answer_reports (st : LpStatusCode) (a : assignment) (pm : LpProblem) :
  reports pm (answer st a pm) a.
Proof. intros v. reflexivity. Qed.

(** With the capacity of the only QA person at 0, the bug reserve of QA
    exceeds its capacity and the problem has no feasible assignment. *)
Lemma ex_QA0_infeasible (pm : LpProblem) (a : assignment) :
  m ex_people_QA0 ex_stories ex_roles ex_cfg = Ok pm ->
  ~ feasible (variables ex_people_QA0 ex_stories ex_cfg) pm a.
Proof.
  intros Hm.
  assert (Hc : exists c, role_cap_eff ex_people_QA0 ex_roles ex_cfg !! "QA" = Some c
                         /\ (c < 0)%Q)
    by (eexists; split; vm_compute; reflexivity).
  destruct Hc as (c & Hc & Hneg).
  apply (negative_role_capacity ex_people_QA0 ex_stories ex_roles ex_cfg pm a "QA" c);
    [done|by_computation|left; by_computation|done|done].
Qed.

Lemma caps_not_zero (people_rows : list person_row) :
  forallb (fun i => negb (Qeq_bool (cap_i people_rows !!! i) 0)) (I_ people_rows) = true ->
  forall i, i ∈ I_ people_rows -> ~ (cap_i people_rows !!! i == 0)%Q.
Proof.
  intros Hall i Hi Hz. rewrite forallb_forall in Hall.
  apply list_elem_of_In in Hi. specialize (Hall i Hi).
  apply Qeq_bool_iff in Hz. by rewrite Hz in Hall.
Qed.

Lemma values_zero (story_rows : list story_row) (CFG : config) :
  forallb (fun s => Qeq_bool (value story_rows CFG !!! s) 0) (S_ story_rows CFG) = true ->
  forall s, s ∈ S_ story_rows CFG -> (value story_rows CFG !!! s == 0)%Q.
Proof.
  intros Hall s Hs. rewrite forallb_forall in Hall.
  by apply Qeq_bool_iff, Hall, list_elem_of_In.
Qed.

(** C1: two inputs on which the result extraction raises, whatever status
    the solver reports and whatever values it leaves in the variables of
    the problem.  With the capacity of the people of a role at 0 (the
    infeasible configuration), the script writes the selection and
    assignment files and stops with [ZeroDivisionError] in the utilization
    view; [summary.txt] is never opened, so the status is not reported.
    With stories of value 0 and no people penalty, the three views are
    written, the summary gets its status line, and the script stops with
    [TypeError] at the objective. *)
Theorem extraction_raises_after_solve (st : LpStatusCode) (vals : assignment) :
  (exists rows arows,
     main ex_people_QA0 ex_stories ex_roles ex_cfg (answer st vals)
     = ({| selected_stories_csv := Some rows; assignments_csv := Some arows;
           person_utilization_csv := None; summary_txt := None |},
        Raise ZeroDivisionError)) /\
  (exists rows arows urows,
     main ex_people ex_stories_free ex_roles ex_cfg_free (answer st vals)
     = ({| selected_stories_csv := Some rows; assignments_csv := Some arows;
           person_utilization_csv := Some urows;
           summary_txt := Some [SumStatus (LpStatus st)] |},
        Raise TypeError)).
Proof.
  split; unfold main.
  - destruct (m ex_people_QA0 ex_stories ex_roles ex_cfg) as [pm|e] eqn:Hm;
      [|vm_compute in Hm; discriminate].
    destruct (outputs_zero_capacity ex_people_QA0 ex_stories ex_roles ex_cfg pm
                (answer st vals pm) Hm (answer_valued st vals pm)) as [rows Hout].
    { exists "bob". split; [by_computation|vm_compute; reflexivity]. }
    by exists rows, (assign_rows ex_people_QA0 ex_stories ex_cfg (answer st vals pm)).
  - destruct (m ex_people ex_stories_free ex_roles ex_cfg_free) as [pm|e] eqn:Hm;
      [|vm_compute in Hm; discriminate].
    destruct (outputs_constant_objective ex_people ex_stories_free ex_roles ex_cfg_free
                pm (answer st vals pm) Hm (answer_valued st vals pm))
      as (rows & urows & _ & _ & Hout).
    + apply caps_not_zero. vm_compute. reflexivity.
    + apply values_zero. vm_compute. reflexivity.
    + left. vm_compute. reflexivity.
    + by exists rows,
        (assign_rows ex_people ex_stories_free ex_cfg_free (answer st vals pm)), urows.
Qed.

(** Where nobody has capacity 0 and the objective has a term, an answer
    with the status Infeasible and the value 0 everywhere gives what the
    specification asks for: empty selection and assignment views, a
    utilization row of zeros per person, and the status in the summary. *)
Lemma extraction_of_infeasible_answer :
  exists urows rest,
    main ex_people ex_stories ex_roles ex_cfg_bugs (answer LpStatusInfeasible zero_plan)
    = ({| selected_stories_csv := Some []; assignments_csv := Some [];
          person_utilization_csv := Some urows;
          summary_txt := Some (SumStatus "Infeasible" :: rest) |}, Ok tt) /\
    map u_person urows = ["ana"; "bob"] /\
    map u_hours_used urows = [0%Q; 0%Q] /\ map u_release urows = [0%Z; 0%Z].
Proof. do 2 eexists. split; [|split; [|split]]; vm_compute; reflexivity. Qed.

(** An optimal answer that reports the sample plan for exactly the
    variables of the problem: the release variable of the QA person occurs
    in no constraint and has no value, and his release column is 0. *)
Lemma extraction_of_reported_plan :
  exists fs urows rest,
    main ex_people ex_stories ex_roles ex_cfg (sol_of_plan_on ex_plan) = (fs, Ok tt) /\
    person_utilization_csv fs = Some urows /\
    map u_person urows = ["ana"; "bob"] /\ map u_release urows = [1%Z; 0%Z] /\
    summary_txt fs = Some (SumStatus "Optimal" :: rest).
Proof. do 3 eexists. split; [|split; [|split; [|split]]]; vm_compute; reflexivity. Qed.

(** Stories without value and no people penalty: the script stops at line
    197 with only the status line in the summary. *)
Lemma extraction_with_constant_objective :
  exists rows arows urows,
    main ex_people ex_stories_free ex_roles ex_cfg_free (answer LpStatusOptimal zero_plan)
    = ({| selected_stories_csv := Some rows; assignments_csv := Some arows;
          person_utilization_csv := Some urows;
          summary_txt := Some [SumStatus "Optimal"] |}, Raise TypeError).
Proof. do 3 eexists. vm_compute. reflexivity. Qed.

(** Distinct identifiers can still give two constraints one name. *)
Lemma ex_overlapping_names :
  NoDup (I_ ex_people_overlap) /\ NoDup (S_all ex_stories_overlap) /\
  m ex_people_overlap ex_stories_overlap ex_roles ex_cfg = Raise PulpError.
Proof. split; [by_computation|]. split; [by_computation|]. vm_compute. reflexivity. Qed.

(** A role some person has and no record: line 122 raises. *)
Lemma ex_missing_record :
  m ex_people ex_stories [ex_role_QA] ex_cfg = Raise KeyError.
Proof. vm_compute. reflexivity. Qed.

(** Unicode white space is stripped like a blank. *)
Lemma ex_strip_unicode : strip ex_cell_unicode = "s1".
Proof. vm_compute. reflexivity. Qed.

(** The sample plan is feasible for the roster with the person of
    capacity 0. *)
Lemma ex_plan_feasible_zero :
  exists pm,
    m ex_people_zero ex_stories ex_roles ex_cfg = Ok pm /\
    feasible (variables ex_people_zero ex_stories ex_cfg) pm ex_plan.
Proof.
  eexists. split.
  - vm_compute. reflexivity.
  - apply feasible_b_sound. vm_compute. reflexivity.
Qed.

(** C2: on the sample roster with a person of capacity 0 and an optimal
    answer that reports the sample plan, the utilization view raises
    [ZeroDivisionError] at that person; the selection and assignment files
    are written, the utilization file and the summary are not. *)
Theorem utilization_divides_by_zero_capacity :
  exists rows arows,
    main ex_people_zero ex_stories ex_roles ex_cfg (fun _ => sol_of_plan ex_plan)
    = ({| selected_stories_csv := Some rows; assignments_csv := Some arows;
          person_utilization_csv := None; summary_txt := None |},
       Raise ZeroDivisionError) /\
    map sel_story_id rows = ["s1"; "s3"; "s4"] /\ length arows = 6%nat.
Proof. do 2 eexists. split; [|split]; vm_compute; reflexivity. Qed.

(** Without that person the same answer goes through: the status is the
    first line of the summary and every person has a utilization row. *)
Lemma extraction_of_sample_plan :
  exists fs urows rest,
    main ex_people ex_stories ex_roles ex_cfg (fun _ => sol_of_plan ex_plan)
    = (fs, Ok tt) /\
    person_utilization_csv fs = Some urows /\
    map u_person urows = ["ana"; "bob"] /\
    summary_txt fs = Some (SumStatus "Optimal" :: rest).
Proof. do 3 eexists. split; [|split; [|split]]; vm_compute; reflexivity. Qed.

(** The owner variable of the QA person exists although QA is not a
    developer role. *)
Lemma owner_created_for_non_developer :
  ~ owner_created_only_for_developers ex_people ex_stories ex_cfg.
Proof.
  intros Hall. specialize (Hall "bob" "s1").
  assert (Hin : var_owner "bob" "s1"
                ∈ map d_var (variables ex_people ex_stories ex_cfg))
    by by_computation.
  assert (Hrole : role_of ex_people !!! "bob" ∉ ["BE"; "FE"]) by by_computation.
  exact (Hrole (Hall Hin)).
Qed.

(** *** Instances of the general properties *)

Lemma req_formula_witness :
  NoDup (S_ ex_stories ex_cfg) /\ NoDup (R ex_roles) /\
  ex_s1 ∈ ex_stories /\ eligible ex_cfg ex_s1 = true /\ "QA" ∈ ROLES /\
  exists v,
    req ex_stories ex_roles ex_cfg !! ("s1", "QA") = Some v /\
    (forall rr, rr ∈ ex_roles -> r_role rr = "QA" ->
       (v == required_hours ex_cfg 3 "QA" (r_share_of_hours rr)
                            (r_meeting_load_per_story_hours rr))%Q) /\
    ("QA" ∉ R ex_roles -> (v == 0)%Q).
Proof.
  assert (H1 : NoDup (S_ ex_stories ex_cfg)) by by_computation.
  assert (H2 : NoDup (R ex_roles)) by by_computation.
  assert (H3 : ex_s1 ∈ ex_stories) by in_list.
  assert (H4 : eligible ex_cfg ex_s1 = true) by (vm_compute; reflexivity).
  assert (H5 : "QA" ∈ ROLES) by by_computation.
  repeat (split; [assumption|]).
  exact (req_formula ex_stories ex_roles ex_cfg ex_s1 "QA" H1 H2 H3 H4 H5).
Defined.

Lemma role_cap_eff_formula_witness :
  NoDup (I_ ex_people) /\ NoDup (R ex_roles) /\ ex_role_QA ∈ ex_roles /\
  exists v,
    role_cap_eff ex_people ex_roles ex_cfg !! "QA" = Some v /\
    (v == Qmin (raw_capacity ex_people "QA" - 3 * 1)
               (raw_capacity ex_people "QA" * (8 # 10)))%Q.
Proof.
  assert (H1 : NoDup (I_ ex_people)) by by_computation.
  assert (H2 : NoDup (R ex_roles)) by by_computation.
  assert (H3 : ex_role_QA ∈ ex_roles) by in_list.
  repeat (split; [assumption|]).
  exact (role_cap_eff_formula ex_people ex_roles ex_cfg ex_role_QA H1 H2 H3).
Defined.

(** The sample problem is built, and the sample plan is feasible for it. *)
Lemma ex_problem_built :
  exists pm,
    m ex_people ex_stories ex_roles ex_cfg = Ok pm /\
    feasible (variables ex_people ex_stories ex_cfg) pm ex_plan.
Proof.
  eexists. split.
  - vm_compute. reflexivity.
  - apply feasible_b_sound. vm_compute. reflexivity.
Qed.

Lemma single_ownership_witness :
  exists pm,
    m ex_people ex_stories ex_roles ex_cfg = Ok pm /\
    feasible (variables ex_people ex_stories ex_cfg) pm ex_plan /\
    "s1" ∈ S_ ex_stories ex_cfg /\
    ((ex_plan (var_z "s1") == 0)%Q \/ (ex_plan (var_z "s1") == 1)%Q) /\
    ((ex_plan (var_z "s1") == 1)%Q -> length (owners ex_people ex_plan "s1") = 1%nat) /\
    ((ex_plan (var_z "s1") == 0)%Q -> length (owners ex_people ex_plan "s1") = 0%nat).
Proof.
  destruct ex_problem_built as (pm & H1 & H2). exists pm.
  assert (H3 : "s1" ∈ S_ ex_stories ex_cfg) by by_computation.
  repeat (split; [assumption|]).
  exact (single_ownership ex_people ex_stories ex_roles ex_cfg pm ex_plan "s1" H1 H2 H3).
Defined.

Lemma release_of_active_witness :
  exists pm,
    m ex_people ex_stories ex_roles ex_cfg = Ok pm /\
    feasible (variables ex_people ex_stories ex_cfg) pm ex_plan /\
    "ana" ∈ devs ex_people /\
    (ex_plan (var_rel "ana")
     <= inject_Z (Z.of_nat (length (owned ex_stories ex_cfg ex_plan "ana"))))%Q /\
    (ex_plan (var_y "ana") <= ex_plan (var_rel "ana"))%Q /\
    ((ex_plan (var_y "ana") == 1)%Q ->
     (ex_plan (var_rel "ana") == 1)%Q /\
     exists s, s ∈ S_ ex_stories ex_cfg /\ (ex_plan (var_owner "ana" s) == 1)%Q).
Proof.
  destruct ex_problem_built as (pm & H1 & H2). exists pm.
  assert (H3 : "ana" ∈ devs ex_people) by by_computation.
  repeat (split; [assumption|]).
  exact (release_of_active ex_people ex_stories ex_roles ex_cfg pm ex_plan "ana" H1 H2 H3).
Defined.

Lemma dependency_precedence_witness :
  exists pm,
    m ex_people ex_stories ex_roles ex_cfg = Ok pm /\
    ex_s3 ∈ ex_stories /\ eligible ex_cfg ex_s3 = true /\
    strip (default "" (s_depends_on ex_s3)) = "s1" /\ "s1" <> "" /\
    "s1" ∈ S_ ex_stories ex_cfg /\
    ("s3", "s1") ∈ deps ex_stories ex_cfg /\
    named "Dep_s3_on_s1" (expr_var (var_z "s3")) LpLE (expr_var (var_z "s1"))
    ∈ constraints pm /\
    forall a, feasible (variables ex_people ex_stories ex_cfg) pm a ->
              (a (var_z "s3") == 1)%Q -> (a (var_z "s1") == 1)%Q.
Proof.
  destruct ex_problem_built as (pm & H1 & _). exists pm.
  assert (H2 : ex_s3 ∈ ex_stories) by in_list.
  assert (H3 : eligible ex_cfg ex_s3 = true) by (vm_compute; reflexivity).
  assert (H4 : strip (default "" (s_depends_on ex_s3)) = "s1")
    by (vm_compute; reflexivity).
  assert (H5 : "s1" <> "") by discriminate.
  assert (H6 : "s1" ∈ S_ ex_stories ex_cfg) by by_computation.
  repeat (split; [assumption|]).
  exact (dependency_precedence ex_people ex_stories ex_roles ex_cfg pm ex_s3 "s1"
           H1 H2 H3 H4 H5 H6).
Defined.

Lemma forbidden_story_absent_witness :
  NoDup (S_all ex_stories) /\ ex_s2 ∈ ex_stories /\
  s_points ex_s2 ∈ forbid_points ex_cfg /\
  ("s2" ∉ S_ ex_stories ex_cfg) /\
  (forall d, d ∈ variables ex_people ex_stories ex_cfg ->
             var_story (d_var d) <> Some "s2") /\
  (forall pm, m ex_people ex_stories ex_roles ex_cfg = Ok pm ->
     (forall v, v ∈ problem_vars pm -> var_story v <> Some "s2") /\
     (forall s name sense,
        named name (expr_var (var_z s)) sense (expr_var (var_z "s2"))
        ∉ constraints pm)) /\
  (forall sol fs r, outputs ex_people ex_stories ex_cfg sol no_files = (fs, r) ->
     (forall rows row, selected_stories_csv fs = Some rows -> row ∈ rows ->
                       sel_story_id row <> "s2") /\
     (forall rows row, assignments_csv fs = Some rows -> row ∈ rows ->
                       as_story_id row <> "s2")).
Proof.
  assert (H1 : NoDup (S_all ex_stories)) by by_computation.
  assert (H2 : ex_s2 ∈ ex_stories) by in_list.
  assert (H3 : s_points ex_s2 ∈ forbid_points ex_cfg) by by_computation.
  repeat (split; [assumption|]).
  exact (forbidden_story_absent ex_people ex_stories ex_roles ex_cfg ex_s2 H1 H2 H3).
Defined.

Lemma owner_vars_used_only_for_developers_witness :
  exists pm,
    m ex_people ex_stories ex_roles ex_cfg = Ok pm /\
    (forall i s, i ∈ I_ ex_people -> s ∈ S_ ex_stories ex_cfg ->
                 var_owner i s ∈ map d_var (variables ex_people ex_stories ex_cfg)) /\
    (forall i s, var_owner i s ∈ problem_vars pm ->
                 i ∈ I_ ex_people /\ role_of ex_people !!! i ∈ ["BE"; "FE"]).
Proof.
  destruct ex_problem_built as (pm & H1 & _). exists pm.
  split; [assumption|].
  exact (owner_vars_used_only_for_developers ex_people ex_stories ex_roles ex_cfg pm H1).
Defined.

(** ** Instances of the further properties *)

Lemma ex_values : forall v, is_Some (varValue (sol_of_plan ex_plan) v).
Proof. intros v. by eexists. Qed.

Lemma caps_nonnegative (people_rows : list person_row) (role_rows : list role_row)
    (CFG : config) :
  forallb (fun r => match role_cap_eff people_rows role_rows CFG !! r with
                    | Some c => Qle_bool 0 c
                    | None => true
                    end) ROLES = true ->
  forall r c, r ∈ ROLES -> r ∈ R role_rows \/ people_of people_rows r <> [] ->
              role_cap_eff people_rows role_rows CFG !! r = Some c -> (0 <= c)%Q.
Proof.
  intros Hall r c Hr _ Hc. rewrite forallb_forall in Hall.
  apply list_elem_of_In in Hr. specialize (Hall r Hr). rewrite Hc in Hall.
  by apply Qle_bool_iff.
Qed.

Lemma ex_TL_built :
  exists pm,
    m ex_people ex_stories ex_roles_TL ex_cfg = Ok pm /\
    feasible (variables ex_people ex_stories ex_cfg) pm zero_plan.
Proof.
  eexists. split.
  - vm_compute. reflexivity.
  - apply feasible_b_sound. vm_compute. reflexivity.
Qed.

Lemma person_capacity_witness :
  exists pm,
    m ex_people ex_stories ex_roles ex_cfg = Ok pm /\
    feasible (variables ex_people ex_stories ex_cfg) pm ex_plan /\
    "ana" ∈ I_ ex_people /\
    (sum_over (fun s => ex_plan (var_x "ana" s)) (S_ ex_stories ex_cfg)
     <= cap_i ex_people !!! "ana" * ex_plan (var_y "ana"))%Q /\
    ((ex_plan (var_y "ana") == 0)%Q ->
     forall s, s ∈ S_ ex_stories ex_cfg -> (ex_plan (var_x "ana" s) == 0)%Q).
Proof.
  destruct ex_problem_built as (pm & H1 & H2). exists pm.
  assert (H3 : "ana" ∈ I_ ex_people) by by_computation.
  repeat (split; [assumption|]).
  exact (person_capacity ex_people ex_stories ex_roles ex_cfg pm ex_plan "ana" H1 H2 H3).
Defined.

Lemma role_coverage_witness :
  exists pm,
    m ex_people ex_stories ex_roles ex_cfg = Ok pm /\
    feasible (variables ex_people ex_stories ex_cfg) pm ex_plan /\
    "s1" ∈ S_ ex_stories ex_cfg /\ "QA" ∈ ROLES /\
    ("QA" ∈ R ex_roles \/ people_of ex_people "QA" <> []) /\
    (req ex_stories ex_roles ex_cfg !!! ("s1", "QA") * ex_plan (var_z "s1")
     <= sum_over (fun i => ex_plan (var_x i "s1")) (people_of ex_people "QA"))%Q.
Proof.
  destruct ex_problem_built as (pm & H1 & H2). exists pm.
  assert (H3 : "s1" ∈ S_ ex_stories ex_cfg) by by_computation.
  assert (H4 : "QA" ∈ ROLES) by by_computation.
  assert (H5 : "QA" ∈ R ex_roles \/ people_of ex_people "QA" <> [])
    by (left; by_computation).
  repeat (split; [assumption|]).
  exact (role_coverage ex_people ex_stories ex_roles ex_cfg pm ex_plan "s1" "QA"
           H1 H2 H3 H4 H5).
Defined.

Lemma role_without_people_blocks_witness :
  exists pm,
    m ex_people ex_stories ex_roles_TL ex_cfg = Ok pm /\
    feasible (variables ex_people ex_stories ex_cfg) pm zero_plan /\
    "s1" ∈ S_ ex_stories ex_cfg /\ "TL" ∈ ROLES /\ "TL" ∈ R ex_roles_TL /\
    people_of ex_people "TL" = [] /\
    (0 < req ex_stories ex_roles_TL ex_cfg !!! ("s1", "TL"))%Q /\
    (zero_plan (var_z "s1") == 0)%Q.
Proof.
  destruct ex_TL_built as (pm & H1 & H2). exists pm.
  assert (H3 : "s1" ∈ S_ ex_stories ex_cfg) by by_computation.
  assert (H4 : "TL" ∈ ROLES) by by_computation.
  assert (H5 : "TL" ∈ R ex_roles_TL) by by_computation.
  assert (H6 : people_of ex_people "TL" = []) by (vm_compute; reflexivity).
  assert (H7 : (0 < req ex_stories ex_roles_TL ex_cfg !!! ("s1", "TL"))%Q)
    by (vm_compute; reflexivity).
  repeat (split; [assumption|]).
  exact (role_without_people_blocks ex_people ex_stories ex_roles_TL ex_cfg pm
           zero_plan "s1" "TL" H1 H2 H3 H4 H5 H6 H7).
Defined.

Lemma owner_hours_witness :
  exists pm,
    m ex_people ex_stories ex_roles ex_cfg = Ok pm /\
    feasible (variables ex_people ex_stories ex_cfg) pm ex_plan /\
    "ana" ∈ devs ex_people /\ "s1" ∈ S_ ex_stories ex_cfg /\
    (theta_release_hours ex_cfg * ex_plan (var_owner "ana" "s1")
     <= ex_plan (var_x "ana" "s1"))%Q.
Proof.
  destruct ex_problem_built as (pm & H1 & H2). exists pm.
  assert (H3 : "ana" ∈ devs ex_people) by by_computation.
  assert (H4 : "s1" ∈ S_ ex_stories ex_cfg) by by_computation.
  repeat (split; [assumption|]).
  exact (owner_hours ex_people ex_stories ex_roles ex_cfg pm ex_plan "ana" "s1"
           H1 H2 H3 H4).
Defined.

Lemma owner_is_active_witness :
  exists pm,
    m ex_people ex_stories ex_roles ex_cfg = Ok pm /\
    feasible (variables ex_people ex_stories ex_cfg) pm ex_plan /\
    "ana" ∈ devs ex_people /\ "s1" ∈ S_ ex_stories ex_cfg /\
    (0 < theta_release_hours ex_cfg)%Q /\
    (ex_plan (var_owner "ana" "s1") == 1)%Q /\
    (ex_plan (var_y "ana") == 1)%Q /\
    (theta_release_hours ex_cfg <= cap_i ex_people !!! "ana")%Q.
Proof.
  destruct ex_problem_built as (pm & H1 & H2). exists pm.
  assert (H3 : "ana" ∈ devs ex_people) by by_computation.
  assert (H4 : "s1" ∈ S_ ex_stories ex_cfg) by by_computation.
  assert (H5 : (0 < theta_release_hours ex_cfg)%Q) by (vm_compute; reflexivity).
  assert (H6 : (ex_plan (var_owner "ana" "s1") == 1)%Q) by (vm_compute; reflexivity).
  do 6 (split; [assumption|]).
  exact (owner_is_active ex_people ex_stories ex_roles ex_cfg pm ex_plan "ana" "s1"
           H1 H2 H3 H4 H5 H6).
Defined.

Lemma role_capacity_witness :
  exists pm,
    m ex_people ex_stories ex_roles ex_cfg = Ok pm /\
    feasible (variables ex_people ex_stories ex_cfg) pm ex_plan /\
    "BE" ∈ ROLES /\ ("BE" ∈ R ex_roles \/ people_of ex_people "BE" <> []) /\
    exists c,
      role_cap_eff ex_people ex_roles ex_cfg !! "BE" = Some c /\
      (sum_over (fun s => sum_over (fun i => ex_plan (var_x i s))
                            (people_of ex_people "BE"))
                (S_ ex_stories ex_cfg) <= c)%Q.
Proof.
  destruct ex_problem_built as (pm & H1 & H2). exists pm.
  assert (H3 : "BE" ∈ ROLES) by by_computation.
  assert (H4 : "BE" ∈ R ex_roles \/ people_of ex_people "BE" <> [])
    by (left; by_computation).
  repeat (split; [assumption|]).
  exact (role_capacity ex_people ex_stories ex_roles ex_cfg pm ex_plan "BE" H1 H2 H3 H4).
Defined.

Lemma negative_capacity_infeasible_witness :
  exists pm c,
    m ex_people ex_stories ex_roles ex_cfg_bugs = Ok pm /\
    "BE" ∈ ROLES /\ ("BE" ∈ R ex_roles \/ people_of ex_people "BE" <> []) /\
    role_cap_eff ex_people ex_roles ex_cfg_bugs !! "BE" = Some c /\ (c < 0)%Q /\
    ~ feasible (variables ex_people ex_stories ex_cfg_bugs) pm zero_plan.
Proof.
  assert (H1 : exists pm, m ex_people ex_stories ex_roles ex_cfg_bugs = Ok pm)
    by (eexists; vm_compute; reflexivity).
  destruct H1 as [pm H1].
  assert (H4 : exists c, role_cap_eff ex_people ex_roles ex_cfg_bugs !! "BE" = Some c
                         /\ (c < 0)%Q)
    by (eexists; split; vm_compute; reflexivity).
  destruct H4 as (c & H4 & H5). exists pm, c.
  assert (H2 : "BE" ∈ ROLES) by by_computation.
  assert (H3 : "BE" ∈ R ex_roles \/ people_of ex_people "BE" <> [])
    by (left; by_computation).
  repeat (split; [assumption|]).
  exact (negative_capacity_infeasible ex_people ex_stories ex_roles ex_cfg_bugs pm
           zero_plan "BE" c H1 H2 H3 H4 H5).
Defined.

Lemma points_cap_witness :
  exists pm,
    m ex_people ex_stories ex_roles ex_cfg = Ok pm /\
    feasible (variables ex_people ex_stories ex_cfg) pm ex_plan /\
    "ana" ∈ devs ex_people /\
    (points_owned ex_stories ex_cfg ex_plan "ana" <= max_points_per_dev ex_cfg)%Z.
Proof.
  destruct ex_problem_built as (pm & H1 & H2). exists pm.
  assert (H3 : "ana" ∈ devs ex_people) by by_computation.
  repeat (split; [assumption|]).
  exact (points_cap ex_people ex_stories ex_roles ex_cfg pm ex_plan "ana" H1 H2 H3).
Defined.

Lemma zero_plan_feasible_witness :
  exists pm,
    m ex_people ex_stories ex_roles ex_cfg = Ok pm /\
    (0 <= max_points_per_dev ex_cfg)%Z /\
    (forall r c, r ∈ ROLES -> r ∈ R ex_roles \/ people_of ex_people r <> [] ->
                 role_cap_eff ex_people ex_roles ex_cfg !! r = Some c -> (0 <= c)%Q) /\
    feasible (variables ex_people ex_stories ex_cfg) pm zero_plan.
Proof.
  destruct ex_problem_built as (pm & H1 & _). exists pm.
  assert (H2 : (0 <= max_points_per_dev ex_cfg)%Z) by (vm_compute; discriminate).
  assert (H3 : forall r c, r ∈ ROLES ->
                 r ∈ R ex_roles \/ people_of ex_people r <> [] ->
                 role_cap_eff ex_people ex_roles ex_cfg !! r = Some c -> (0 <= c)%Q)
    by (apply caps_nonnegative; vm_compute; reflexivity).
  repeat (split; [assumption|]).
  exact (zero_plan_feasible ex_people ex_stories ex_roles ex_cfg pm H1 H2 H3).
Defined.

Lemma selection_view_witness :
  exists rows,
    sel ex_people ex_stories ex_cfg (sol_of_plan ex_plan) = Ok rows /\
    map sel_story_id rows
    = filter (fun s => chosen (sol_of_plan ex_plan) s = true) (S_ ex_stories ex_cfg).
Proof.
  assert (H1 : exists rows, sel ex_people ex_stories ex_cfg (sol_of_plan ex_plan) = Ok rows)
    by (eexists; vm_compute; reflexivity).
  destruct H1 as [rows H1]. exists rows. split; [assumption|].
  exact (proj1 (selection_view ex_people ex_stories ex_cfg (sol_of_plan ex_plan) rows H1)).
Defined.

Lemma utilization_view_outcome_witness :
  (forall v, is_Some (varValue (sol_of_plan ex_plan) v)) /\
  (util ex_people_zero ex_stories ex_cfg (sol_of_plan ex_plan) = Raise ZeroDivisionError
   <-> exists i, i ∈ I_ ex_people_zero /\ (cap_i ex_people_zero !!! i == 0)%Q).
Proof.
  split; [exact ex_values|].
  exact (proj2 (utilization_view_outcome ex_people_zero ex_stories ex_cfg
                  (sol_of_plan ex_plan) ex_values)).
Defined.

Lemma utilization_view_rows_witness :
  exists rows,
    util ex_people ex_stories ex_cfg (sol_of_plan ex_plan) = Ok rows /\
    map u_person rows = I_ ex_people.
Proof.
  assert (H1 : exists rows, util ex_people ex_stories ex_cfg (sol_of_plan ex_plan) = Ok rows)
    by (eexists; vm_compute; reflexivity).
  destruct H1 as [rows H1]. exists rows. split; [assumption|].
  exact (proj1 (utilization_view_rows ex_people ex_stories ex_cfg
                  (sol_of_plan ex_plan) rows H1)).
Defined.

Lemma people_by_role_witness :
  NoDup (I_ ex_people) /\
  I_by_role ex_people ex_roles_TL !!! "QA"
  = map p_person (filter (fun p => p_role p = "QA") ex_people) /\
  (dict_mem (I_by_role ex_people ex_roles_TL) "QA" = true <->
   "QA" ∈ R ex_roles_TL \/ exists p, p ∈ ex_people /\ p_role p = "QA").
Proof.
  assert (H1 : NoDup (I_ ex_people)) by by_computation.
  split; [assumption|].
  exact (people_by_role ex_people ex_roles_TL "QA" H1).
Defined.

Lemma role_cap_eff_missing_record_witness :
  ("QA" ∉ R [ex_role_BE]) /\
  role_cap_eff ex_people [ex_role_BE] ex_cfg !! "QA" = Some 0%Q.
Proof.
  assert (H1 : "QA" ∉ R [ex_role_BE]) by by_computation.
  split; [assumption|].
  exact (role_cap_eff_missing_record ex_people [ex_role_BE] ex_cfg "QA" H1).
Defined.

Lemma assignment_view_witness :
  {| as_person := "ana"; as_role := role_of ex_people !!! "ana";
     as_story_id := "s1"; as_hours := py_round 6 2 |}
  ∈ assign_rows ex_people ex_stories ex_cfg (sol_of_plan ex_plan).
Proof.
  apply (proj2 (assignment_view ex_people ex_stories ex_cfg (sol_of_plan ex_plan) _)).
  exists "ana", "s1", 6%Q. split; [by_computation|]. split; [by_computation|].
  split; [reflexivity|]. split; [vm_compute; reflexivity|reflexivity].
Defined.

Lemma ex_cycle_built :
  exists pm,
    m ex_people ex_stories_cycle ex_roles ex_cfg = Ok pm /\
    feasible (variables ex_people ex_stories_cycle ex_cfg) pm ex_plan.
Proof.
  eexists. split.
  - vm_compute. reflexivity.
  - apply feasible_b_sound. vm_compute. reflexivity.
Qed.

Lemma ex_free_built :
  exists pm, m ex_people ex_stories_free ex_roles ex_cfg_free = Ok pm.
Proof. eexists. vm_compute. reflexivity. Qed.

Lemma ex_objective_has_term : objective_has_term ex_people ex_stories ex_cfg.
Proof.
  left. exists "s1". split; [by_computation|].
  intros Hz. vm_compute in Hz. discriminate.
Qed.

Lemma selection_of_feasible_plan_witness :
  exists pm,
    m ex_people ex_stories ex_roles ex_cfg = Ok pm /\
    feasible (variables ex_people ex_stories ex_cfg) pm ex_plan /\
    reports pm (sol_of_plan_on ex_plan pm) ex_plan /\
    exists rows,
      sel ex_people ex_stories ex_cfg (sol_of_plan_on ex_plan pm) = Ok rows /\
      map sel_story_id rows
      = filter (fun s => Qeq_bool (ex_plan (var_z s)) 1 = true) (S_ ex_stories ex_cfg) /\
      forall row, row ∈ rows ->
        exists i, sel_owner row = Some i /\ i ∈ devs ex_people /\
                  (ex_plan (var_owner i (sel_story_id row)) == 1)%Q.
Proof.
  destruct ex_problem_built as (pm & H1 & H2). exists pm.
  pose proof (answer_reports LpStatusOptimal ex_plan pm) as H3.
  repeat (split; [assumption|]).
  exact (selection_of_feasible_plan ex_people ex_stories ex_roles ex_cfg pm ex_plan
           (sol_of_plan_on ex_plan pm) H1 H2 H3).
Defined.

Lemma summary_figures_witness :
  exists pm,
    m ex_people ex_stories ex_roles ex_cfg = Ok pm /\
    feasible (variables ex_people ex_stories ex_cfg) pm ex_plan /\
    reports pm (sol_of_plan_on ex_plan pm) ex_plan /\
    (forall i, i ∈ I_ ex_people -> ~ (cap_i ex_people !!! i == 0)%Q) /\
    exists vt n,
      val_total ex_stories ex_cfg (sol_of_plan_on ex_plan pm) = Ok vt /\
      active_people ex_people (sol_of_plan_on ex_plan pm) = Ok n /\
      (vt == sum_over (fun s => (value ex_stories ex_cfg !!! s) * ex_plan (var_z s))
                      (S_ ex_stories ex_cfg))%Q /\
      (inject_Z (Z.of_nat n) == sum_over (fun i => ex_plan (var_y i)) (I_ ex_people))%Q /\
      (objective_has_term ex_people ex_stories ex_cfg ->
       exists o, format_obj ex_people ex_stories ex_cfg (sol_of_plan_on ex_plan pm) = Ok o /\
                 (o == vt - lambda_people ex_cfg * inject_Z (Z.of_nat n))%Q) /\
      (~ objective_has_term ex_people ex_stories ex_cfg ->
       format_obj ex_people ex_stories ex_cfg (sol_of_plan_on ex_plan pm)
       = Raise TypeError).
Proof.
  destruct ex_problem_built as (pm & H1 & H2). exists pm.
  pose proof (answer_reports LpStatusOptimal ex_plan pm) as H3.
  assert (H4 : forall i, i ∈ I_ ex_people -> ~ (cap_i ex_people !!! i == 0)%Q)
    by (apply caps_not_zero; vm_compute; reflexivity).
  repeat (split; [assumption|]).
  exact (summary_figures ex_people ex_stories ex_roles ex_cfg pm ex_plan
           (sol_of_plan_on ex_plan pm) H1 H2 H3 H4).
Defined.

Lemma utilization_of_feasible_plan_witness :
  exists pm rows,
    m ex_people ex_stories ex_roles ex_cfg = Ok pm /\
    feasible (variables ex_people ex_stories ex_cfg) pm ex_plan /\
    reports pm (sol_of_plan_on ex_plan pm) ex_plan /\
    util ex_people ex_stories ex_cfg (sol_of_plan_on ex_plan pm) = Ok rows /\
    forall row, row ∈ rows ->
      (0 <= u_hours_used row)%Q /\
      (0 <= u_utilization row)%Q /\ (u_utilization row <= 1)%Q /\
      (u_active row = 1%Z <-> (ex_plan (var_y (u_person row)) == 1)%Q) /\
      (u_release row = 1%Z <->
       u_person row ∈ devs ex_people /\ (ex_plan (var_rel (u_person row)) == 1)%Q).
Proof.
  destruct ex_problem_built as (pm & H1 & H2). exists pm.
  pose proof (answer_reports LpStatusOptimal ex_plan pm) as H3.
  assert (H4 : exists rows,
            util ex_people ex_stories ex_cfg (sol_of_plan_on ex_plan pm) = Ok rows).
  { destruct (util_outcome ex_people ex_stories ex_roles ex_cfg pm
                (sol_of_plan_on ex_plan pm) H1 (answer_valued _ _ _))
      as [(_ & i & Hi & Hz)|[Hok _]]; [|done].
    exfalso. revert i Hi Hz. apply caps_not_zero. vm_compute. reflexivity. }
  destruct H4 as [rows H4]. exists rows.
  repeat (split; [assumption|]).
  exact (utilization_of_feasible_plan ex_people ex_stories ex_roles ex_cfg pm ex_plan
           (sol_of_plan_on ex_plan pm) rows H1 H2 H3 H4).
Defined.

Lemma outputs_file_order_witness :
  exists pm fs r,
    m ex_people ex_stories_free ex_roles ex_cfg_free = Ok pm /\
    outputs ex_people ex_stories_free ex_cfg_free
      (answer LpStatusOptimal zero_plan pm) no_files = (fs, r) /\
    (is_Some (selected_stories_csv fs) <-> is_Some (assignments_csv fs)) /\
    (is_Some (person_utilization_csv fs) -> is_Some (assignments_csv fs)) /\
    (is_Some (summary_txt fs) -> is_Some (person_utilization_csv fs)) /\
    (forall lines, summary_txt fs = Some lines ->
       exists rest, lines = SumStatus "Optimal" :: rest) /\
    (r = Ok tt -> is_Some (summary_txt fs)).
Proof.
  destruct ex_free_built as [pm H1]. exists pm.
  destruct (outputs ex_people ex_stories_free ex_cfg_free
              (answer LpStatusOptimal zero_plan pm) no_files) as [fs r] eqn:H2.
  exists fs, r. split; [assumption|]. split; [reflexivity|].
  exact (outputs_file_order ex_people ex_stories_free ex_cfg_free
           (answer LpStatusOptimal zero_plan pm) fs r H2).
Defined.

Lemma dependencies_reported_witness :
  exists pm fs r lines n,
    m ex_people ex_stories ex_roles ex_cfg = Ok pm /\
    outputs ex_people ex_stories ex_cfg (sol_of_plan ex_plan) no_files = (fs, r) /\
    summary_txt fs = Some lines /\ SumDependencies n ∈ lines /\
    n = length (deps ex_stories ex_cfg) /\
    (exists others, constraints pm = others ++ Dep_constraints ex_stories ex_cfg) /\
    length (Dep_constraints ex_stories ex_cfg)
    = length (filter (fun sp : string * string => sp.2 ∈ S_ ex_stories ex_cfg)
                     (deps ex_stories ex_cfg)) /\
    (length (Dep_constraints ex_stories ex_cfg) <= n)%nat /\
    ((length (Dep_constraints ex_stories ex_cfg) < n)%nat <->
     exists sp : string * string,
       sp ∈ deps ex_stories ex_cfg /\ (sp.2 ∉ S_ ex_stories ex_cfg)).
Proof.
  destruct ex_problem_built as (pm & H1 & _). exists pm.
  assert (H : exists fs r lines,
            outputs ex_people ex_stories ex_cfg (sol_of_plan ex_plan) no_files = (fs, r)
            /\ summary_txt fs = Some lines /\ SumDependencies 2 ∈ lines).
  { do 3 eexists. split; [vm_compute; reflexivity|].
    split; [vm_compute; reflexivity|]. in_list. }
  destruct H as (fs & r & lines & H2 & H3 & H4). exists fs, r, lines, 2%nat.
  repeat (split; [assumption|]).
  exact (dependencies_reported ex_people ex_stories ex_roles ex_cfg pm
           (sol_of_plan ex_plan) fs r lines 2 H1 H2 H3 H4).
Defined.

Lemma outputs_raise_on_constant_objective_witness :
  exists pm,
    m ex_people ex_stories_free ex_roles ex_cfg_free = Ok pm /\
    valued pm (answer LpStatusOptimal zero_plan pm) /\
    (forall i, i ∈ I_ ex_people -> ~ (cap_i ex_people !!! i == 0)%Q) /\
    (forall s, s ∈ S_ ex_stories_free ex_cfg_free ->
               (value ex_stories_free ex_cfg_free !!! s == 0)%Q) /\
    ((lambda_people ex_cfg_free == 0)%Q \/ I_ ex_people = []) /\
    exists rows urows,
      sel ex_people ex_stories_free ex_cfg_free (answer LpStatusOptimal zero_plan pm)
      = Ok rows /\
      util ex_people ex_stories_free ex_cfg_free (answer LpStatusOptimal zero_plan pm)
      = Ok urows /\
      outputs ex_people ex_stories_free ex_cfg_free
        (answer LpStatusOptimal zero_plan pm) no_files
      = ({| selected_stories_csv := Some rows;
            assignments_csv :=
              Some (assign_rows ex_people ex_stories_free ex_cfg_free
                      (answer LpStatusOptimal zero_plan pm));
            person_utilization_csv := Some urows;
            summary_txt := Some [SumStatus "Optimal"] |},
         Raise TypeError).
Proof.
  destruct ex_free_built as [pm H1]. exists pm.
  pose proof (answer_valued LpStatusOptimal zero_plan pm) as H2.
  assert (H3 : forall i, i ∈ I_ ex_people -> ~ (cap_i ex_people !!! i == 0)%Q)
    by (apply caps_not_zero; vm_compute; reflexivity).
  assert (H4 : forall s, s ∈ S_ ex_stories_free ex_cfg_free ->
                 (value ex_stories_free ex_cfg_free !!! s == 0)%Q)
    by (apply values_zero; vm_compute; reflexivity).
  assert (H5 : (lambda_people ex_cfg_free == 0)%Q \/ I_ ex_people = [])
    by (left; vm_compute; reflexivity).
  repeat (split; [assumption|]).
  exact (outputs_raise_on_constant_objective ex_people ex_stories_free ex_roles
           ex_cfg_free pm (answer LpStatusOptimal zero_plan pm) H1 H2 H3 H4 H5).
Defined.

Lemma outputs_succeed_witness :
  exists pm,
    m ex_people ex_stories ex_roles ex_cfg = Ok pm /\
    valued pm (sol_of_plan_on ex_plan pm) /\
    (forall i, i ∈ I_ ex_people -> ~ (cap_i ex_people !!! i == 0)%Q) /\
    objective_has_term ex_people ex_stories ex_cfg /\
    exists rows urows rest,
      sel ex_people ex_stories ex_cfg (sol_of_plan_on ex_plan pm) = Ok rows /\
      util ex_people ex_stories ex_cfg (sol_of_plan_on ex_plan pm) = Ok urows /\
      outputs ex_people ex_stories ex_cfg (sol_of_plan_on ex_plan pm) no_files
      = ({| selected_stories_csv := Some rows;
            assignments_csv :=
              Some (assign_rows ex_people ex_stories ex_cfg (sol_of_plan_on ex_plan pm));
            person_utilization_csv := Some urows;
            summary_txt := Some (SumStatus "Optimal" :: rest) |},
         Ok tt).
Proof.
  destruct ex_problem_built as (pm & H1 & _). exists pm.
  pose proof (answer_valued LpStatusOptimal ex_plan pm) as H2.
  assert (H3 : forall i, i ∈ I_ ex_people -> ~ (cap_i ex_people !!! i == 0)%Q)
    by (apply caps_not_zero; vm_compute; reflexivity).
  pose proof ex_objective_has_term as H4.
  repeat (split; [assumption|]).
  exact (outputs_succeed ex_people ex_stories ex_roles ex_cfg pm
           (sol_of_plan_on ex_plan pm) H1 H2 H3 H4).
Defined.

Lemma mutual_dependency_witness :
  exists pm,
    m ex_people ex_stories_cycle ex_roles ex_cfg = Ok pm /\
    feasible (variables ex_people ex_stories_cycle ex_cfg) pm ex_plan /\
    ("s1", "s3") ∈ deps ex_stories_cycle ex_cfg /\
    ("s3", "s1") ∈ deps ex_stories_cycle ex_cfg /\
    (ex_plan (var_z "s1") == ex_plan (var_z "s3"))%Q.
Proof.
  destruct ex_cycle_built as (pm & H1 & H2). exists pm.
  assert (H3 : ("s1", "s3") ∈ deps ex_stories_cycle ex_cfg) by by_computation.
  assert (H4 : ("s3", "s1") ∈ deps ex_stories_cycle ex_cfg) by by_computation.
  repeat (split; [assumption|]).
  exact (mutual_dependency ex_people ex_stories_cycle ex_roles ex_cfg pm ex_plan
           "s1" "s3" H1 H2 H3 H4).
Defined.


Lemma deps_recorded_witness :
  deps ex_stories ex_cfg = [("s3", "s1"); ("s4", "s2")].
Proof. rewrite (deps_recorded ex_stories ex_cfg). vm_compute. reflexivity. Defined.
